(** * Storage assist entries: path resolution and the lazy deep walk

    A shallow embedding of
    [desktop/core/src/desktop/js/ko/components/assist/assistStorageEntry.js]:
    the regular expressions of [getEntry], the page loading operations
    [loadEntries] and [fetchMore], and the recursive walk [loadDeep].

    Conventions of the embedding.
    - A JavaScript string is a [string]; its characters are the code units
      below 256.
    - The asynchronous listing request is a call to a [backend], which
      answers every request with a success or a failure record; the
      callback the source hands to the request runs on the answer.
    - [String.prototype.localeCompare] and the [RegExp] built from
      [rootPath] at run time belong to the host; they are parameters. *)

From Stdlib Require Import Bool Arith List ZArith Lia Ascii String.
Import ListNotations.
Open Scope string_scope.
Open Scope nat_scope.

(** ** Strings *)

Module Str.

Definition slash : ascii := "/"%char.

(** [s.split('/')]: never empty, the empty string gives one empty piece. *)
Fixpoint split_aux (acc s : string) : list string :=
  match s with
  | EmptyString => [acc]
  | String c s' =>
      if Ascii.eqb c slash then acc :: split_aux "" s'
      else split_aux (acc ++ String c "") s'
  end.

Definition split (s : string) : list string := split_aux "" s.

(** [parts.join('/')]. *)
Fixpoint join (parts : list string) : string :=
  match parts with
  | [] => ""
  | [p] => p
  | p :: rest => p ++ String slash (join rest)
  end.

(** The number of ['/'] in a string. *)
Fixpoint slashes (s : string) : nat :=
  match s with
  | EmptyString => 0
  | String c s' => (if Ascii.eqb c slash then 1 else 0) + slashes s'
  end.

(** Truthiness of a string: [Boolean(s)]. *)
Definition truthy (s : string) : bool :=
  match s with EmptyString => false | _ => true end.

(** Lower case of an ASCII letter, every other code unit unchanged. *)
Definition lower (c : ascii) : ascii :=
  let n := nat_of_ascii c in
  if (65 <=? n) && (n <=? 90) then ascii_of_nat (n + 32) else c.

Definition is_line_terminator (c : ascii) : bool :=
  let n := nat_of_ascii c in (n =? 10) || (n =? 13).

(** Code units that [String.prototype.trim] removes. *)
Definition is_white_space (c : ascii) : bool :=
  let n := nat_of_ascii c in
  (n =? 9) || (n =? 10) || (n =? 11) || (n =? 12) || (n =? 13)
  || (n =? 32) || (n =? 160).

Fixpoint all_chars (p : ascii -> bool) (s : string) : bool :=
  match s with
  | EmptyString => true
  | String c s' => p c && all_chars p s'
  end.

(** [s.trim()] is truthy. *)
Definition trim_truthy (s : string) : bool :=
  negb (all_chars is_white_space s).

Fixpoint drop (n : nat) (s : string) : string :=
  match n, s with
  | O, _ => s
  | S n', String _ s' => drop n' s'
  | S _, EmptyString => EmptyString
  end.

Fixpoint take (n : nat) (s : string) : string :=
  match n, s with
  | S n', String c s' => String c (take n' s')
  | _, _ => EmptyString
  end.

End Str.

(** ** A backtracking matcher for the regular expressions of the source

    The matcher follows the ECMAScript semantics of the constructs the
    source uses: greedy quantifiers that backtrack, alternation tried left
    to right, numbered capture groups, the anchors [^] and [$] without the
    multiline flag, and an iteration of a [*] that consumes nothing is
    rejected.  Captures of the groups inside a quantified part are cleared
    when an iteration starts. *)

Module Re.

Inductive re : Type :=
| Eps : re
| Chr : (ascii -> bool) -> re
| Seq : re -> re -> re
| Alt : re -> re -> re
| Star : re -> re
| Grp : nat -> re -> re
| Bol : re
| Eol : re.

Definition Plus (r : re) : re := Seq r (Star r).
Definition Opt (r : re) : re := Alt r Eps.

(** Classes.  The flag [i] is carried by [lit_i]. *)
Definition lit (c : ascii) : re := Chr (Ascii.eqb c).
Definition lit_i (c : ascii) : re :=
  Chr (fun x => Ascii.eqb (Str.lower x) (Str.lower c)).
Definition dot : re := Chr (fun x => negb (Str.is_line_terminator x)).
Definition word_char (c : ascii) : bool :=
  let n := nat_of_ascii c in
  ((48 <=? n) && (n <=? 57)) || ((65 <=? n) && (n <=? 90))
  || ((97 <=? n) && (n <=? 122)) || (n =? 95).
Definition word : re := Chr word_char.

Fixpoint lits_i (s : string) : re :=
  match s with
  | EmptyString => Eps
  | String c EmptyString => lit_i c
  | String c s' => Seq (lit_i c) (lits_i s')
  end.

Definition captures := list (nat * string).

Fixpoint capture (i : nat) (c : captures) : option string :=
  match c with
  | [] => None
  | (j, v) :: c' => if Nat.eqb i j then Some v else capture i c'
  end.

Fixpoint groups (r : re) : list nat :=
  match r with
  | Seq a b | Alt a b => groups a ++ groups b
  | Star a => groups a
  | Grp i a => i :: groups a
  | _ => []
  end.

Definition clear (gs : list nat) (c : captures) : captures :=
  filter (fun e => negb (existsb (Nat.eqb (fst e)) gs)) c.

(** A successful match: the position after it, the rest of the input and
    the captures. *)
Definition result : Type := nat * string * captures.

Definition cont : Type := nat -> string -> captures -> option result.

(** The iterations of a [*] whose body is matched by [body] and holds the
    groups [gs]: as many as possible, at most [n], then the continuation
    [k].  An iteration is tried before [k], and one that does not move
    forward is rejected. *)
Fixpoint star_iter (body : cont -> cont) (gs : list nat) (k : cont)
  (n : nat) (pos : nat) (s : string) (c : captures) {struct n}
  : option result :=
  match n with
  | O => k pos s c
  | S n' =>
      match
        body (fun pos' s' c' =>
                if pos <? pos' then star_iter body gs k n' pos' s' c'
                else None)
             pos s (clear gs c)
      with
      | Some res => Some res
      | None => k pos s c
      end
  end.

Fixpoint run (r : re) (k : cont) (pos : nat) (s : string) (c : captures)
  {struct r} : option result :=
  match r with
  | Eps => k pos s c
  | Chr p =>
      match s with
      | String x s' => if p x then k (S pos) s' c else None
      | EmptyString => None
      end
  | Seq a b => run a (run b k) pos s c
  | Alt a b =>
      match run a k pos s c with
      | Some res => Some res
      | None => run b k pos s c
      end
  | Star a => star_iter (run a) (groups a) k (String.length s) pos s c
  | Grp i a =>
      run a
        (fun pos' s' c' =>
           k pos' s' ((i, Str.take (pos' - pos) s) :: clear [i] c'))
        pos s c
  | Bol => if Nat.eqb pos 0 then k pos s c else None
  | Eol => match s with EmptyString => k pos s c | _ => None end
  end.

Definition accept : cont := fun pos s c => Some (pos, s, c).

(** A match that starts at position [pos], where [s] is what is left of
    the input there. *)
Definition match_at (r : re) (pos : nat) (s : string) : option result :=
  run r accept pos s [].

(** The leftmost match at or after [pos]: its start and its result. *)
Fixpoint search (r : re) (pos : nat) (s : string) {struct s}
  : option (nat * result) :=
  match match_at r pos s with
  | Some res => Some (pos, res)
  | None =>
      match s with
      | EmptyString => None
      | String _ s' => search r (S pos) s'
      end
  end.

(** [s.match(r)] without the flag [g]. *)
Definition exec (r : re) (s : string) : option captures :=
  match search r 0 s with
  | Some (_, (_, _, c)) => Some c
  | None => None
  end.

(** The whole of [s] matches [r]. *)
Definition matches (r : re) (s : string) : bool :=
  match run (Seq r Eol) accept 0 s [] with
  | Some _ => true
  | None => false
  end.

(** [r.test(s)]. *)
Definition test (r : re) (s : string) : bool :=
  match search r 0 s with Some _ => true | None => false end.

(** [s.replace(r, by)] without the flag [g]: the leftmost match only. *)
Definition replace (r : re) (by_ : string) (s : string) : string :=
  match search r 0 s with
  | Some (start, (_, rest, _)) => Str.take start s ++ by_ ++ rest
  | None => s
  end.

(** [s.replace(r, by)] with the flag [g], from position [pos] on.  After
    an empty match the scan moves one code unit forward. *)
Fixpoint replace_all_from (n : nat) (r : re) (by_ : string)
  (pos : nat) (s : string) {struct n} : string :=
  match n with
  | O => s
  | S n' =>
      match search r pos s with
      | None => s
      | Some (start, (stop, rest, _)) =>
          let skipped := Str.take (start - pos) s in
          if stop =? start then
            match Str.drop (start - pos) s with
            | EmptyString => skipped ++ by_
            | String x tl =>
                skipped ++ by_ ++ String x (replace_all_from n' r by_ (S start) tl)
            end
          else skipped ++ by_ ++ replace_all_from n' r by_ stop rest
      end
  end.

Definition replace_all (r : re) (by_ : string) (s : string) : string :=
  replace_all_from (S (String.length s)) r by_ 0 s.

End Re.

(** ** The regular expressions of the source *)

Module Patterns.
Import Re.

Fixpoint seqs (rs : list re) : re :=
  match rs with
  | [] => Eps
  | [r] => r
  | r :: rest => Seq r (seqs rest)
  end.

Definition not_colon_char (x : ascii) : bool := negb (Ascii.eqb x ":"%char).
Definition not_colon : re := Chr not_colon_char.
Definition dash_or_dot : re :=
  Chr (fun x => Ascii.eqb x "-"%char || Ascii.eqb x "."%char).

(** The pattern of [typeMatch], flag [i]:  ^ ([^:]+) : \/ ( \/ .* ) \/? *)
Definition type_re : re :=
  seqs [Bol; Grp 1 (Plus not_colon); lit ":"; lit "/";
        Grp 2 (Seq (lit "/") (Star dot)); Opt (lit "/")].

(** The alias patterns, flag [i]:  s3 .* ,  adl .* ,  abfs .*  and  ofs .* *)
Definition alias_re (prefix : string) : re := Seq (lits_i prefix) (Star dot).

(** The pattern of [azureMatch], flag [i]:
    ^ ([^:]+) : \/ ( \/ ( (\w+) @ )? [\w]+ ( [\-\.]{1} \w+ )* \. [\w]* )? ( \/ .* )? \/? *)
Definition azure_re : re :=
  seqs [Bol; Grp 1 (Plus not_colon); lit ":"; lit "/";
        Opt (Grp 2 (seqs [lit "/";
                          Opt (Grp 3 (Seq (Grp 4 (Plus word)) (lit "@")));
                          Plus word;
                          Star (Grp 5 (Seq dash_or_dot (Plus word)));
                          lit "."; Star word]));
        Opt (Grp 6 (Seq (lit "/") (Star dot)));
        Opt (lit "/")].

(** The pattern of the slash trimming, flag [g]:  (?: ^ \/ ) | (?: \/ $ ) *)
Definition edge_slash_re : re := Alt (Seq Bol (lit "/")) (Seq (lit "/") Eol).

(** The pattern of the constructor:  \/ $ *)
Definition trailing_slash_re : re := Seq (lit "/") Eol.

End Patterns.

(** ** [AssistStorageEntry.getEntry]: the type and the folders of a path *)

Module Resolve.
Import Re Patterns.

(** [m[i]], where a group that took no part in the match is [undefined]. *)
Definition group (i : nat) (m : option captures) : option string :=
  match m with
  | Some c => capture i c
  | None => None
  end.

(** [x || d] for an optional string. *)
Definition or_else (x : option string) (d : string) : string :=
  match x with
  | Some v => if Str.truthy v then v else d
  | None => d
  end.

Definition typeMatch (path : string) : option captures := exec type_re path.

Definition azureMatch (path : string) : option captures := exec azure_re path.

(** The four [type.replace] statements, in the order of the source. *)
Definition canonical (type : string) : string :=
  let type := replace (alias_re "s3") "s3" type in
  let type := replace (alias_re "adl") "adls" type in
  let type := replace (alias_re "abfs") "abfs" type in
  replace (alias_re "ofs") "ofs" type.

(** [type = typeMatch ? typeMatch[1] : type || 'hdfs'], then the aliases. *)
Definition entryType (path : string) (type : option string) : string :=
  canonical
    (match typeMatch path with
     | Some c => or_else (capture 1 c) ""
     | None => or_else type "hdfs"
     end).

(** The slash trimming of the path followed by [split('/')]. *)
Definition trimSplit (s : string) : list string :=
  Str.split (replace_all edge_slash_re "" s).

(** The list handed to [loadDeep], for the type [type] already made
    canonical. *)
Definition entryFolders (type path : string) : list string :=
  if String.eqb type "abfs" || String.eqb type "adls" then
    let m := azureMatch path in
    let parts :=
      trimSplit (match m with
                 | Some _ => or_else (group 6 m) ""
                 | None => path
                 end) in
    match group 4 m with
    | Some account => if Str.truthy account then account :: parts else parts
    | None => parts
    end
  else
    let m := typeMatch path in
    trimSplit (match m with
               | Some _ => or_else (group 2 m) ""
               | None => path
               end).

End Resolve.

(** ** The data model *)

(** [PAGE_SIZE] *)
Definition PAGE_SIZE : nat := 100.

(** A file record of a listing, the [definition] of an entry. *)
Record FileDefinition : Type := mkDefinition {
  name : string;
  type : string
}.

(** The [parent] reference of an entry.  It owns nothing; the entry reads
    through it the parent's [path] and the names up to the root, both
    fixed when the parent was built.  [parent_names] starts with the
    parent's own name and ends with the root's. *)
Record Parent : Type := mkParent {
  parent_path : string;
  parent_names : list string
}.

(** An [AssistStorageEntry].  The observables are the values they hold. *)
#[warnings="-register-all"]
Inductive Entry : Type := mkEntry {
  definition : FileDefinition;
  parent : option Parent;
  rootPath : string;
  path : string;
  currentPage : Z;
  hasMorePages : bool;
  filter_ : string;
  entries : list Entry;
  loaded : bool;
  loading : bool;
  loadingMore : bool;
  errorText : option string;
  hasErrors : bool
}.

(** The options of a listing request.  [fetchMore] passes no [rootPath]. *)
Record Request : Type := mkRequest {
  req_pageSize : nat;
  req_page : Z;
  req_filter : option string;
  req_pathParts : list string;
  req_rootPath : option string
}.

(** The [data] of a successful listing. *)
Record Listing : Type := mkListing {
  files : list FileDefinition;
  next_page_number : Z;
  s3_listing_not_allowed : option string
}.

(** What a request is answered with: [successCallback(data)] or
    [errorCallback(errorText)]. *)
Inductive Response : Type :=
| Success : Listing -> Response
| Failure : string -> Response.

(** The requests issued so far, the latest first. *)
Definition Log : Type := list Request.

(** A backend stands for the fetch function
    [apiHelper[TYPE_SPECIFICS[self.source.type].apiHelperFetchFunction]]
    of the entries of a tree, whose [source] has one of the types of
    [TYPE_SPECIFICS].  It answers a request knowing every earlier one, so
    any sequence of answers is a backend. *)
Definition Backend : Type := Log -> Request -> Response.

(** ** The constructor and [getHierarchy] *)

(** The reference a child keeps to [p]. *)
Definition parent_of (p : Entry) : Parent :=
  mkParent (path p)
    (name (definition p)
     :: match parent p with
        | Some pp => parent_names pp
        | None => []
        end).

(** [new AssistStorageEntry({definition, parent, rootPath})] *)
Definition construct (d : FileDefinition) (p : option Entry)
  (root_path : string) : Entry :=
  let base :=
    match p with
    | None => ""
    | Some q =>
        if negb (String.eqb (path q) "/")
           && negb (Re.test Patterns.trailing_slash_re (path q))
        then path q ++ "/"
        else path q
    end in
  mkEntry d (option_map parent_of p) root_path (base ++ name d)
    1%Z true "" [] false false false None false.

(** The loop of [getHierarchy] over the names from the entry up to the
    root; the last name is the root's, the entry without a parent. *)
Fixpoint hierarchy_loop (chain : list string) (parts : list string)
  : list string :=
  match chain with
  | [] => parts
  | [root] =>
      if Str.truthy root
      then (parts ++ rev (List.filter Str.truthy (Str.split root)))%list
      else parts
  | n :: up =>
      hierarchy_loop up (if Str.truthy n then (parts ++ [n])%list else parts)
  end.

Definition getHierarchy (self : Entry) : list string :=
  rev (hierarchy_loop
         (name (definition self)
          :: match parent self with
             | Some p => parent_names p
             | None => []
             end) []).

(** ** Field updates *)

Definition set_loading (b : bool) (e : Entry) : Entry :=
  mkEntry (definition e) (parent e) (rootPath e) (path e) (currentPage e)
    (hasMorePages e) (filter_ e) (entries e) (loaded e) b (loadingMore e)
    (errorText e) (hasErrors e).

Definition set_loadingMore (b : bool) (e : Entry) : Entry :=
  mkEntry (definition e) (parent e) (rootPath e) (path e) (currentPage e)
    (hasMorePages e) (filter_ e) (entries e) (loaded e) (loading e) b
    (errorText e) (hasErrors e).

Definition set_hasErrors (b : bool) (e : Entry) : Entry :=
  mkEntry (definition e) (parent e) (rootPath e) (path e) (currentPage e)
    (hasMorePages e) (filter_ e) (entries e) (loaded e) (loading e)
    (loadingMore e) (errorText e) b.

Definition set_errorText (t : option string) (e : Entry) : Entry :=
  mkEntry (definition e) (parent e) (rootPath e) (path e) (currentPage e)
    (hasMorePages e) (filter_ e) (entries e) (loaded e) (loading e)
    (loadingMore e) t (hasErrors e).

Definition set_currentPage (n : Z) (e : Entry) : Entry :=
  mkEntry (definition e) (parent e) (rootPath e) (path e) n
    (hasMorePages e) (filter_ e) (entries e) (loaded e) (loading e)
    (loadingMore e) (errorText e) (hasErrors e).

Definition set_hasMorePages (b : bool) (e : Entry) : Entry :=
  mkEntry (definition e) (parent e) (rootPath e) (path e) (currentPage e)
    b (filter_ e) (entries e) (loaded e) (loading e)
    (loadingMore e) (errorText e) (hasErrors e).

Definition set_entries (l : list Entry) (e : Entry) : Entry :=
  mkEntry (definition e) (parent e) (rootPath e) (path e) (currentPage e)
    (hasMorePages e) (filter_ e) l (loaded e) (loading e)
    (loadingMore e) (errorText e) (hasErrors e).

Definition set_loaded (b : bool) (e : Entry) : Entry :=
  mkEntry (definition e) (parent e) (rootPath e) (path e) (currentPage e)
    (hasMorePages e) (filter_ e) (entries e) b (loading e)
    (loadingMore e) (errorText e) (hasErrors e).

(** ** Loading pages *)

(** [file.name !== '.' && file.name !== '..'] *)
Definition listed (file : FileDefinition) : bool :=
  negb (String.eqb (name file) ".") && negb (String.eqb (name file) "..").

(** [!!data.s3_listing_not_allowed] *)
Definition soft_error (data : Listing) : bool :=
  match s3_listing_not_allowed data with
  | Some t => Str.truthy t
  | None => false
  end.

(** [self.filter().trim() ? self.filter() : undefined] *)
Definition filter_option (self : Entry) : option string :=
  if Str.trim_truthy (filter_ self) then Some (filter_ self) else None.

(** The children built from a listing, [self] being their parent. *)
Definition children_of (self : Entry) (data : Listing) : list Entry :=
  map (fun file => construct file (Some self) (rootPath self))
      (List.filter listed (files data)).

(** The options of the listing request of [self]; [with_root] tells
    whether [rootPath] is among them. *)
Definition pageRequest (with_root : bool) (self : Entry) : Request :=
  mkRequest PAGE_SIZE (currentPage self) (filter_option self)
    (getHierarchy self)
    (if with_root then Some (rootPath self) else None).

(** The request [fetchMore] sends from [self]: the next page. *)
Definition moreRequest (self : Entry) : Request :=
  pageRequest false (set_currentPage (currentPage self + 1)%Z self).

(** Which callback a loading operation ran, if any. *)
Inductive Signal : Type :=
| OnSuccess
| OnError
| NoCall.

Section Loading.

Variable backend : Backend.

(** [self.loadEntries(callback)].  The signal tells whether [callback]
    ran: it runs after a success and after an error alike, and not at all
    when the entry is already loading. *)
Definition loadEntries (self : Entry) (log : Log) : Entry * Log * Signal :=
  if loading self then (self, log, NoCall)
  else
    let self := set_hasErrors false (set_loading true self) in
    let req := pageRequest true self in
    match backend log req with
    | Success data =>
        let self :=
          set_hasMorePages (currentPage self <? next_page_number data)%Z self in
        let self := set_entries (children_of self data) self in
        let self := set_loaded true self in
        let self := set_loading false self in
        let self := set_hasErrors (soft_error data) self in
        let self := set_errorText (s3_listing_not_allowed data) self in
        (self, req :: log, OnSuccess)
    | Failure text =>
        let self := set_hasErrors true self in
        let self := set_errorText (Some text) self in
        let self := set_loading false self in
        (self, req :: log, OnError)
    end.

(** [self.fetchMore(successCallback, errorCallback)] *)
Definition fetchMore (self : Entry) (log : Log) : Entry * Log * Signal :=
  if negb (hasMorePages self) || loadingMore self then (self, log, NoCall)
  else
    let self := set_currentPage (currentPage self + 1)%Z self in
    let self := set_loadingMore true self in
    let self := set_hasErrors false self in
    let req := pageRequest false self in
    match backend log req with
    | Success data =>
        let self :=
          set_hasMorePages (currentPage self <? next_page_number data)%Z self in
        let self :=
          set_entries (entries self ++ children_of self data)%list self in
        let self := set_loadingMore false self in
        (self, req :: log, OnSuccess)
    | Failure _ =>
        let self := set_hasErrors true self in
        (self, req :: log, OnError)
    end.

End Loading.

(** ** The deep walk *)

(** How the search at one entry ends: [foundEntry[0].loadDeep(folders,
    callback)], [callback(self)], or no call at all. *)
Inductive Verdict : Type :=
| Found : Entry -> Verdict
| GiveUp
| Stall.

(** The exceptions the host raises in the walk: [new RegExp] on a
    pattern that does not compile, and the reading of a property of
    [undefined]. *)
Inductive Exception : Type :=
| SyntaxError
| TypeError.

(** What became of the [callback] of a walk: called with an entry, reached
    from the start through the children of the names [trail], never
    called, or never called because an exception ended the walk. *)
Inductive Answer : Type :=
| Called : list string -> Entry -> Answer
| Never
| Raised : Exception -> Answer.

Definition push (n : string) (a : Answer) : Answer :=
  match a with
  | Called trail e => Called (n :: trail) e
  | Never => Never
  | Raised x => Raised x
  end.

(** The last element of an array, if it has one. *)
Fixpoint last_entry (l : list Entry) : option Entry :=
  match l with
  | [] => None
  | [e] => Some e
  | _ :: l' => last_entry l'
  end.

Definition named (n : string) (entry : Entry) : bool :=
  String.eqb (name (definition entry)) n.

(** The array [entries] after the single child named [n] was walked and
    became [child]. *)
Definition with_child (n : string) (child : Entry) (l : list Entry)
  : list Entry :=
  map (fun e => if named n e then child else e) l.

(** A bound on the depth of a walk along [folders]: one more than the
    number of separators of the joined folders. *)
Definition weight (folders : list string) : nat :=
  match folders with
  | [] => 0
  | _ => S (Str.slashes (Str.join folders))
  end.

Section Walk.

Variable backend : Backend.

(** [a.localeCompare(b)], the collation of the host. *)
Variable localeCompare : string -> string -> Z.

(** [new RegExp('^' + rootPath)], the regular expression engine of the
    host: [replaceRoot rootPath] is [None] when the constructor raises
    SyntaxError, the pattern not being one, and otherwise the function
    [s => s.replace(r, '')] of the expression [r] it builds. *)
Variable replaceRoot : string -> option (string -> string).

(** The closure [findNextAndLoadDeep] of [loadDeep], for the name
    [nextName] and the counter [loadedPages].  [gas] bounds the number of
    rounds; [None] means it ran out. *)
Fixpoint findNextAndLoadDeep (gas : nat) (nextName : string)
  (loadedPages : nat) (self : Entry) (log : Log) {struct gas}
  : option (Entry * Log * Verdict) :=
  match gas with
  | O => None
  | S gas' =>
      let foundEntry := List.filter (named nextName) (entries self) in
      let passedAlphabetically :=
        match last_entry (entries self) with
        | Some e => (0 <? localeCompare (name (definition e)) nextName)%Z
        | None => false
        end in
      match foundEntry with
      | [child] => Some (self, log, Found child)
      | _ =>
          if negb passedAlphabetically && hasMorePages self
             && (loadedPages <? 50)
          then
            match fetchMore backend self log with
            | (self', log', OnSuccess) =>
                findNextAndLoadDeep gas' nextName (S loadedPages) self' log'
            | (self', log', OnError) => Some (self', log', GiveUp)
            | (self', log', NoCall) => Some (self', log', Stall)
            end
          else Some (self, log, GiveUp)
      end
  end.

(** The folders after the [rootPath] statement of [loadDeep], split into
    [folders.shift()] and what is left; [None] when [new RegExp] raises
    SyntaxError.  [split] gives at least one piece. *)
Definition shift_folders (self : Entry) (first : string)
  (others : list string) : option (string * list string) :=
  if Str.truthy (rootPath self) then
    match replaceRoot (rootPath self) with
    | None => None
    | Some replace =>
        match Str.split (replace (Str.join (first :: others))) with
        | n :: rest => Some (n, rest)
        | [] => Some ("", [])
        end
    end
  else Some (first, others).

(** The end of [loadDeep], from [let loadedPages = 0] on: the first page
    when [self] is not loaded, then [findNextAndLoadDeep], which has at
    most 51 rounds. *)
Definition loadAndFind (nextName : string) (self : Entry) (log : Log)
  : option (Entry * Log * Verdict) :=
  let '(self, log, signal) :=
    if negb (loaded self) then loadEntries backend self log
    else (self, log, OnSuccess) in
  match signal with
  | NoCall => Some (self, log, Stall)
  | _ => findNextAndLoadDeep 51 nextName 0 self log
  end.

(** [self.loadDeep(folders, callback)].  The result is [self] and the log
    after the walk, and what became of [callback]; [None] means that
    [fuel] ran out. *)
Fixpoint loadDeep (fuel : nat) (self : Entry) (folders : list string)
  (log : Log) {struct fuel} : option (Entry * Log * Answer) :=
  match fuel with
  | O => None
  | S fuel' =>
      match folders with
      | [] => Some (self, log, Called [] self)
      | first :: others =>
          match shift_folders self first others with
          | None => Some (self, log, Raised SyntaxError)
          | Some (nextName, folders) =>
              match loadAndFind nextName self log with
              | None => None
              | Some (self, log, Found child) =>
                  match loadDeep fuel' child folders log with
                  | None => None
                  | Some (child', log', answer) =>
                      Some (set_entries
                              (with_child nextName child' (entries self))
                              self,
                            log', push nextName answer)
                  end
              | Some (self, log, GiveUp) => Some (self, log, Called [] self)
              | Some (self, log, Stall) => Some (self, log, Never)
              end
          end
      end
  end.

(** [self.loadDeep(folders, callback)] at a new entry, neither loaded nor
    loading, whose [source] has a type without entry in [TYPE_SPECIFICS]:
    the walk as far as it gets.  [loadEntries] sets [loading], clears
    [hasErrors] and raises TypeError where it reads
    [apiHelperFetchFunction] of [undefined]. *)
Definition loadDeep_without_specifics (self : Entry)
  (folders : list string) (log : Log) : Entry * Log * Answer :=
  match folders with
  | [] => (self, log, Called [] self)
  | first :: others =>
      match shift_folders self first others with
      | None => (self, log, Raised SyntaxError)
      | Some _ =>
          (set_hasErrors false (set_loading true self), log,
           Raised TypeError)
      end
  end.

End Walk.

(** An entry of the table [TYPE_SPECIFICS]. *)
Record Specifics : Type := mkSpecifics {
  apiHelperFetchFunction : string;
  dblClickPubSubId : string
}.

(** [TYPE_SPECIFICS[type]], [None] for [undefined]. *)
Definition TYPE_SPECIFICS (type : string) : option Specifics :=
  if String.eqb type "adls" then
    Some (mkSpecifics "fetchAdlsPath" "assist.dblClickAdlsItem")
  else if String.eqb type "abfs" then
    Some (mkSpecifics "fetchAbfsPath" "assist.dblClickAbfsItem")
  else if String.eqb type "hdfs" then
    Some (mkSpecifics "fetchHdfsPath" "assist.dblClickHdfsItem")
  else if String.eqb type "s3" then
    Some (mkSpecifics "fetchS3Path" "assist.dblClickS3Item")
  else if String.eqb type "ofs" then
    Some (mkSpecifics "fetchOfsPath" "assist.dblClickOfsItem")
  else None.

(** What became of a call of [getEntry]: its promise was resolved with an
    entry, rejected, or left unsettled, or an exception ended the walk,
    raised by [getEntry] itself when no request had been sent. *)
Inductive Promise : Type :=
| Resolved : Entry -> Promise
| Rejected
| Unsettled
| Threw : Exception -> Promise.

(** [AssistStorageEntry.getEntry(path, type)]: the promise, the root entry
    after the walk and the requests issued.  [apiHelper] gives the fetch
    function of a name, [rootFilePath] is [getRootFilePath] of the
    connector [findBrowserConnector] finds for a type, when there is one.
    The connector found is the [source] of every entry of the tree, and
    its type is the type looked for. *)
Definition getEntry (apiHelper : string -> Backend)
  (localeCompare : string -> string -> Z)
  (replaceRoot : string -> option (string -> string))
  (rootFilePath : string -> option string)
  (path : string) (type : option string)
  : option (Promise * option Entry * Log) :=
  let type := Resolve.entryType path type in
  match rootFilePath type with
  | Some root_path =>
      let rootEntry :=
        construct (mkDefinition root_path "dir") None root_path in
      let folders := Resolve.entryFolders type path in
      let walk :=
        match TYPE_SPECIFICS type with
        | Some specifics =>
            loadDeep (apiHelper (apiHelperFetchFunction specifics))
              localeCompare replaceRoot (S (weight folders)) rootEntry
              folders []
        | None =>
            Some (loadDeep_without_specifics replaceRoot rootEntry
                    folders [])
        end in
      match walk with
      | Some (root', log, Called _ e) => Some (Resolved e, Some root', log)
      | Some (root', log, Never) => Some (Unsettled, Some root', log)
      | Some (root', log, Raised x) => Some (Threw x, Some root', log)
      | None => None
      end
  | None => Some (Rejected, None, [])
  end.

(** ** Vocabulary of the statements *)

(** [new RegExp('^' + p)] does not raise. *)
Definition compiles (replaceRoot : string -> option (string -> string))
  (p : string) : bool :=
  match replaceRoot p with Some _ => true | None => false end.

(** No [rootPath] in the tree of [e] makes the walk raise SyntaxError:
    each is empty or compiles. *)
Fixpoint walkable (replaceRoot : string -> option (string -> string))
  (e : Entry) : bool :=
  match e with
  | mkEntry _ _ r _ _ _ _ l _ _ _ _ _ =>
      (negb (Str.truthy r) || compiles replaceRoot r)
      && forallb (walkable replaceRoot) l
  end.

(** No request is in flight anywhere in the tree of [e]. *)
Fixpoint idle (e : Entry) : bool :=
  match e with
  | mkEntry _ _ _ _ _ _ _ l _ ld lm _ _ =>
      negb ld && negb lm && forallb idle l
  end.

(** The two page operations, for sequences of them on one entry. *)
Inductive Op : Type :=
| DoLoadEntries
| DoFetchMore.

Definition runOp (backend : Backend) (op : Op) (st : Entry * Log)
  : Entry * Log :=
  match op with
  | DoLoadEntries => fst (loadEntries backend (fst st) (snd st))
  | DoFetchMore => fst (fetchMore backend (fst st) (snd st))
  end.

Definition runOps (backend : Backend) (ops : list Op) (st : Entry * Log)
  : Entry * Log :=
  fold_left (fun st op => runOp backend op st) ops st.

(** The names of the children of an entry. *)
Definition childNames (e : Entry) : list string :=
  map (fun c => name (definition c)) (entries e).

(** The names a listing adds to the children. *)
Definition listedNames (data : Listing) : list string :=
  map name (List.filter listed (files data)).

(** A request of [fetchMore]: the one without [rootPath]. *)
Definition is_fetchMore (req : Request) : bool :=
  match req_rootPath req with None => true | Some _ => false end.

(** The children as the answered requests of a log give them: the
    listing of a successful [loadEntries] starts the list again, the
    listing of a successful [fetchMore] is added at its end, and a failed
    request leaves it. *)
Fixpoint pagesOfLog (backend : Backend) (log : Log) : list string :=
  match log with
  | [] => []
  | req :: earlier =>
      match backend earlier req with
      | Success data =>
          if is_fetchMore req
          then (pagesOfLog backend earlier ++ listedNames data)%list
          else listedNames data
      | Failure _ => pagesOfLog backend earlier
      end
  end.

(** The children as the specification words them: the listings of all
    the pages fetched so far, one after the other as they arrived. *)
Fixpoint concatenationOfPages (backend : Backend) (log : Log)
  : list string :=
  match log with
  | [] => []
  | req :: earlier =>
      match backend earlier req with
      | Success data =>
          (concatenationOfPages backend earlier ++ listedNames data)%list
      | Failure _ => concatenationOfPages backend earlier
      end
  end.

(** A name other than ["."] and [".."]. *)
Definition properName (n : string) : bool :=
  negb (String.eqb n ".") && negb (String.eqb n "..").

(** What holds of an entry and the log of its requests after any page
    operations. *)
Definition pages_invariant (backend : Backend) (st : Entry * Log) : Prop :=
  childNames (fst st) = pagesOfLog backend (snd st)
  /\ forallb properName (childNames (fst st)) = true.

(** The string [s] starts with [p], letter case apart. *)
Fixpoint ci_prefix (p s : string) : bool :=
  match p, s with
  | EmptyString, _ => true
  | String a p', String b s' =>
      Ascii.eqb (Str.lower b) (Str.lower a) && ci_prefix p' s'
  | String _ _, EmptyString => false
  end.

(** A string without line terminator. *)
Definition oneline (s : string) : bool :=
  Str.all_chars (fun x => negb (Str.is_line_terminator x)) s.

(** What is left of [s] from its first line terminator on. *)
Fixpoint line_rest (s : string) : string :=
  match s with
  | EmptyString => EmptyString
  | String x s' =>
      if negb (Str.is_line_terminator x) then line_rest s' else s
  end.

(** The replacement of an alias pattern, written out: at the first place
    where [p] starts, letter case apart, [by_] takes the place of the
    rest of the line. *)
Fixpoint cut (p by_ s : string) : string :=
  if ci_prefix p s then by_ ++ line_rest (Str.drop (String.length p) s)
  else
    match s with
    | EmptyString => EmptyString
    | String c s' => String c (cut p by_ s')
    end.

(** ** Hosts and backends to run the model on *)

Module Fixtures.

(** The prefix [p] taken off [s], when [s] starts with it. *)
Fixpoint strip_prefix (p s : string) : option string :=
  match p, s with
  | EmptyString, _ => Some s
  | String a p', String b s' =>
      if Ascii.eqb a b then strip_prefix p' s' else None
  | String _ _, EmptyString => None
  end.

(** The syntax characters of a regular expression. *)
Definition syntax_char (c : ascii) : bool :=
  existsb (Ascii.eqb c)
    (list_ascii_of_string "\^$.*+?()[]{}|").

(** A [rootPath] in which every character stands for itself in [RegExp]. *)
Definition plain (p : string) : bool :=
  Str.all_chars (fun c => negb (syntax_char c)) p.

(** The replacement of the host on plain patterns: the leading occurrence
    of [p] is deleted. *)
Definition literalReplace (p s : string) : string :=
  match strip_prefix p s with
  | Some rest => rest
  | None => s
  end.

(** The expression of a pattern made of characters that stand for
    themselves, of [.], and of the quantifiers [*], [+] and [?] after one
    of these; [None] for every other pattern. *)
Fixpoint atoms (p : string) : option Re.re :=
  match p with
  | EmptyString => Some Re.Eps
  | String c p' =>
      if syntax_char c && negb (Ascii.eqb c "."%char) then None
      else
        let atom := if Ascii.eqb c "."%char then Re.dot else Re.lit c in
        let quantified (r : Re.re) (rest : string) :=
          option_map (Re.Seq r) (atoms rest) in
        match p' with
        | String q p'' =>
            if Ascii.eqb q "*"%char then quantified (Re.Star atom) p''
            else if Ascii.eqb q "+"%char then quantified (Re.Plus atom) p''
            else if Ascii.eqb q "?"%char then quantified (Re.Opt atom) p''
            else option_map (Re.Seq atom) (atoms p')
        | EmptyString => Some atom
        end
  end.

(** The host on the patterns the statements are run on.  A plain pattern
    deletes its leading occurrence; a pattern of [atoms] is run by the
    matcher behind [^]; and [new RegExp] raises SyntaxError on the others
    that are used, which have a parenthesis that is not closed. *)
Definition hostRegExp (p : string) : option (string -> string) :=
  if plain p then Some (literalReplace p)
  else
    match atoms p with
    | Some r => Some (Re.replace (Re.Seq Re.Bol r) "")
    | None => None
    end.

(** Comparison by code units, a collation that agrees with the order of
    names made of digits and lower case letters of one length. *)
Fixpoint codeUnitCompare (a b : string) : Z :=
  match a, b with
  | EmptyString, EmptyString => 0
  | EmptyString, String _ _ => -1
  | String _ _, EmptyString => 1
  | String x a', String y b' =>
      if Ascii.eqb x y then codeUnitCompare a' b'
      else if nat_of_ascii x <? nat_of_ascii y then -1 else 1
  end.

(** A backend that lists the directories [names] by pages of the
    requested size, whatever the path. *)
Definition listingBackend (names : list string) : Backend :=
  fun _ req =>
    let size := req_pageSize req in
    let page := Z.to_nat (req_page req) in
    Success
      (mkListing
         (map (fun n => mkDefinition n "dir")
              (firstn size (skipn ((page - 1) * size) names)))
         (if page * size <? List.length names
          then (req_page req + 1)%Z else req_page req)
         None).

(** A backend that answers the [n]-th request with the [n]-th answer of a
    script and with [fallback] after the script. *)
Definition scripted (answers : list Response) (fallback : Response)
  : Backend :=
  fun log _ => nth (List.length log) answers fallback.

(** A backend of empty pages that always announces one more page. *)
Definition endless : Backend :=
  fun _ req => Success (mkListing [] (req_page req + 1)%Z None).

(** A listing of directories with the given names. *)
Definition page (names : list string) (next : Z) (denied : option string)
  : Response :=
  Success (mkListing (map (fun n => mkDefinition n "dir") names) next denied).

(** Three pages and then a page whose listing was not allowed. *)
Definition threePagesThenDenied : Backend :=
  scripted
    [page ["a"; "."] 2 None; page ["b"] 3 None; page ["c"; ".."] 4 None]
    (page [] 4 (Some "Listing not allowed")).

(** Two answers to the first page. *)
Definition firstPageTwice : Backend :=
  scripted [page ["a"] 2 None] (page ["b"] 2 None).

(** A first page and then failures. *)
Definition failing : Backend :=
  scripted [page ["a"] 2 None] (Failure "Gateway timeout").

(** A failure of the first request and then the page of [x]. *)
Definition failingFirst : Backend :=
  scripted [Failure "Gateway timeout"] (page ["x"] 2 None).

(** The names ["e000"] to ["e119"]. *)
Definition digit (n : nat) : ascii := ascii_of_nat (48 + n).

Definition entryName (n : nat) : string :=
  String "e" (String (digit (n / 100))
    (String (digit ((n / 10) mod 10)) (String (digit (n mod 10)) ""))).

Definition names120 : list string := map entryName (seq 0 120).

(** No connector but the one of type [type], whose root is [root]. *)
Definition oneConnector (type root : string) : string -> option string :=
  fun t => if String.eqb t type then Some root else None.

(** A new entry without parent. *)
Definition root (root_path : string) : Entry :=
  construct (mkDefinition root_path "dir") None root_path.

End Fixtures.

(** Pairwise order and distinctness of a list of names, as tests. *)
Fixpoint sortedb (cmp : string -> string -> Z) (l : list string) : bool :=
  match l with
  | [] => true
  | a :: l' => forallb (fun b => (cmp a b <=? 0)%Z) l' && sortedb cmp l'
  end.

Fixpoint distinctb (l : list string) : bool :=
  match l with
  | [] => true
  | a :: l' => negb (existsb (String.eqb a) l') && distinctb l'
  end.


(** ** More of the constructor and of the path handling *)

(** The pattern of [abfsPath] in the constructor:  ^ \/ *)
Definition leading_slash_re : Re.re := Re.Seq Re.Bol (Re.lit "/").

(** [self.abfsPath], which the constructor derives from [path]. *)
Definition abfsPath (self : Entry) : string :=
  (if Re.test leading_slash_re (path self) then "abfs:/" else "abfs://")
  ++ path self.

(** [self.hasEntries()] *)
Definition hasEntries (self : Entry) : bool :=
  0 <? List.length (entries self).

(** The string ends with ["/"]. *)
Fixpoint ends_with_slash (s : string) : bool :=
  match s with
  | EmptyString => false
  | String c EmptyString => Ascii.eqb c Str.slash
  | String _ s' => ends_with_slash s'
  end.

(** The string without its last character when that is ["/"]. *)
Fixpoint drop_trailing_slash (s : string) : string :=
  match s with
  | EmptyString => EmptyString
  | String c EmptyString =>
      if Ascii.eqb c Str.slash then EmptyString else s
  | String c s' => String c (drop_trailing_slash s')
  end.

(** The string without one ["/"] at its start and, in what is left,
    without one ["/"] at its end. *)
Definition trim_edges (s : string) : string :=
  match s with
  | String c s' =>
      if Ascii.eqb c Str.slash then drop_trailing_slash s'
      else drop_trailing_slash s
  | EmptyString => EmptyString
  end.

(** The first line of a string: what comes before its first line
    terminator. *)
Fixpoint line_head (s : string) : string :=
  match s with
  | EmptyString => EmptyString
  | String x s' =>
      if negb (Str.is_line_terminator x) then String x (line_head s')
      else EmptyString
  end.

(** A string without ["/"]. *)
Definition slashless (s : string) : bool :=
  Str.all_chars (fun c => negb (Ascii.eqb c Str.slash)) s.

(** ** Vocabulary of the walk through a tree *)

(** The entry reached from [e] through the children of the names
    [trail], each of them the only child of its name. *)
Fixpoint locate (e : Entry) (trail : list string) : option Entry :=
  match trail with
  | [] => Some e
  | n :: rest =>
      match List.filter (named n) (entries e) with
      | [c] => locate c rest
      | _ => None
      end
  end.

(** Every child in the tree of [e] refers to its parent and has the
    [rootPath] of its parent, as the children the page operations build
    do. *)
Inductive Linked : Entry -> Prop :=
| linked : forall e,
    (forall c, In c (entries e) -> parent c = Some (parent_of e)) ->
    (forall c, In c (entries e) -> rootPath c = rootPath e) ->
    (forall c, In c (entries e) -> Linked c) ->
    Linked e.

(** The names of a trail that count in a hierarchy: the ones that are
    not empty. *)
Definition named_parts (trail : list string) : list string :=
  List.filter Str.truthy trail.

(** Two states of one entry: the fields no page operation writes are
    the same in both. *)
Definition same_identity (a b : Entry) : Prop :=
  definition a = definition b /\ parent a = parent b
  /\ rootPath a = rootPath b /\ path a = path b /\ filter_ a = filter_ b.

(** The requests of [fetchMore] for the [k] pages after the current page
    of [self], the first of them first. *)
Definition pagesAsked (self : Entry) (k : nat) : list Request :=
  map (fun i =>
         mkRequest PAGE_SIZE (currentPage self + Z.of_nat i)%Z
           (filter_option self) (getHierarchy self) None)
      (seq 1 k).

(** ** The subscribers of [filter] and [open], and [loadPreview] *)

Definition set_filter (text : string) (e : Entry) : Entry :=
  mkEntry (definition e) (parent e) (rootPath e) (path e) (currentPage e)
    (hasMorePages e) text (entries e) (loaded e) (loading e)
    (loadingMore e) (errorText e) (hasErrors e).

(** The subscriber of [self.filter], run on the entry that holds the new
    text: the first page again. *)
Definition filterChanged (backend : Backend) (self : Entry) (log : Log)
  : Entry * Log * Signal :=
  loadEntries backend (set_hasMorePages true (set_currentPage 1%Z self)) log.

(** The options of [fetchStoragePreview] an entry decides: [path] and
    [silenceErrors].  Its [type] is the type of the connector, the same
    for every entry of a tree. *)
Record PreviewRequest : Type := mkPreviewRequest {
  preview_path : list string;
  preview_silenceErrors : bool
}.

(** What a preview request is answered with: [done(data)] or
    [fail(errorText)]. *)
Inductive PreviewResponse : Type :=
| PreviewDone : string -> PreviewResponse
| PreviewFail : string -> PreviewResponse.

(** [self.loadPreview()]: the entry after it, the value written to
    [self.preview] if any, and the request sent. *)
Definition loadPreview (previews : PreviewRequest -> PreviewResponse)
  (self : Entry) : Entry * option string * PreviewRequest :=
  let self := set_loading true self in
  let req := mkPreviewRequest (getHierarchy self) true in
  match previews req with
  | PreviewDone data => (set_loading false self, Some data, req)
  | PreviewFail text =>
      let self := set_hasErrors true self in
      let self := set_errorText (Some text) self in
      (set_loading false self, None, req)
  end.

(** The subscriber of [self.open], for the new value of the observable:
    the entry and the log after it, the preview requests sent and the
    value written to [self.preview] if any. *)
Definition openChanged (backend : Backend)
  (previews : PreviewRequest -> PreviewResponse) (newValue : bool)
  (self : Entry) (log : Log)
  : Entry * Log * list PreviewRequest * option string :=
  if newValue && (List.length (entries self) =? 0) then
    if String.eqb (type (definition self)) "dir" then
      let '(self', log', _) := loadEntries backend self log in
      (self', log', [], None)
    else
      let '(self', written, req) := loadPreview previews self in
      (self', log, [req], written)
  else (self, log, [], None).


(** The number of [fetchMore] requests of a log. *)
Definition fetchMoreCount (log : Log) : nat :=
  List.length (List.filter is_fetchMore log).

(** Every request of the log asks 100 entries of the path [parts],
    without filter, and the page one more than the number of [fetchMore]
    requests sent so far, itself included. *)
Fixpoint pages_counted (parts : list string) (log : Log) : Prop :=
  match log with
  | [] => True
  | req :: earlier =>
      req_pageSize req = 100 /\ req_filter req = None
      /\ req_pathParts req = parts
      /\ req_page req = (1 + Z.of_nat (fetchMoreCount (req :: earlier)))%Z
      /\ pages_counted parts earlier
  end.


(** * Facts *)

(** ** Page loading *)

Section LoadingFacts.

Variable backend : Backend.

Lemma fetchMore_guarded (self : Entry) (log : Log) :
  negb (hasMorePages self) || loadingMore self = true ->
  fetchMore backend self log = (self, log, NoCall).
Proof.
  intros H. unfold fetchMore. rewrite H. reflexivity.
Qed.

Lemma fetchMore_request (self : Entry) :
  pageRequest false
    (set_hasErrors false
       (set_loadingMore true
          (set_currentPage (currentPage self + 1)%Z self)))
  = moreRequest self.
Proof. destruct self; reflexivity. Qed.

Lemma loadEntries_request (self : Entry) :
  pageRequest true (set_hasErrors false (set_loading true self))
  = pageRequest true self.
Proof. destruct self; reflexivity. Qed.

(** The three ways [fetchMore] can go. *)
Lemma fetchMore_cases (self : Entry) (log : Log) :
  let '(self', log', signal) := fetchMore backend self log in
  match signal with
  | NoCall =>
      negb (hasMorePages self) || loadingMore self = true
      /\ self' = self /\ log' = log
  | OnSuccess =>
      hasMorePages self = true /\ loadingMore self = false
      /\ log' = moreRequest self :: log
      /\ exists data,
           backend log (moreRequest self) = Success data
           /\ entries self' = (entries self ++ children_of self' data)%list
           /\ childNames self' = (childNames self ++ listedNames data)%list
           /\ loadingMore self' = false
           /\ loading self' = loading self
           /\ hasErrors self' = false
           /\ errorText self' = errorText self
           /\ rootPath self' = rootPath self
           /\ hasMorePages self'
              = (currentPage self + 1 <? next_page_number data)%Z
           /\ currentPage self' = (currentPage self + 1)%Z
           /\ loaded self' = loaded self
           /\ definition self' = definition self
           /\ parent self' = parent self
  | OnError =>
      hasMorePages self = true /\ loadingMore self = false
      /\ log' = moreRequest self :: log
      /\ (exists text, backend log (moreRequest self) = Failure text)
      /\ entries self' = entries self
      /\ loadingMore self' = true
      /\ hasErrors self' = true
      /\ errorText self' = errorText self
      /\ hasMorePages self' = true
      /\ definition self' = definition self
      /\ parent self' = parent self
  end.
Proof.
  unfold fetchMore.
  destruct (negb (hasMorePages self) || loadingMore self) eqn:G.
  - auto.
  - apply orb_false_elim in G. destruct G as [G1 G2].
    apply negb_false_iff in G1.
    rewrite fetchMore_request.
    destruct (backend log (moreRequest self)) as [data | text] eqn:B.
    + repeat split; auto. exists data. 
      destruct self; cbn in *. repeat split; auto.
      unfold childNames, children_of, listedNames; cbn.
      rewrite map_app, map_map. reflexivity.
    + destruct self; cbn in *. repeat split; eauto.
Qed.

(** The three ways [loadEntries] can go. *)
Lemma loadEntries_cases (self : Entry) (log : Log) :
  let '(self', log', signal) := loadEntries backend self log in
  match signal with
  | NoCall => loading self = true /\ self' = self /\ log' = log
  | OnSuccess =>
      loading self = false
      /\ log' = pageRequest true self :: log
      /\ exists data,
           backend log (pageRequest true self) = Success data
           /\ entries self' = children_of self' data
           /\ childNames self' = listedNames data
           /\ loading self' = false
           /\ loadingMore self' = loadingMore self
           /\ loaded self' = true
           /\ hasErrors self' = soft_error data
           /\ errorText self' = s3_listing_not_allowed data
           /\ rootPath self' = rootPath self
           /\ hasMorePages self'
              = (currentPage self <? next_page_number data)%Z
           /\ currentPage self' = currentPage self
           /\ definition self' = definition self
           /\ parent self' = parent self
  | OnError =>
      loading self = false
      /\ log' = pageRequest true self :: log
      /\ exists text,
           backend log (pageRequest true self) = Failure text
           /\ entries self' = entries self
           /\ loading self' = false
           /\ loadingMore self' = loadingMore self
           /\ loaded self' = loaded self
           /\ hasErrors self' = true
           /\ errorText self' = Some text
           /\ rootPath self' = rootPath self
           /\ definition self' = definition self
           /\ parent self' = parent self
  end.
Proof.
  unfold loadEntries.
  destruct (loading self) eqn:G.
  - auto.
  - rewrite loadEntries_request.
    destruct (backend log (pageRequest true self)) as [data | text] eqn:B.
    + repeat split; auto. exists data.
      destruct self; cbn in *. repeat split; auto.
      unfold childNames, children_of, listedNames; cbn.
      rewrite map_map. reflexivity.
    + repeat split; auto. exists text.
      destruct self; cbn in *. repeat split; auto.
Qed.

End LoadingFacts.

(** ** Sequences of page operations *)

Section OperationFacts.

Variable backend : Backend.

Lemma runOps_cons (op : Op) (ops : list Op) (st : Entry * Log) :
  runOps backend (op :: ops) st = runOps backend ops (runOp backend op st).
Proof. reflexivity. Qed.

(** Neither operation clears a raised [loadingMore]. *)
Lemma runOp_keeps_loadingMore (op : Op) (st : Entry * Log) :
  loadingMore (fst st) = true ->
  loadingMore (fst (runOp backend op st)) = true.
Proof.
  destruct st as [self log]; cbn [fst snd]. intros H.
  destruct op; cbn [runOp fst snd].
  - pose proof (loadEntries_cases backend self log) as C.
    destruct (loadEntries backend self log) as [[self' log'] sg].
    cbn [fst]. destruct sg.
    + destruct C as (_ & _ & data & _ & _ & _ & _ & E & _). congruence.
    + destruct C as (_ & _ & text & _ & _ & _ & E & _). congruence.
    + destruct C as (_ & -> & _). assumption.
  - rewrite fetchMore_guarded; [assumption|].
    rewrite H. apply orb_true_r.
Qed.

Lemma runOps_keep_loadingMore (ops : list Op) (st : Entry * Log) :
  loadingMore (fst st) = true ->
  loadingMore (fst (runOps backend ops st)) = true.
Proof.
  revert st. induction ops as [|op ops IH]; intros st H.
  - assumption.
  - rewrite runOps_cons. apply IH. now apply runOp_keeps_loadingMore.
Qed.

End OperationFacts.

(** C10: once a request of [fetchMore] has failed, [loadingMore] is set,
    [hasErrors] is set and [errorText] is what it was; whatever page
    operations follow, against whatever backend, [loadingMore] stays set,
    so every later [fetchMore] returns at once: it sends no request, changes
    nothing and runs neither callback.  The search of a walk at this entry
    therefore sends no request either. *)
Theorem fetchMore_failure_blocks_paging
  (backend : Backend) (self : Entry) (log : Log) (self' : Entry)
  (log' : Log) :
  fetchMore backend self log = (self', log', OnError) ->
  loadingMore self' = true
  /\ hasErrors self' = true
  /\ errorText self' = errorText self
  /\ (forall (later : Backend) (ops : list Op) (log0 : Log),
        let st := runOps later ops (self', log0) in
        loadingMore (fst st) = true
        /\ fetchMore later (fst st) (snd st) = (fst st, snd st, NoCall))
  /\ (forall (later : Backend) (ops : list Op) (log0 : Log)
             (localeCompare : string -> string -> Z)
             (gas : nat) (nextName : string) (loadedPages : nat)
             (e : Entry) (l : Log) (v : Verdict),
        let st := runOps later ops (self', log0) in
        findNextAndLoadDeep later localeCompare gas nextName loadedPages
          (fst st) (snd st) = Some (e, l, v) ->
        e = fst st /\ l = snd st).
Proof.
  intros F.
  pose proof (fetchMore_cases backend self log) as C. rewrite F in C.
  destruct C as (_ & _ & _ & _ & _ & LM & HE & ET & _ & _).
  repeat split; auto.
  - now apply runOps_keep_loadingMore.
  - apply fetchMore_guarded.
    rewrite runOps_keep_loadingMore by assumption. apply orb_true_r.
  - pose proof (runOps_keep_loadingMore later ops (self', log0) LM) as K.
    destruct gas as [|gas]; [discriminate|]. cbn [findNextAndLoadDeep] in H.
    rewrite (fetchMore_guarded later) in H
      by (rewrite K; apply orb_true_r).
    destruct (List.filter _ _) as [|c [|c' t]];
      try destruct (_ && _ && _); congruence.
  - pose proof (runOps_keep_loadingMore later ops (self', log0) LM) as K.
    destruct gas as [|gas]; [discriminate|]. cbn [findNextAndLoadDeep] in H.
    rewrite (fetchMore_guarded later) in H
      by (rewrite K; apply orb_true_r).
    destruct (List.filter _ _) as [|c [|c' t]];
      try destruct (_ && _ && _); congruence.
Qed.

(** The witness of [fetchMore_failure_blocks_paging]: the second page of a
    new entry fails. *)
Lemma fetchMore_failure_blocks_paging_witness :
  let self := Fixtures.root "" in
  let after := set_hasErrors true
                 (set_hasErrors false
                    (set_loadingMore true (set_currentPage 2%Z self))) in
  fetchMore (Fixtures.scripted [] (Failure "Gateway timeout")) self []
  = (after, [moreRequest self], OnError)
  /\ loadingMore after = true
  /\ hasErrors after = true
  /\ errorText after = errorText self.
Proof.
  cbv zeta. split; [reflexivity|].
  pose proof (fetchMore_failure_blocks_paging
                (Fixtures.scripted [] (Failure "Gateway timeout"))
                (Fixtures.root "") [] _ _ eq_refl) as H.
  destruct H as (H1 & H2 & H3 & _). auto.
Defined.

(** ** Soft listing errors *)

(** C2, as stated, fails: after three successful pages a fourth page whose
    listing was not allowed is taken by [fetchMore] without the error flag
    and without a message; taken by [loadEntries] it raises the flag and
    the children loaded before are replaced by its own, here none. *)
Lemma soft_error_after_three_pages_counterexample :
  let backend := Fixtures.threePagesThenDenied in
  let st := runOps backend [DoLoadEntries; DoFetchMore; DoFetchMore]
              (Fixtures.root "", []) in
  let more := fst (fst (fetchMore backend (fst st) (snd st))) in
  let again := fst (fst (loadEntries backend (fst st) (snd st))) in
  childNames (fst st) = ["a"; "b"; "c"]
  /\ backend (snd st) (moreRequest (fst st))
     = Fixtures.page [] 4 (Some "Listing not allowed")
  /\ ~ (hasErrors more = true)
  /\ errorText more = None
  /\ hasErrors again = true
  /\ ~ (childNames again = childNames (fst st)).
Proof.
  cbv zeta. repeat split; try reflexivity; vm_compute; discriminate.
Qed.

(** C2, amended: a listing that was not allowed, answered to
    [loadEntries], raises the error flag with the message of the listing,
    and the children become the listed files of that answer; [fetchMore]
    never removes or replaces a child, whatever it is answered: the
    children after it are the children before it followed by what it
    added, and they are the same when the answer lists no file. *)
Theorem soft_error_keeps_fetched_children
  (backend : Backend) (self : Entry) (log : Log) :
  (forall data : Listing,
     loading self = false ->
     backend log (pageRequest true self) = Success data ->
     soft_error data = true ->
     let self' := fst (fst (loadEntries backend self log)) in
     hasErrors self' = true
     /\ errorText self' = s3_listing_not_allowed data
     /\ childNames self' = listedNames data)
  /\ (exists added : list Entry,
        entries (fst (fst (fetchMore backend self log)))
        = (entries self ++ added)%list)
  /\ (forall data : Listing,
        backend log (moreRequest self) = Success data ->
        listedNames data = [] ->
        entries (fst (fst (fetchMore backend self log))) = entries self).
Proof.
  split; [|split].
  - intros data L B S. cbv zeta.
    pose proof (loadEntries_cases backend self log) as C.
    destruct (loadEntries backend self log) as [[self' log'] sg].
    cbn [fst]. destruct sg.
    + destruct C as (_ & _ & d & B' & _ & N & _ & _ & _ & HE & ET & _).
      rewrite B in B'. injection B' as <-. rewrite HE, ET, N. auto.
    + destruct C as (_ & _ & t & B' & _). congruence.
    + destruct C as (L' & _). congruence.
  - pose proof (fetchMore_cases backend self log) as C.
    destruct (fetchMore backend self log) as [[self' log'] sg].
    cbn [fst]. destruct sg.
    + destruct C as (_ & _ & _ & d & _ & E & _). eauto.
    + destruct C as (_ & _ & _ & _ & E & _). exists []. now rewrite app_nil_r.
    + destruct C as (_ & -> & _). exists []. now rewrite app_nil_r.
  - intros data B N.
    pose proof (fetchMore_cases backend self log) as C.
    destruct (fetchMore backend self log) as [[self' log'] sg].
    cbn [fst]. destruct sg.
    + destruct C as (_ & _ & _ & d & B' & E & _).
      rewrite B in B'. injection B' as <-. rewrite E.
      unfold children_of. unfold listedNames in N.
      apply map_eq_nil in N. rewrite N. cbn. apply app_nil_r.
    + destruct C as (_ & _ & _ & _ & E & _). assumption.
    + destruct C as (_ & -> & _). reflexivity.
Qed.

(** The witness of [soft_error_keeps_fetched_children]: the fourth page
    after three, not allowed, asked for again by [loadEntries] and asked
    for by [fetchMore]. *)
Lemma soft_error_keeps_fetched_children_witness :
  let backend := Fixtures.threePagesThenDenied in
  let st := runOps backend [DoLoadEntries; DoFetchMore; DoFetchMore]
              (Fixtures.root "", []) in
  let denied := mkListing [] 4 (Some "Listing not allowed") in
  (loading (fst st) = false
   /\ backend (snd st) (pageRequest true (fst st)) = Success denied
   /\ soft_error denied = true
   /\ hasErrors (fst (fst (loadEntries backend (fst st) (snd st)))) = true)
  /\ (backend (snd st) (moreRequest (fst st)) = Success denied
      /\ listedNames denied = []
      /\ entries (fst (fst (fetchMore backend (fst st) (snd st))))
         = entries (fst st)).
Proof.
  cbv zeta. split.
  - split; [reflexivity|]. split; [reflexivity|]. split; [reflexivity|].
    refine (proj1 (proj1 (soft_error_keeps_fetched_children
                            Fixtures.threePagesThenDenied _ _) _ _ _ _));
      reflexivity.
  - split; [reflexivity|]. split; [reflexivity|].
    refine (proj2 (proj2 (soft_error_keeps_fetched_children
                            Fixtures.threePagesThenDenied _ _)) _ _ _);
      reflexivity.
Defined.

(** ** The children and the pages *)

Section ChildrenFacts.

Variable backend : Backend.

Lemma listedNames_proper (data : Listing) :
  forallb properName (listedNames data) = true.
Proof.
  unfold listedNames. induction (files data) as [|f l IH]; [reflexivity|].
  cbn [List.filter]. destruct (listed f) eqn:L; [|assumption].
  cbn [map forallb]. rewrite IH. unfold listed in L. unfold properName.
  rewrite L. reflexivity.
Qed.

Lemma is_fetchMore_moreRequest (self : Entry) :
  is_fetchMore (moreRequest self) = true.
Proof. reflexivity. Qed.

Lemma is_fetchMore_pageRequest (self : Entry) :
  is_fetchMore (pageRequest true self) = false.
Proof. reflexivity. Qed.

Lemma runOp_pages_invariant (op : Op) (st : Entry * Log) :
  pages_invariant backend st ->
  pages_invariant backend (runOp backend op st).
Proof.
  destruct st as [self log]. unfold pages_invariant. cbn [fst snd].
  intros [I1 I2]. destruct op; cbn [runOp fst snd].
  - pose proof (loadEntries_cases backend self log) as C.
    destruct (loadEntries backend self log) as [[self' log'] sg].
    cbn [fst snd]. destruct sg.
    + destruct C as (_ & -> & data & B & _ & N & _).
      cbn [pagesOfLog]. rewrite B, is_fetchMore_pageRequest, N.
      split; [reflexivity | apply listedNames_proper].
    + destruct C as (_ & -> & text & B & E & _).
      cbn [pagesOfLog]. rewrite B. unfold childNames in *. rewrite E. auto.
    + destruct C as (_ & -> & ->). auto.
  - pose proof (fetchMore_cases backend self log) as C.
    destruct (fetchMore backend self log) as [[self' log'] sg].
    cbn [fst snd]. destruct sg.
    + destruct C as (_ & _ & -> & data & B & _ & N & _).
      cbn [pagesOfLog]. rewrite B, is_fetchMore_moreRequest, N, I1.
      split; [reflexivity|]. rewrite forallb_app, <- I1, I2.
      apply listedNames_proper.
    + destruct C as (_ & _ & -> & [text B] & E & _).
      cbn [pagesOfLog]. rewrite B. unfold childNames in *. rewrite E. auto.
    + destruct C as (_ & -> & ->). auto.
Qed.

Lemma runOps_pages_invariant (ops : list Op) (st : Entry * Log) :
  pages_invariant backend st ->
  pages_invariant backend (runOps backend ops st).
Proof.
  revert st. induction ops as [|op ops IH]; intros st I; [assumption|].
  rewrite runOps_cons. apply IH. now apply runOp_pages_invariant.
Qed.

End ChildrenFacts.

(** C8, as stated, fails: the children are not the pages fetched so far
    one after the other once [loadEntries] has succeeded twice.  The
    second listing takes the place of the first. *)
Lemma children_not_all_pages_counterexample :
  let backend := Fixtures.firstPageTwice in
  let st := runOps backend [DoLoadEntries; DoLoadEntries]
              (Fixtures.root "", []) in
  concatenationOfPages backend (snd st) = ["a"; "b"]
  /\ childNames (fst st) = ["b"]
  /\ childNames (fst st) <> concatenationOfPages backend (snd st).
Proof.
  cbv zeta. repeat split; try reflexivity. vm_compute. discriminate.
Qed.

(** C8, amended: after any sequence of [loadEntries] and [fetchMore] on a
    new entry no child is named ["."] or [".."]; a [fetchMore] that
    succeeds keeps the children and puts the listed files of its page
    after them; and the children are, in the order of arrival, the pages
    fetched since the latest [loadEntries] that succeeded, that page
    included, because [loadEntries] replaces the list. *)
Theorem children_are_pages_since_last_load
  (backend : Backend) (d : FileDefinition) (p : option Entry)
  (root_path : string) (ops : list Op) :
  let st := runOps backend ops (construct d p root_path, []) in
  forallb properName (childNames (fst st)) = true
  /\ childNames (fst st) = pagesOfLog backend (snd st)
  /\ (forall self' log',
        fetchMore backend (fst st) (snd st) = (self', log', OnSuccess) ->
        exists data,
          backend (snd st) (moreRequest (fst st)) = Success data
          /\ entries self' = (entries (fst st) ++ children_of self' data)%list
          /\ childNames self'
             = (childNames (fst st) ++ listedNames data)%list).
Proof.
  cbv zeta.
  pose proof (runOps_pages_invariant backend ops
                (construct d p root_path, [])) as I.
  destruct I as [I1 I2]; [split; reflexivity|].
  split; [assumption|]. split; [assumption|].
  intros self' log' F.
  pose proof (fetchMore_cases backend
                (fst (runOps backend ops (construct d p root_path, [])))
                (snd (runOps backend ops (construct d p root_path, []))))
    as C.
  rewrite F in C. destruct C as (_ & _ & _ & data & B & E & N & _).
  exists data. auto.
Qed.

(** The witness of [children_are_pages_since_last_load]: the second page
    after the first. *)
Lemma children_are_pages_since_last_load_witness :
  let backend := Fixtures.threePagesThenDenied in
  let st := runOps backend [DoLoadEntries]
              (construct (mkDefinition "" "dir") None "", []) in
  let self' := fst (fst (fetchMore backend (fst st) (snd st))) in
  let log' := snd (fst (fetchMore backend (fst st) (snd st))) in
  fetchMore backend (fst st) (snd st) = (self', log', OnSuccess)
  /\ exists data,
       backend (snd st) (moreRequest (fst st)) = Success data
       /\ entries self' = (entries (fst st) ++ children_of self' data)%list
       /\ childNames self' = (childNames (fst st) ++ listedNames data)%list.
Proof.
  cbv zeta.
  assert (fetchMore Fixtures.threePagesThenDenied
            (fst (runOps Fixtures.threePagesThenDenied [DoLoadEntries]
                    (construct (mkDefinition "" "dir") None "", [])))
            (snd (runOps Fixtures.threePagesThenDenied [DoLoadEntries]
                    (construct (mkDefinition "" "dir") None "", [])))
          = (fst (fst (fetchMore Fixtures.threePagesThenDenied
                         (fst (runOps Fixtures.threePagesThenDenied
                                 [DoLoadEntries]
                                 (construct (mkDefinition "" "dir") None "",
                                  [])))
                         (snd (runOps Fixtures.threePagesThenDenied
                                 [DoLoadEntries]
                                 (construct (mkDefinition "" "dir") None "",
                                  []))))),
             snd (fst (fetchMore Fixtures.threePagesThenDenied
                         (fst (runOps Fixtures.threePagesThenDenied
                                 [DoLoadEntries]
                                 (construct (mkDefinition "" "dir") None "",
                                  [])))
                         (snd (runOps Fixtures.threePagesThenDenied
                                 [DoLoadEntries]
                                 (construct (mkDefinition "" "dir") None "",
                                  []))))),
             OnSuccess)) as F by (vm_compute; reflexivity).
  split; [exact F|].
  exact (proj2 (proj2 (children_are_pages_since_last_load
                         Fixtures.threePagesThenDenied
                         (mkDefinition "" "dir") None ""
                         [DoLoadEntries])) _ _ F).
Defined.

(** ** The search at one entry *)

Section SearchFacts.

Variable backend : Backend.
Variable localeCompare : string -> string -> Z.

(** One round of [findNextAndLoadDeep]. *)
Lemma findNextAndLoadDeep_round (gas : nat) (nextName : string)
  (loadedPages : nat) (self : Entry) (log : Log) :
  findNextAndLoadDeep backend localeCompare (S gas) nextName loadedPages
    self log
  = match List.filter (named nextName) (entries self) with
    | [child] => Some (self, log, Found child)
    | _ =>
        if negb
             match last_entry (entries self) with
             | Some e => (0 <? localeCompare (name (definition e)) nextName)%Z
             | None => false
             end
           && hasMorePages self && (loadedPages <? 50)
        then
          match fetchMore backend self log with
          | (self', log', OnSuccess) =>
              findNextAndLoadDeep backend localeCompare gas nextName
                (S loadedPages) self' log'
          | (self', log', OnError) => Some (self', log', GiveUp)
          | (self', log', NoCall) => Some (self', log', Stall)
          end
        else Some (self, log, GiveUp)
    end.
Proof. reflexivity. Qed.

(** With gas for the rounds that are left, the search ends, and what it
    added to the log are requests of [fetchMore], no more than the counter
    leaves below 50. *)
Lemma findNextAndLoadDeep_bound (gas : nat) :
  forall (nextName : string) (loadedPages : nat) (self : Entry) (log : Log),
    loadedPages <= 50 -> 51 <= gas + loadedPages ->
    exists self' new v,
      findNextAndLoadDeep backend localeCompare gas nextName loadedPages
        self log = Some (self', (new ++ log)%list, v)
      /\ List.length new + loadedPages <= 50
      /\ forallb is_fetchMore new = true.
Proof.
  induction gas as [|gas IH]; intros nextName n self log Hn Hg; [lia|].
  rewrite findNextAndLoadDeep_round.
  assert (stop : forall v : Verdict, exists self' new v',
             Some (self, log, v) = Some (self', (new ++ log)%list, v')
             /\ List.length new + n <= 50
             /\ forallb is_fetchMore new = true).
  { intros v. exists self, [], v. cbn. repeat split; auto. }
  destruct (List.filter (named nextName) (entries self)) as [|c [|c' t]];
    try apply stop.
  all: destruct (_ && _ && (n <? 50)) eqn:G; try apply stop.
  all: apply andb_prop in G; destruct G as [_ G];
    apply Nat.ltb_lt in G.
  all: pose proof (fetchMore_cases backend self log) as C;
    destruct (fetchMore backend self log) as [[self1 log1] sg];
    destruct sg.
  all: try (destruct C as (_ & _ & -> & _);
            first
              [ destruct (IH nextName (S n) self1
                            (moreRequest self :: log))
                  as (self' & new & v & E & L & A); [lia | lia |];
                exists self', (new ++ [moreRequest self])%list, v;
                rewrite <- app_assoc; cbn [app]; rewrite E;
                rewrite length_app, forallb_app, A; cbn;
                repeat split; auto; lia
              | exists self1, [moreRequest self], GiveUp; cbn;
                repeat split; auto; lia ]).
  all: destruct C as (_ & -> & ->); exists self, [], Stall; cbn;
    repeat split; auto; lia.
Qed.

End SearchFacts.

(** C1, as stated, fails: at an entry that is not loaded the walk for one
    name sends the request of the first page and then fifty requests of
    [fetchMore], 51 page requests, before it calls back. *)
Lemma fifty_one_page_requests_counterexample :
  exists self' log e,
    loadDeep Fixtures.endless Fixtures.codeUnitCompare
      Fixtures.hostRegExp 2 (Fixtures.root "") ["x"] []
    = Some (self', log, Called [] e)
    /\ List.length log = 51
    /\ ~ (List.length log <= 50).
Proof.
  eexists. eexists. eexists. split; [vm_compute; reflexivity|].
  split; [reflexivity | cbn; lia].
Qed.

(** C1, amended: for every name, every entry and every backend the search
    of the walk at one entry ends, having sent at most 50 requests of
    [fetchMore] and, before them, the request of the first page when the
    entry was not loaded: at most 51 page requests, and at most 50 at a
    loaded entry.  The counter gates the requests: started at
    [loadedPages], at most 50 of them, the rounds send no more than
    [50 - loadedPages] requests. *)
Theorem search_sends_at_most_fifty_fetchMore
  (backend : Backend) (localeCompare : string -> string -> Z)
  (nextName : string) (self : Entry) (log : Log) :
  (exists self' new v,
     loadAndFind backend localeCompare nextName self log
     = Some (self', (new ++ log)%list, v)
     /\ List.length (List.filter is_fetchMore new) <= 50
     /\ List.length new <= 51
     /\ (loaded self = true -> List.length new <= 50))
  /\ (forall loadedPages, loadedPages <= 50 ->
      exists self' new v,
        findNextAndLoadDeep backend localeCompare 51 nextName loadedPages
          self log = Some (self', (new ++ log)%list, v)
        /\ List.length new <= 50 - loadedPages).
Proof.
  split.
  - unfold loadAndFind. destruct (loaded self) eqn:L; cbn [negb].
    + destruct (findNextAndLoadDeep_bound backend localeCompare 51
                  nextName 0 self log) as (self' & new & v & E & B & A);
        [lia | lia |].
      exists self', new, v. rewrite E. repeat split; auto; try lia.
      pose proof (filter_length_le is_fetchMore new). lia.
    + pose proof (loadEntries_cases backend self log) as C.
      destruct (loadEntries backend self log) as [[self1 log1] sg].
      assert (go : log1 = pageRequest true self :: log ->
                   exists self' new v,
                     findNextAndLoadDeep backend localeCompare 51 nextName
                       0 self1 log1 = Some (self', (new ++ log)%list, v)
                     /\ List.length (List.filter is_fetchMore new) <= 50
                     /\ List.length new <= 51
                     /\ (false = true -> List.length new <= 50)).
      { intros ->.
        destruct (findNextAndLoadDeep_bound backend localeCompare 51
                    nextName 0 self1 (pageRequest true self :: log))
          as (self' & new & v & E & B & A); [lia | lia |].
        exists self', (new ++ [pageRequest true self])%list, v.
        rewrite <- app_assoc. cbn [app]. rewrite E.
        rewrite filter_app, !length_app. cbn.
        pose proof (filter_length_le is_fetchMore new).
        repeat split; auto; try lia; try discriminate. }
      destruct sg.
      * destruct C as (_ & C & _). now apply go.
      * destruct C as (_ & C & _). now apply go.
      * destruct C as (_ & -> & ->). exists self, [], Stall. cbn.
        repeat split; auto; try lia.
  - intros n Hn.
    destruct (findNextAndLoadDeep_bound backend localeCompare 51
                nextName n self log) as (self' & new & v & E & B & A);
      [lia | lia |].
    exists self', new, v. split; [assumption | lia].
Qed.

(** ** Strings: separators, [split] and [join] *)

Lemma slashes_app (a b : string) :
  Str.slashes (a ++ b) = Str.slashes a + Str.slashes b.
Proof.
  induction a as [|c a IH]; [reflexivity|].
  cbn. rewrite IH. lia.
Qed.

Lemma split_aux_not_nil (s acc : string) : Str.split_aux acc s <> [].
Proof.
  revert acc. induction s as [|c s IH]; intros acc; cbn; [discriminate|].
  destruct (Ascii.eqb c Str.slash); [discriminate | apply IH].
Qed.

Lemma join_cons (p : string) (rest : list string) :
  rest <> [] ->
  Str.join (p :: rest) = p ++ String Str.slash (Str.join rest).
Proof. destruct rest; [congruence | reflexivity]. Qed.

Lemma slashes_join_split_aux (s acc : string) :
  Str.slashes (Str.join (Str.split_aux acc s))
  = Str.slashes acc + Str.slashes s.
Proof.
  revert acc. induction s as [|c s IH]; intros acc; cbn [Str.split_aux].
  - cbn. lia.
  - cbn [Str.slashes]. destruct (Ascii.eqb c Str.slash) eqn:E.
    + rewrite join_cons by apply split_aux_not_nil.
      rewrite slashes_app. cbn [Str.slashes]. rewrite IH.
      rewrite Ascii.eqb_refl. cbn. lia.
    + rewrite IH, slashes_app. cbn. rewrite E. lia.
Qed.

(** The folders left after a [shift] weigh no more than the separators of
    the joined folders. *)
Lemma weight_tail (n : string) (rest : list string) :
  weight rest <= Str.slashes (Str.join (n :: rest)).
Proof.
  destruct rest as [|r rest]; [cbn; lia|].
  rewrite join_cons by discriminate.
  rewrite slashes_app. cbn [Str.slashes weight].
  rewrite Ascii.eqb_refl. lia.
Qed.

Lemma weight_split_tail (s n : string) (rest : list string) :
  Str.split s = n :: rest -> weight rest <= Str.slashes s.
Proof.
  intros E. pose proof (weight_tail n rest) as W.
  rewrite <- E in W. unfold Str.split in W.
  rewrite slashes_join_split_aux in W. exact W.
Qed.

(** No request in flight, field by field. *)
Lemma idle_fields (e : Entry) :
  idle e = negb (loading e) && negb (loadingMore e) && forallb idle (entries e).
Proof. destruct e; reflexivity. Qed.

Lemma idle_child (e child : Entry) :
  idle e = true -> In child (entries e) -> idle child = true.
Proof.
  rewrite idle_fields. intros H I.
  apply andb_prop in H. destruct H as [_ H].
  rewrite forallb_forall in H. now apply H.
Qed.

Lemma idle_construct (d : FileDefinition) (p : option Entry) (r : string) :
  idle (construct d p r) = true.
Proof. reflexivity. Qed.

Lemma idle_children_of (self : Entry) (data : Listing) :
  forallb idle (children_of self data) = true.
Proof.
  unfold children_of. rewrite forallb_forall. intros c I.
  apply in_map_iff in I. destruct I as (f & <- & _). reflexivity.
Qed.

(** ** The walk ends *)

Section WalkFacts.

Variable backend : Backend.
Variable localeCompare : string -> string -> Z.
Variable replaceRoot : string -> option (string -> string).

(** What the replacement of the host does, whatever the pattern that
    compiles: it takes some part of the string out, or none. *)
Hypothesis replaceRoot_deletes :
  forall p replace s,
    replaceRoot p = Some replace ->
    exists before gone after,
      s = before ++ gone ++ after /\ replace s = before ++ after.

Lemma shift_folders_weight (self : Entry) (first : string)
  (others : list string) (n : string) (rest : list string) :
  shift_folders replaceRoot self first others = Some (n, rest) ->
  weight rest < weight (first :: others).
Proof.
  unfold shift_folders. cbn [weight].
  destruct (Str.truthy (rootPath self)).
  - destruct (replaceRoot (rootPath self)) as [replace|] eqn:R;
      [|discriminate].
    destruct (replaceRoot_deletes (rootPath self) replace
                (Str.join (first :: others)) R)
      as (b & g & a & E1 & E2).
    destruct (Str.split _) as [|n' rest'] eqn:Sp.
    + intros H; injection H as <- <-. cbn. lia.
    + intros H; injection H as <- <-.
      apply weight_split_tail in Sp. rewrite E2 in Sp.
      rewrite E1. rewrite !slashes_app in *. lia.
  - intros H; injection H as <- <-.
    pose proof (weight_tail first others). lia.
Qed.

(** A [rootPath] that is empty or compiles, field by field. *)
Lemma walkable_fields (e : Entry) :
  walkable replaceRoot e
  = (negb (Str.truthy (rootPath e)) || compiles replaceRoot (rootPath e))
    && forallb (walkable replaceRoot) (entries e).
Proof. destruct e; reflexivity. Qed.

Lemma walkable_child (e child : Entry) :
  walkable replaceRoot e = true -> In child (entries e) ->
  walkable replaceRoot child = true.
Proof.
  rewrite walkable_fields. intros H I.
  apply andb_prop in H. destruct H as [_ H].
  rewrite forallb_forall in H. now apply H.
Qed.

Lemma walkable_children_of (self : Entry) (data : Listing) :
  negb (Str.truthy (rootPath self)) || compiles replaceRoot (rootPath self)
  = true ->
  forallb (walkable replaceRoot) (children_of self data) = true.
Proof.
  intros R. unfold children_of. rewrite forallb_forall. intros c I.
  apply in_map_iff in I. destruct I as (f & <- & _).
  rewrite walkable_fields. cbn [construct rootPath entries forallb].
  now rewrite R.
Qed.

(** At an entry whose tree is walkable the statement of [rootPath] does
    not raise. *)
Lemma shift_folders_walkable (self : Entry) (first : string)
  (others : list string) :
  walkable replaceRoot self = true ->
  exists n rest,
    shift_folders replaceRoot self first others = Some (n, rest).
Proof.
  rewrite walkable_fields. intros W.
  apply andb_prop in W. destruct W as [W _].
  unfold shift_folders. unfold compiles in W.
  destruct (Str.truthy (rootPath self)); [|eauto].
  destruct (replaceRoot (rootPath self)) as [replace|]; [|discriminate].
  destruct (Str.split _) as [|n rest]; eauto.
Qed.

(** The page operations keep a tree walkable. *)
Lemma loadEntries_walkable (self : Entry) (log : Log) :
  walkable replaceRoot self = true ->
  walkable replaceRoot (fst (fst (loadEntries backend self log))) = true.
Proof.
  intros W. pose proof W as W'. rewrite walkable_fields in W'.
  apply andb_prop in W'. destruct W' as [W1 W2].
  pose proof (loadEntries_cases backend self log) as C.
  destruct (loadEntries backend self log) as [[self1 log1] sg].
  cbn [fst]. destruct sg.
  - destruct C as (_ & _ & data & _ & E & _ & _ & _ & _ & _ & _ & R & _).
    rewrite walkable_fields, E, R, W1. cbn [andb].
    apply walkable_children_of. now rewrite R.
  - destruct C as (_ & _ & text & _ & E & _ & _ & _ & _ & _ & R & _).
    now rewrite walkable_fields, E, R, W1.
  - destruct C as (_ & -> & _). assumption.
Qed.

Lemma fetchMore_walkable (self : Entry) (log : Log) :
  walkable replaceRoot self = true ->
  forall self' log',
    fetchMore backend self log = (self', log', OnSuccess) ->
    walkable replaceRoot self' = true.
Proof.
  intros W self' log' F. pose proof W as W'. rewrite walkable_fields in W'.
  apply andb_prop in W'. destruct W' as [W1 W2].
  pose proof (fetchMore_cases backend self log) as C. rewrite F in C.
  destruct C as (_ & _ & _ & data & _ & E & _ & _ & _ & _ & _ & R & _).
  rewrite walkable_fields, E, R, W1, forallb_app, W2. cbn [andb].
  apply walkable_children_of. now rewrite R.
Qed.

Lemma findNextAndLoadDeep_walkable (gas : nat) :
  forall (nextName : string) (loadedPages : nat) (self : Entry) (log : Log)
         (self' : Entry) (log' : Log) (child : Entry),
    walkable replaceRoot self = true ->
    findNextAndLoadDeep backend localeCompare gas nextName loadedPages
      self log = Some (self', log', Found child) ->
    walkable replaceRoot child = true.
Proof.
  induction gas as [|gas IH];
    intros nextName n self log self' log' child W H; [discriminate|].
  rewrite findNextAndLoadDeep_round in H.
  assert (more :
    (if negb
          match last_entry (entries self) with
          | Some e => (0 <? localeCompare (name (definition e)) nextName)%Z
          | None => false
          end
        && hasMorePages self && (n <? 50)
     then
       match fetchMore backend self log with
       | (self', log', OnSuccess) =>
           findNextAndLoadDeep backend localeCompare gas nextName
             (S n) self' log'
       | (self', log', OnError) => Some (self', log', GiveUp)
       | (self', log', NoCall) => Some (self', log', Stall)
       end
     else Some (self, log, GiveUp)) = Some (self', log', Found child) ->
    walkable replaceRoot child = true).
  { destruct (_ && _ && (n <? 50)); [|discriminate].
    destruct (fetchMore backend self log) as [[self1 log1] sg] eqn:F.
    destruct sg; try discriminate.
    intros K. apply (IH _ _ _ _ _ _ _ (fetchMore_walkable self log W _ _ F)
                       K). }
  destruct (List.filter (named nextName) (entries self))
    as [|c [|c' t]] eqn:F; try (now apply more).
  injection H as <- <- <-.
  apply (walkable_child self c W).
  assert (In c (List.filter (named nextName) (entries self))) as J
    by (rewrite F; now left).
  apply filter_In in J. tauto.
Qed.

Lemma loadAndFind_walkable (nextName : string) (self : Entry) (log : Log)
  (self' : Entry) (log' : Log) (child : Entry) :
  walkable replaceRoot self = true ->
  loadAndFind backend localeCompare nextName self log
  = Some (self', log', Found child) ->
  walkable replaceRoot child = true.
Proof.
  intros W. unfold loadAndFind.
  destruct (negb (loaded self)).
  - pose proof (loadEntries_walkable self log W) as W1.
    destruct (loadEntries backend self log) as [[self1 log1] sg].
    cbn [fst] in W1.
    destruct sg; try discriminate;
      now apply findNextAndLoadDeep_walkable.
  - now apply findNextAndLoadDeep_walkable.
Qed.

(** At an entry with no request in flight the search does not stall, and
    the child it finds has no request in flight either. *)
Lemma findNextAndLoadDeep_idle (gas : nat) :
  forall (nextName : string) (loadedPages : nat) (self : Entry) (log : Log),
    loadedPages <= 50 -> 51 <= gas + loadedPages ->
    idle self = true ->
    exists self' log' v,
      findNextAndLoadDeep backend localeCompare gas nextName loadedPages
        self log = Some (self', log', v)
      /\ match v with
         | Found child => idle child = true
         | GiveUp => True
         | Stall => False
         end.
Proof.
  induction gas as [|gas IH]; intros nextName n self log Hn Hg I; [lia|].
  rewrite findNextAndLoadDeep_round.
  assert (more :
    exists self' log' v,
      (if negb
            match last_entry (entries self) with
            | Some e => (0 <? localeCompare (name (definition e)) nextName)%Z
            | None => false
            end
          && hasMorePages self && (n <? 50)
       then
         match fetchMore backend self log with
         | (self', log', OnSuccess) =>
             findNextAndLoadDeep backend localeCompare gas nextName
               (S n) self' log'
         | (self', log', OnError) => Some (self', log', GiveUp)
         | (self', log', NoCall) => Some (self', log', Stall)
         end
       else Some (self, log, GiveUp)) = Some (self', log', v)
      /\ match v with
         | Found child => idle child = true
         | GiveUp => True
         | Stall => False
         end).
  { destruct (_ && _ && (n <? 50)) eqn:G;
      [|exists self, log, GiveUp; auto].
    apply andb_prop in G. destruct G as [G1 G].
    apply andb_prop in G1. destruct G1 as [_ G1].
    apply Nat.ltb_lt in G.
    pose proof (fetchMore_cases backend self log) as C.
    destruct (fetchMore backend self log) as [[self1 log1] sg].
    rewrite idle_fields in I.
    apply andb_prop in I. destruct I as [I I3].
    apply andb_prop in I. destruct I as [I1 I2].
    apply negb_true_iff in I1, I2.
    destruct sg.
    - destruct C as (_ & _ & _ & data & _ & E & _ & LM & L & _).
      apply IH; [lia | lia |].
      rewrite idle_fields, LM, L, I1, E, forallb_app, I3.
      cbn. apply idle_children_of.
    - exists self1, log1, GiveUp. auto.
    - destruct C as (C & _). rewrite G1, I2 in C. discriminate. }
  destruct (List.filter (named nextName) (entries self))
    as [|c [|c' t]] eqn:F; try apply more.
  exists self, log, (Found c). split; [reflexivity|].
  apply (idle_child self c I).
  assert (In c (List.filter (named nextName) (entries self))) as J
    by (rewrite F; now left).
  apply filter_In in J. tauto.
Qed.

Lemma loadAndFind_idle (nextName : string) (self : Entry) (log : Log) :
  idle self = true ->
  exists self' log' v,
    loadAndFind backend localeCompare nextName self log
    = Some (self', log', v)
    /\ match v with
       | Found child => idle child = true
       | GiveUp => True
       | Stall => False
       end.
Proof.
  intros I. unfold loadAndFind.
  destruct (negb (loaded self)).
  - pose proof (loadEntries_cases backend self log) as C.
    destruct (loadEntries backend self log) as [[self1 log1] sg].
    pose proof I as I'. rewrite idle_fields in I'.
    apply andb_prop in I'. destruct I' as [I' I3].
    apply andb_prop in I'. destruct I' as [I1 I2].
    apply negb_true_iff in I1, I2.
    destruct sg.
    + destruct C as (_ & _ & data & _ & E & _ & L & LM & _).
      apply findNextAndLoadDeep_idle; [lia | lia |].
      rewrite idle_fields, L, LM, I2, E. cbn. apply idle_children_of.
    + destruct C as (_ & _ & text & _ & E & L & LM & _).
      apply findNextAndLoadDeep_idle; [lia | lia |].
      rewrite idle_fields, L, LM, I2, E. cbn. assumption.
    + destruct C as (C & _). congruence.
  - apply findNextAndLoadDeep_idle; [lia | lia | assumption].
Qed.

(** With fuel above the weight of the folders, the walk from an entry with
    no request in flight, in whose tree every [rootPath] is empty or
    compiles, ends with a call of [callback]. *)
Lemma loadDeep_calls_back (fuel : nat) :
  forall (self : Entry) (folders : list string) (log : Log),
    idle self = true -> walkable replaceRoot self = true ->
    weight folders < fuel ->
    exists self' log' trail e,
      loadDeep backend localeCompare replaceRoot fuel self folders log
      = Some (self', log', Called trail e).
Proof.
  induction fuel as [|fuel IH]; intros self folders log I Wk W; [lia|].
  cbn [loadDeep]. destruct folders as [|first others].
  - exists self, log, [], self. reflexivity.
  - destruct (shift_folders_walkable self first others Wk)
      as (nextName & rest & Sh).
    rewrite Sh. apply shift_folders_weight in Sh.
    destruct (loadAndFind_idle nextName self log I)
      as (self1 & log1 & v & E & V).
    rewrite E. destruct v as [child| |]; [| |contradiction].
    + pose proof (loadAndFind_walkable nextName self log self1 log1 child
                    Wk E) as Wc.
      destruct (IH child rest log1 V Wc) as (c' & l' & trail & e & R);
        [lia|].
      rewrite R. cbn [push]. eauto.
    + eauto.
Qed.

End WalkFacts.

(** ** The literal replacement is a replacement *)

Lemma strip_prefix_app (p s rest : string) :
  Fixtures.strip_prefix p s = Some rest -> s = p ++ rest.
Proof.
  revert s. induction p as [|a p IH]; intros s H; cbn in H.
  - now injection H as ->.
  - destruct s as [|b s]; [discriminate|].
    destruct (Ascii.eqb a b) eqn:E; [|discriminate].
    apply Ascii.eqb_eq in E. subst b. cbn. f_equal. now apply IH.
Qed.

Lemma strip_prefix_of_app (p rest : string) :
  Fixtures.strip_prefix p (p ++ rest) = Some rest.
Proof.
  induction p as [|a p IH]; [reflexivity|].
  cbn. now rewrite Ascii.eqb_refl.
Qed.

Lemma literalReplace_deletes (p s : string) :
  exists before gone after,
    s = before ++ gone ++ after
    /\ Fixtures.literalReplace p s = before ++ after.
Proof.
  unfold Fixtures.literalReplace.
  destruct (Fixtures.strip_prefix p s) as [rest|] eqn:E.
  - exists "", p, rest. cbn. split; [now apply strip_prefix_app | reflexivity].
  - exists "", "", s. split; reflexivity.
Qed.

(** ** The host fixture deletes *)

Lemma take_drop (n : nat) (s : string) : Str.take n s ++ Str.drop n s = s.
Proof.
  revert s. induction n as [|n IH]; intros [|x s]; try reflexivity.
  cbn. now rewrite IH.
Qed.

(** What a match leaves is an end of the input, as long as the same holds
    of the continuation. *)
Lemma run_leaves_an_end (r : Re.re) :
  forall k : Re.cont,
    (forall pos s c res,
        k pos s c = Some res -> exists m, s = m ++ snd (fst res)) ->
    forall pos s c res,
      Re.run r k pos s c = Some res -> exists m, s = m ++ snd (fst res).
Proof.
  induction r as [|p|a IHa b IHb|a IHa b IHb|a IHa|i a IHa| |];
    intros k Hk pos s c res H; cbn [Re.run] in H.
  - now apply Hk in H.
  - destruct s as [|x s]; [discriminate|].
    destruct (p x); [|discriminate].
    apply Hk in H. destruct H as [m ->]. now exists (String x m).
  - apply (IHa (Re.run b k)) in H; [assumption|].
    intros pos' s' c' res'. now apply IHb.
  - destruct (Re.run a k pos s c) as [res'|] eqn:E.
    + injection H as <-. now apply (IHa k Hk) in E.
    + now apply (IHb k Hk) in H.
  - remember (String.length s) as n eqn:Hn in H. clear Hn.
    revert pos s c res H.
    induction n as [|n IHn]; intros pos s c res H; cbn [Re.star_iter] in H.
    + now apply Hk in H.
    + destruct (Re.run a _ pos s (Re.clear (Re.groups a) c))
        as [res'|] eqn:E.
      * injection H as <-. revert E. apply IHa.
        intros pos' s' c' res'' K.
        destruct (pos <? pos'); [|discriminate]. now apply IHn in K.
      * now apply Hk in H.
  - revert H. apply IHa. intros pos' s' c' res' K. now apply Hk in K.
  - destruct (Nat.eqb pos 0); [|discriminate]. now apply Hk in H.
  - destruct s; [|discriminate]. now apply Hk in H.
Qed.

Lemma search_leaves_an_end (r : Re.re) (s : string) :
  forall pos start stop rest c,
    Re.search r pos s = Some (start, (stop, rest, c)) ->
    pos <= start /\ exists m, Str.drop (start - pos) s = m ++ rest.
Proof.
  induction s as [|x s IH]; intros pos start stop rest c H;
    cbn [Re.search] in H.
  - destruct (Re.match_at r pos "") as [res|] eqn:E; [|discriminate].
    injection H as <- ->. split; [lia|].
    rewrite Nat.sub_diag. unfold Re.match_at in E.
    apply (run_leaves_an_end r Re.accept) in E; [exact E|].
    intros pos' s' c' res' K. injection K as <-. now exists "".
  - destruct (Re.match_at r pos (String x s)) as [res|] eqn:E.
    + injection H as <- ->. split; [lia|].
      rewrite Nat.sub_diag. unfold Re.match_at in E.
      apply (run_leaves_an_end r Re.accept) in E; [exact E|].
      intros pos' s' c' res' K. injection K as <-. now exists "".
    + apply IH in H. destruct H as (L & m & D). split; [lia|].
      exists m. replace (start - pos) with (S (start - S pos)) by lia.
      exact D.
Qed.

Lemma replace_deletes (r : Re.re) (s : string) :
  exists before gone after,
    s = before ++ gone ++ after /\ Re.replace r "" s = before ++ after.
Proof.
  unfold Re.replace.
  destruct (Re.search r 0 s) as [[start [[stop rest] c]]|] eqn:E.
  - apply search_leaves_an_end in E. destruct E as (_ & m & D).
    rewrite Nat.sub_0_r in D.
    exists (Str.take start s), m, rest. split; [|reflexivity].
    now rewrite <- D, take_drop.
  - exists "", "", s. split; reflexivity.
Qed.

Lemma hostRegExp_deletes (p : string) (replace : string -> string)
  (s : string) :
  Fixtures.hostRegExp p = Some replace ->
  exists before gone after,
    s = before ++ gone ++ after /\ replace s = before ++ after.
Proof.
  unfold Fixtures.hostRegExp. destruct (Fixtures.plain p).
  - intros H. injection H as <-. apply literalReplace_deletes.
  - destruct (Fixtures.atoms p) as [r|]; [|discriminate].
    intros H. injection H as <-. apply replace_deletes.
Qed.

Lemma hostRegExp_plain (p : string) :
  Fixtures.plain p = true ->
  exists replace,
    Fixtures.hostRegExp p = Some replace
    /\ forall s, replace s = Fixtures.literalReplace p s.
Proof.
  intros P. unfold Fixtures.hostRegExp. rewrite P.
  now exists (Fixtures.literalReplace p).
Qed.

(** ** The walk and its callback *)

(** The search of the walk, by cases on [loaded]. *)
Lemma loadAndFind_eq (backend : Backend)
  (localeCompare : string -> string -> Z)
  (nextName : string) (self : Entry) (log : Log) :
  loadAndFind backend localeCompare nextName self log
  = if loaded self
    then findNextAndLoadDeep backend localeCompare 51 nextName 0 self log
    else
      match loadEntries backend self log with
      | (self1, log1, NoCall) => Some (self1, log1, Stall)
      | (self1, log1, _) =>
          findNextAndLoadDeep backend localeCompare 51 nextName 0 self1 log1
      end.
Proof.
  unfold loadAndFind. destruct (loaded self); cbn [negb]; [reflexivity|].
  destruct (loadEntries backend self log) as [[self1 log1] []]; reflexivity.
Qed.

(** The request the search at an entry sent last, when it sent one, was
    a request of [fetchMore], and the search gave up if it failed. *)
Lemma findNextAndLoadDeep_last (backend : Backend)
  (localeCompare : string -> string -> Z) (gas : nat) :
  forall (nextName : string) (n : nat) (self : Entry) (log : Log)
         (self' : Entry) (log' : Log) (v : Verdict),
    findNextAndLoadDeep backend localeCompare gas nextName n self log
    = Some (self', log', v) ->
    (self' = self /\ log' = log)
    \/ exists before earlier sg,
         fetchMore backend before earlier = (self', log', sg)
         /\ sg <> NoCall
         /\ (sg = OnError -> v = GiveUp).
Proof.
  induction gas as [|gas IH]; intros nextName n self log self' log' v H;
    [discriminate|].
  rewrite findNextAndLoadDeep_round in H.
  assert (more :
    (if negb
          match last_entry (entries self) with
          | Some e => (0 <? localeCompare (name (definition e)) nextName)%Z
          | None => false
          end
        && hasMorePages self && (n <? 50)
     then
       match fetchMore backend self log with
       | (self', log', OnSuccess) =>
           findNextAndLoadDeep backend localeCompare gas nextName
             (S n) self' log'
       | (self', log', OnError) => Some (self', log', GiveUp)
       | (self', log', NoCall) => Some (self', log', Stall)
       end
     else Some (self, log, GiveUp)) = Some (self', log', v) ->
    (self' = self /\ log' = log)
    \/ exists before earlier sg,
         fetchMore backend before earlier = (self', log', sg)
         /\ sg <> NoCall
         /\ (sg = OnError -> v = GiveUp)).
  { destruct (_ && _ && (n <? 50)).
    - pose proof (fetchMore_cases backend self log) as C.
      destruct (fetchMore backend self log) as [[self1 log1] sg] eqn:F.
      destruct sg.
      + intros K. apply IH in K. destruct K as [[-> ->] | K].
        * right. exists self, log, OnSuccess.
          split; [exact F|]. split; discriminate.
        * right. exact K.
      + intros K. injection K as <- <- <-. right.
        exists self, log, OnError. split; [exact F|].
        split; [discriminate | reflexivity].
      + intros K. injection K as <- <- <-.
        destruct C as (_ & -> & ->). now left.
    - intros K. injection K as <- <- <-. now left. }
  destruct (List.filter (named nextName) (entries self))
    as [|c [|c' t]]; try (now apply more).
  injection H as <- <- <-. now left.
Qed.

(** When the request the search sent last was a request of [fetchMore]
    that failed, the search gave up at an entry with its error flag set
    and with the children it had when the request was sent. *)
Lemma loadAndFind_failure (backend : Backend)
  (localeCompare : string -> string -> Z)
  (nextName : string) (self : Entry) (log : Log)
  (self' : Entry) (log' : Log) (v : Verdict)
  (req : Request) (earlier : Log) (text : string) :
  loadAndFind backend localeCompare nextName self log
  = Some (self', log', v) ->
  log' = req :: earlier -> log' <> log -> is_fetchMore req = true ->
  backend earlier req = Failure text ->
  v = GiveUp
  /\ hasErrors self' = true
  /\ exists before,
       fetchMore backend before earlier = (self', log', OnError)
       /\ entries self' = entries before.
Proof.
  intros H E N M B.
  assert (last :
    forall self1 log1,
      findNextAndLoadDeep backend localeCompare 51 nextName 0 self1 log1
      = Some (self', log', v) ->
      log' <> log1 ->
      v = GiveUp
      /\ hasErrors self' = true
      /\ exists before,
           fetchMore backend before earlier = (self', log', OnError)
           /\ entries self' = entries before).
  { intros self1 log1 K N1. apply findNextAndLoadDeep_last in K.
    destruct K as [[_ K] | (before & earlier0 & sg & F & S & G)];
      [congruence|].
    pose proof (fetchMore_cases backend before earlier0) as C.
    rewrite F in C. destruct sg.
    - destruct C as (_ & _ & Q & data & B' & _).
      rewrite E in Q. injection Q as -> ->. congruence.
    - destruct C as (_ & _ & Q & _ & En & _ & HE & _).
      rewrite E in Q. injection Q as -> ->.
      split; [now apply G|]. split; [exact HE|].
      exists before. split; [exact F | exact En].
    - congruence. }
  rewrite loadAndFind_eq in H. destruct (loaded self).
  - now apply (last self log).
  - pose proof (loadEntries_cases backend self log) as C.
    destruct (loadEntries backend self log) as [[self1 log1] sg].
    destruct sg.
    + destruct C as (_ & -> & _). apply (last self1 _ H).
      intros Q. rewrite E in Q. injection Q as -> _.
      discriminate.
    + destruct C as (_ & -> & _). apply (last self1 _ H).
      intros Q. rewrite E in Q. injection Q as -> _.
      discriminate.
    + destruct C as (_ & _ & ->). injection H as _ Q _. congruence.
Qed.

(** C7, as stated, fails, in four ways.  At a root entry whose first page
    has been requested and not yet answered, [loadEntries] returns at
    once, its guard being an explicit one, and the callback of the walk is
    never called.  At a root entry whose [rootPath] has a parenthesis
    that is not closed, [new RegExp] raises SyntaxError and the walk ends
    there.  When the request of the first page fails, the walk goes on
    with [fetchMore], which clears the error flag, and calls back with
    the child a later page lists, not with the entry whose request
    failed.  And for a connector whose type has no entry in
    [TYPE_SPECIFICS], [getEntry] raises TypeError. *)
Lemma walk_never_fails_counterexample :
  (let self := set_loading true (Fixtures.root "") in
   loadDeep Fixtures.endless Fixtures.codeUnitCompare Fixtures.hostRegExp
     2 self ["x"] []
   = Some (self, [], Never))
  /\ (let self := Fixtures.root "/tmp/a(b" in
      idle self = true
      /\ loadDeep Fixtures.endless Fixtures.codeUnitCompare
           Fixtures.hostRegExp 2 self ["x"] []
         = Some (self, [], Raised SyntaxError))
  /\ (exists self' log child,
        loadDeep Fixtures.failingFirst Fixtures.codeUnitCompare
          Fixtures.hostRegExp 2 (Fixtures.root "") ["x"] []
        = Some (self', log, Called ["x"] child)
        /\ Fixtures.failingFirst [] (pageRequest true (Fixtures.root ""))
           = Failure "Gateway timeout"
        /\ hasErrors self' = false
        /\ name (definition child) = "x")
  /\ (exists root,
        getEntry (fun _ => Fixtures.endless) Fixtures.codeUnitCompare
          Fixtures.hostRegExp (Fixtures.oneConnector "gs" "") "gs://b/x"
          None
        = Some (Threw TypeError, Some root, [])).
Proof.
  split; [reflexivity|]. split; [split; reflexivity|].
  split.
  - eexists. eexists. eexists. split; [vm_compute; reflexivity|].
    split; [reflexivity|]. split; reflexivity.
  - eexists. vm_compute. reflexivity.
Qed.

(** After a request of [fetchMore] failed, a second walk at the entry
    never calls back: the first walk calls back with the root, the second
    stalls on the flag the failure left. *)
Lemma walk_after_failure_stalls :
  exists self log,
    loadDeep Fixtures.failing Fixtures.codeUnitCompare
      Fixtures.hostRegExp 2 (Fixtures.root "") ["x"] []
    = Some (self, log, Called [] self)
    /\ hasErrors self = true
    /\ loadDeep Fixtures.failing Fixtures.codeUnitCompare
         Fixtures.hostRegExp 2 self ["x"] log
       = Some (self, log, Never).
Proof.
  eexists. eexists. split; [vm_compute; reflexivity|].
  split; vm_compute; reflexivity.
Qed.

(** C7, amended: for every entry in whose tree no request is in flight
    and every [rootPath] is empty or compiles as a pattern, and for every
    list of folders, the walk ends by calling [callback] with an entry.
    When a request of [fetchMore] the search at an entry sends fails, the
    error flag of the entry is set, it has the children it had when the
    request was sent, and [callback] is called with this entry.  For a
    connector whose type has an entry in [TYPE_SPECIFICS] and whose root
    path is empty or compiles, the promise of [getEntry] is resolved, and
    it is rejected when there is no connector. *)
Theorem walk_calls_back_when_idle
  (backend : Backend) (localeCompare : string -> string -> Z)
  (replaceRoot : string -> option (string -> string))
  (replaceRoot_deletes :
     forall p replace s,
       replaceRoot p = Some replace ->
       exists before gone after,
         s = before ++ gone ++ after /\ replace s = before ++ after)
  (self : Entry) (log : Log) :
  (forall (folders : list string) (fuel : nat),
     idle self = true -> walkable replaceRoot self = true ->
     weight folders < fuel ->
     exists self' log' trail e,
       loadDeep backend localeCompare replaceRoot fuel self folders log
       = Some (self', log', Called trail e))
  /\ (forall (first : string) (others : list string) (fuel : nat)
             (nextName : string) (rest : list string)
             (self' : Entry) (log' : Log) (v : Verdict)
             (req : Request) (earlier : Log) (text : string),
        shift_folders replaceRoot self first others
        = Some (nextName, rest) ->
        loadAndFind backend localeCompare nextName self log
        = Some (self', log', v) ->
        log' = req :: earlier -> log' <> log ->
        is_fetchMore req = true ->
        backend earlier req = Failure text ->
        loadDeep backend localeCompare replaceRoot (S fuel) self
          (first :: others) log
        = Some (self', log', Called [] self')
        /\ hasErrors self' = true
        /\ exists before,
             fetchMore backend before earlier = (self', log', OnError)
             /\ entries self' = entries before)
  /\ (forall (apiHelper : string -> Backend)
             (rootFilePath : string -> option string) (path : string)
             (type : option string),
        (forall root_path,
            rootFilePath (Resolve.entryType path type) = Some root_path ->
            TYPE_SPECIFICS (Resolve.entryType path type) <> None
            /\ (root_path = "" \/ compiles replaceRoot root_path = true)) ->
        exists promise root log',
          getEntry apiHelper localeCompare replaceRoot rootFilePath path
            type
          = Some (promise, root, log')
          /\ match rootFilePath (Resolve.entryType path type) with
             | Some _ => exists e, promise = Resolved e
             | None => promise = Rejected
             end).
Proof.
  split; [|split].
  - intros folders fuel I Wk W.
    now apply loadDeep_calls_back.
  - intros first others fuel nextName rest self' log' v req earlier text
           Sh H E N M B.
    destruct (loadAndFind_failure backend localeCompare nextName self log
                self' log' v req earlier text H E N M B)
      as (-> & HE & K).
    split; [|split; assumption].
    cbn [loadDeep]. rewrite Sh, H. reflexivity.
  - intros apiHelper rootFilePath path type Hc. unfold getEntry.
    destruct (rootFilePath (Resolve.entryType path type)) as [root_path|].
    + destruct (Hc root_path eq_refl) as [Ht Hr].
      destruct (TYPE_SPECIFICS (Resolve.entryType path type))
        as [specifics|]; [|congruence].
      assert (walkable replaceRoot
                (construct (mkDefinition root_path "dir") None root_path)
              = true) as Wk.
      { rewrite walkable_fields. cbn [construct rootPath entries forallb].
        rewrite andb_true_r. destruct Hr as [-> | ->];
          [reflexivity | apply orb_true_r]. }
      destruct (loadDeep_calls_back
                  (apiHelper (apiHelperFetchFunction specifics))
                  localeCompare replaceRoot replaceRoot_deletes
                  (S (weight (Resolve.entryFolders
                                (Resolve.entryType path type) path)))
                  (construct (mkDefinition root_path "dir") None root_path)
                  (Resolve.entryFolders (Resolve.entryType path type) path)
                  [] (idle_construct _ _ _) Wk (Nat.lt_succ_diag_r _))
        as (root' & log' & trail & e & R).
      cbv zeta. rewrite R. exists (Resolved e), (Some root'), log'.
      split; [reflexivity | now exists e].
    + exists Rejected, None, []. split; reflexivity.
Qed.

(** The witness of [walk_calls_back_when_idle]: the walk for ["x"] from a
    new root, the same walk when the second page fails, and [getEntry]
    for ["s3a://x"]. *)
Lemma walk_calls_back_when_idle_witness :
  let self := Fixtures.root "" in
  let result :=
    loadAndFind Fixtures.failing Fixtures.codeUnitCompare "x" self [] in
  let self' := fst (runOps Fixtures.failing [DoLoadEntries; DoFetchMore]
                      (self, [])) in
  let log' := snd (runOps Fixtures.failing [DoLoadEntries; DoFetchMore]
                     (self, [])) in
  (idle self = true /\ walkable Fixtures.hostRegExp self = true
   /\ weight ["x"] < 2
   /\ exists self' log' trail e,
        loadDeep Fixtures.failing Fixtures.codeUnitCompare
          Fixtures.hostRegExp 2 self ["x"] []
        = Some (self', log', Called trail e))
  /\ (result = Some (self', log', GiveUp)
      /\ log' = [moreRequest (fst (runOps Fixtures.failing [DoLoadEntries]
                                     (self, [])));
                 pageRequest true self]
      /\ Fixtures.failing [pageRequest true self]
           (moreRequest (fst (runOps Fixtures.failing [DoLoadEntries]
                                (self, []))))
         = Failure "Gateway timeout"
      /\ loadDeep Fixtures.failing Fixtures.codeUnitCompare
           Fixtures.hostRegExp 2 self ["x"] []
         = Some (self', log', Called [] self')
      /\ hasErrors self' = true)
  /\ (exists promise root log',
        getEntry (fun _ => Fixtures.failing) Fixtures.codeUnitCompare
          Fixtures.hostRegExp (Fixtures.oneConnector "s3" "") "s3a://x"
          None
        = Some (promise, root, log')
        /\ match Fixtures.oneConnector "s3" ""
                   (Resolve.entryType "s3a://x" None) with
           | Some _ => exists e, promise = Resolved e
           | None => promise = Rejected
           end).
Proof.
  cbv zeta.
  assert (H1 : loadAndFind Fixtures.failing Fixtures.codeUnitCompare "x"
                 (Fixtures.root "") []
               = Some (fst (runOps Fixtures.failing
                              [DoLoadEntries; DoFetchMore]
                              (Fixtures.root "", [])),
                       snd (runOps Fixtures.failing
                              [DoLoadEntries; DoFetchMore]
                              (Fixtures.root "", [])), GiveUp))
    by (vm_compute; reflexivity).
  assert (H2 : snd (runOps Fixtures.failing [DoLoadEntries; DoFetchMore]
                      (Fixtures.root "", []))
               = [moreRequest (fst (runOps Fixtures.failing [DoLoadEntries]
                                      (Fixtures.root "", [])));
                  pageRequest true (Fixtures.root "")])
    by (vm_compute; reflexivity).
  split; [|split].
  - split; [reflexivity|]. split; [reflexivity|]. split; [cbn; lia|].
    apply (proj1 (walk_calls_back_when_idle Fixtures.failing
                    Fixtures.codeUnitCompare Fixtures.hostRegExp
                    hostRegExp_deletes (Fixtures.root "") [])).
    + reflexivity.
    + reflexivity.
    + cbn; lia.
  - split; [exact H1|]. split; [exact H2|].
    split; [vm_compute; reflexivity|].
    refine (let K := proj1 (proj2 (walk_calls_back_when_idle
                                     Fixtures.failing
                                     Fixtures.codeUnitCompare
                                     Fixtures.hostRegExp
                                     hostRegExp_deletes
                                     (Fixtures.root "") []))
                       "x" [] 1 "x" [] _ _ GiveUp _ _ "Gateway timeout"
                       eq_refl H1 H2 _ eq_refl _ in
            conj (proj1 K) (proj1 (proj2 K))).
    + rewrite H2. discriminate.
    + vm_compute. reflexivity.
  - apply (proj2 (proj2 (walk_calls_back_when_idle
                           Fixtures.failing Fixtures.codeUnitCompare
                           Fixtures.hostRegExp hostRegExp_deletes
                           (Fixtures.root "") []))).
    intros root_path H. vm_compute in H. injection H as <-.
    split; [vm_compute; discriminate | now left].
Defined.

(** ** The [rootPath] statement of the walk *)

Lemma children_of_rootPath (self : Entry) (data : Listing) (child : Entry) :
  In child (children_of self data) -> rootPath child = rootPath self.
Proof.
  unfold children_of. intros I. apply in_map_iff in I.
  destruct I as (f & <- & _). reflexivity.
Qed.

(** C9, as stated, fails: [rootPath] is run as a pattern.  Under the
    root ["a+b"] the folders [a+b], [x], whose joined text starts with
    the root path, are left as they are, and the folders [aab], [x],
    whose joined text does not start with it, lose their first name.
    Under the root ["a.b"] the folders [axb], [x] lose theirs, and the
    walk at an entry that lists [axb] does not go down to it. *)
Lemma rootPath_is_a_pattern_counterexample :
  let self := Fixtures.root "a+b" in
  let dotted := Fixtures.root "a.b" in
  let backend := Fixtures.listingBackend ["axb"] in
  let loaded := runOps backend [DoLoadEntries] (dotted, []) in
  Str.truthy (rootPath self) = true
  /\ Str.join ["a+b"; "x"] = rootPath self ++ "/x"
  /\ shift_folders Fixtures.hostRegExp self "a+b" ["x"]
     = Some ("a+b", ["x"])
  /\ shift_folders Fixtures.hostRegExp self "a+b" ["x"]
     <> Some ("", ["x"])
  /\ Fixtures.strip_prefix (rootPath self) (Str.join ["aab"; "x"]) = None
  /\ shift_folders Fixtures.hostRegExp self "aab" ["x"]
     = Some ("", ["x"])
  /\ Fixtures.strip_prefix (rootPath dotted) (Str.join ["axb"; "x"]) = None
  /\ shift_folders Fixtures.hostRegExp dotted "axb" ["x"]
     = Some ("", ["x"])
  /\ childNames (fst loaded) = ["axb"]
  /\ loadDeep backend Fixtures.codeUnitCompare Fixtures.hostRegExp 3
       dotted ["axb"; "x"] []
     = Some (fst loaded, snd loaded, Called [] (fst loaded)).
Proof.
  cbv zeta. split; [reflexivity|]. split; [reflexivity|].
  split; [vm_compute; reflexivity|].
  split; [vm_compute; discriminate|].
  split; [reflexivity|]. split; [vm_compute; reflexivity|].
  split; [reflexivity|]. split; [vm_compute; reflexivity|].
  split; vm_compute; reflexivity.
Qed.

(** C9, amended: at an entry whose [rootPath] is not empty and holds no
    syntax character of a pattern, the walk along folders that are not
    empty joins them with ["/"], takes a leading [rootPath] off the joined
    text and splits what is left at ["/"]; it looks for the first piece
    among the children of the entry and walks from the child it finds
    along the other pieces.  Folders whose joined text starts with
    [rootPath] are therefore replaced by the pieces of the text after it,
    the first of which is empty when a ["/"] follows.  Every child an
    entry builds from a page has the [rootPath] of the entry, so the same
    happens at every level. *)
Theorem rootPath_rewrites_folders
  (backend : Backend) (localeCompare : string -> string -> Z)
  (replaceRoot : string -> option (string -> string))
  (replaceRoot_plain :
     forall p, Fixtures.plain p = true ->
               exists replace,
                 replaceRoot p = Some replace
                 /\ forall s, replace s = Fixtures.literalReplace p s)
  (self : Entry) (first : string) (others : list string) :
  Str.truthy (rootPath self) = true ->
  Fixtures.plain (rootPath self) = true ->
  let rewritten :=
    Str.split (Fixtures.literalReplace (rootPath self)
                 (Str.join (first :: others))) in
  let nextName := hd "" rewritten in
  let rest := tl rewritten in
  rewritten = nextName :: rest
  /\ shift_folders replaceRoot self first others = Some (nextName, rest)
  /\ (forall tail,
        Str.join (first :: others) = rootPath self ++ tail ->
        rewritten = Str.split tail)
  /\ (forall tail,
        Str.join (first :: others)
        = rootPath self ++ String Str.slash tail ->
        nextName = "" /\ rest = Str.split tail)
  /\ (forall fuel log,
        loadDeep backend localeCompare replaceRoot (S fuel) self
          (first :: others) log
        = match loadAndFind backend localeCompare nextName self log with
          | None => None
          | Some (self1, log1, Found child) =>
              match loadDeep backend localeCompare replaceRoot fuel child
                      rest log1 with
              | None => None
              | Some (child', log', answer) =>
                  Some (set_entries
                          (with_child nextName child' (entries self1))
                          self1,
                        log', push nextName answer)
              end
          | Some (self1, log1, GiveUp) =>
              Some (self1, log1, Called [] self1)
          | Some (self1, log1, Stall) => Some (self1, log1, Never)
          end)
  /\ (forall data,
        map rootPath (children_of self data)
        = map (fun _ => rootPath self) (List.filter listed (files data))).
Proof.
  intros T P rewritten nextName rest.
  destruct (replaceRoot_plain (rootPath self) P) as (replace & R & Hr).
  assert (rewritten = nextName :: rest) as E.
  { subst nextName rest. destruct rewritten as [|n l] eqn:Sp;
      [|reflexivity].
    exfalso. revert Sp. apply split_aux_not_nil. }
  assert (shift_folders replaceRoot self first others
          = Some (nextName, rest)) as Sh.
  { unfold shift_folders. rewrite T, R, Hr. fold rewritten.
    now rewrite E. }
  assert (forall tail,
             Str.join (first :: others) = rootPath self ++ tail ->
             rewritten = Str.split tail) as Tl.
  { intros tail J. subst rewritten. rewrite J.
    unfold Fixtures.literalReplace. now rewrite strip_prefix_of_app. }
  split; [exact E|]. split; [exact Sh|]. split; [exact Tl|].
  split; [|split].
  - intros tail J. apply Tl in J. subst nextName rest. rewrite J.
    split; reflexivity.
  - intros fuel log. cbn [loadDeep]. rewrite Sh. reflexivity.
  - intros data. unfold children_of. rewrite !map_map. reflexivity.
Qed.

(** The witness of [rootPath_rewrites_folders]: under the root ["user"]
    the folders ["user"] and ["x"] become the empty name and ["x"], and
    the walk, at an entry that lists [user] and [x], looks for a child
    without name and calls back with the entry itself. *)
Lemma rootPath_rewrites_folders_witness :
  let self := Fixtures.root "user" in
  let backend := Fixtures.listingBackend ["user"; "x"] in
  let loaded := runOps backend [DoLoadEntries] (self, []) in
  Str.truthy (rootPath self) = true
  /\ Fixtures.plain (rootPath self) = true
  /\ Str.join ["user"; "x"] = rootPath self ++ "/x"
  /\ shift_folders Fixtures.hostRegExp self "user" ["x"]
     = Some ("", ["x"])
  /\ childNames (fst loaded) = ["user"; "x"]
  /\ loadDeep backend Fixtures.codeUnitCompare Fixtures.hostRegExp 2 self
       ["user"; "x"] []
     = Some (fst loaded, snd loaded, Called [] (fst loaded)).
Proof.
  cbv zeta.
  pose proof (rootPath_rewrites_folders
                (Fixtures.listingBackend ["user"; "x"])
                Fixtures.codeUnitCompare Fixtures.hostRegExp
                hostRegExp_plain (Fixtures.root "user") "user" ["x"]
                eq_refl eq_refl) as H.
  cbv zeta in H. destruct H as (_ & Sh & _ & _ & Walk & _).
  split; [reflexivity|]. split; [reflexivity|]. split; [reflexivity|].
  split; [exact Sh|]. split; [vm_compute; reflexivity|].
  rewrite (Walk 1 []). vm_compute. reflexivity.
Defined.

(** ** Sorted pages *)

Lemma sortedb_app (cmp : string -> string -> Z) (l1 l2 : list string) :
  sortedb cmp (l1 ++ l2)%list = true ->
  forall a b, In a l1 -> In b l2 -> (cmp a b <= 0)%Z.
Proof.
  induction l1 as [|x l1 IH]; intros S a b Ia Ib; [contradiction|].
  cbn in S. apply andb_prop in S. destruct S as [S1 S2].
  destruct Ia as [<- | Ia].
  - rewrite forallb_forall in S1. apply Z.leb_le, S1, in_or_app. now right.
  - now apply IH.
Qed.

Lemma existsb_eqb_In (t : string) (l : list string) :
  existsb (String.eqb t) l = true <-> In t l.
Proof.
  rewrite existsb_exists. split.
  - intros (x & I & E). apply String.eqb_eq in E. now subst.
  - intros I. exists t. split; [assumption | apply String.eqb_refl].
Qed.

Lemma distinctb_app (l1 l2 : list string) (t : string) :
  distinctb (l1 ++ l2)%list = true -> In t l2 -> ~ In t l1.
Proof.
  induction l1 as [|x l1 IH]; intros D I2 I1; [contradiction|].
  cbn in D. apply andb_prop in D. destruct D as [D1 D2].
  destruct I1 as [-> | I1].
  - apply negb_true_iff in D1.
    assert (existsb (String.eqb t) (l1 ++ l2)%list = true) as E
      by (apply existsb_eqb_In, in_or_app; now right).
    congruence.
  - now apply IH.
Qed.

Lemma count_absent (t : string) (l : list string) :
  ~ In t l -> List.filter (fun n => String.eqb n t) l = [].
Proof.
  induction l as [|x l IH]; intros N; [reflexivity|].
  cbn. destruct (String.eqb x t) eqn:E.
  - apply String.eqb_eq in E. subst. exfalso. apply N. now left.
  - apply IH. intros I. apply N. now right.
Qed.

Lemma count_distinct (t : string) (l : list string) :
  distinctb l = true -> In t l ->
  List.filter (fun n => String.eqb n t) l = [t].
Proof.
  induction l as [|x l IH]; intros D I; [contradiction|].
  cbn in D. apply andb_prop in D. destruct D as [D1 D2].
  apply negb_true_iff in D1. cbn.
  destruct (String.eqb x t) eqn:E.
  - apply String.eqb_eq in E. subst x. f_equal. apply count_absent.
    intros J. apply existsb_eqb_In in J. congruence.
  - destruct I as [-> | I]; [rewrite String.eqb_refl in E; discriminate|].
    now apply IH.
Qed.

Lemma filter_named_names (t : string) (es : list Entry) :
  map (fun c => name (definition c)) (List.filter (named t) es)
  = List.filter (fun n => String.eqb n t)
      (map (fun c => name (definition c)) es).
Proof.
  induction es as [|e es IH]; [reflexivity|].
  cbn. unfold named at 1. destruct (String.eqb _ t); cbn; now rewrite IH.
Qed.

Lemma last_entry_In (es : list Entry) (e : Entry) :
  last_entry es = Some e -> In e es.
Proof.
  induction es as [|x es IH]; [discriminate|].
  cbn. destruct es as [|y es].
  - intros H. injection H as ->. now left.
  - intros H. right. now apply IH.
Qed.

Lemma last_entry_some (es : list Entry) :
  es <> [] -> exists e, last_entry es = Some e.
Proof.
  induction es as [|x es IH]; [congruence|]. intros _.
  destruct es as [|y es]; [now exists x|].
  destruct IH as [e E]; [discriminate|]. exists e. exact E.
Qed.

Lemma listedNames_page (l : list string) (next : Z)
  (denied : option string) :
  forallb properName l = true ->
  listedNames (mkListing (map (fun n => mkDefinition n "dir") l) next denied)
  = l.
Proof.
  unfold listedNames. cbn [files].
  induction l as [|x l IH]; intros P; [reflexivity|].
  cbn in P. apply andb_prop in P. destruct P as [P1 P2].
  cbn [map List.filter]. unfold listed at 1. cbn [name].
  unfold properName in P1. rewrite P1. cbn [map name]. now rewrite IH.
Qed.

Lemma listingBackend_page (names : list string) (log : Log) (req : Request)
  (n : nat) :
  req_page req = Z.of_nat n -> req_pageSize req = 100 ->
  Fixtures.listingBackend names log req
  = Success
      (mkListing
         (map (fun n => mkDefinition n "dir")
              (firstn 100 (skipn ((n - 1) * 100) names)))
         (if n * 100 <? List.length names
          then (Z.of_nat n + 1)%Z else Z.of_nat n)
         None).
Proof.
  intros P S. unfold Fixtures.listingBackend.
  rewrite P, S, Nat2Z.id. reflexivity.
Qed.

Lemma forallb_firstn (f : string -> bool) (n : nat) (l : list string) :
  forallb f l = true -> forallb f (firstn n l) = true.
Proof.
  rewrite !forallb_forall. intros H x I. apply H.
  rewrite <- (firstn_skipn n l). apply in_or_app. now left.
Qed.

Lemma forallb_skipn (f : string -> bool) (n : nat) (l : list string) :
  forallb f l = true -> forallb f (skipn n l) = true.
Proof.
  rewrite !forallb_forall. intros H x I. apply H.
  rewrite <- (firstn_skipn n l). apply in_or_app. now right.
Qed.

Section Paging.

Variable names : list string.
Hypothesis names_length : List.length names = 120.
Hypothesis names_proper : forallb properName names = true.

(** The first page: a hundred names, and one more page announced. *)
Lemma first_page (self : Entry) (log : Log) :
  loading self = false -> currentPage self = 1%Z ->
  exists self1,
    loadEntries (Fixtures.listingBackend names) self log
    = (self1, pageRequest true self :: log, OnSuccess)
    /\ childNames self1 = firstn 100 names
    /\ hasMorePages self1 = true
    /\ loadingMore self1 = loadingMore self
    /\ currentPage self1 = 1%Z
    /\ loaded self1 = true
    /\ definition self1 = definition self
    /\ parent self1 = parent self.
Proof.
  intros L P.
  pose proof (listingBackend_page names log (pageRequest true self) 1 P
                eq_refl) as B.
  rewrite names_length in B. cbn [Nat.sub Nat.mul skipn Nat.ltb Nat.leb
                                   Nat.add] in B.
  pose proof (loadEntries_cases (Fixtures.listingBackend names) self log)
    as C.
  destruct (loadEntries (Fixtures.listingBackend names) self log)
    as [[self1 log1] sg].
  destruct sg.
  - destruct C as (_ & -> & data & B' & _ & N & _ & LM & LD & _ & _ & _
                   & HM & CP & D & PA).
    rewrite B in B'.
    assert (E := f_equal (fun r => match r with
                                   | Success x => x
                                   | Failure _ => data
                                   end) B').
    cbv beta iota in E. subst data.
    exists self1. rewrite N, HM, LM, CP, LD, D, PA, P.
    rewrite listedNames_page by now apply forallb_firstn.
    repeat split; reflexivity.
  - destruct C as (_ & _ & text & B' & _). congruence.
  - destruct C as (C & _). congruence.
Qed.

(** The second page: the twenty names that are left, and no more page. *)
Lemma second_page (self : Entry) (log : Log) :
  hasMorePages self = true -> loadingMore self = false ->
  currentPage self = 1%Z ->
  exists self2,
    fetchMore (Fixtures.listingBackend names) self log
    = (self2, moreRequest self :: log, OnSuccess)
    /\ childNames self2 = (childNames self ++ skipn 100 names)%list
    /\ hasMorePages self2 = false.
Proof.
  intros HM LM P.
  assert (req_page (moreRequest self) = Z.of_nat 2) as P2
    by (cbn; rewrite P; reflexivity).
  pose proof (listingBackend_page names log (moreRequest self) 2 P2
                eq_refl) as B.
  rewrite names_length in B. cbn [Nat.sub Nat.mul Nat.ltb Nat.leb
                                   Nat.add] in B.
  rewrite firstn_all2 in B by (rewrite length_skipn, names_length; lia).
  pose proof (fetchMore_cases (Fixtures.listingBackend names) self log)
    as C.
  destruct (fetchMore (Fixtures.listingBackend names) self log)
    as [[self2 log2] sg].
  destruct sg.
  - destruct C as (_ & _ & -> & data & B' & _ & N & _ & _ & _ & _ & _
                   & HM' & _).
    rewrite B in B'.
    assert (E := f_equal (fun r => match r with
                                   | Success x => x
                                   | Failure _ => data
                                   end) B').
    cbv beta iota in E. subst data.
    exists self2. rewrite N, HM', P.
    rewrite listedNames_page by now apply forallb_skipn.
    repeat split; reflexivity.
  - destruct C as (_ & _ & _ & [text B'] & _). congruence.
  - destruct C as (C & _). rewrite HM, LM in C. discriminate.
Qed.

End Paging.

(** C4: the backend of an entry lists 120 names, sorted and distinct, by
    pages of 100.  The walk from the new entry toward a name of the second
    page sends the request of the first page and one request of
    [fetchMore], and calls back with the child of that name.  The walk
    toward a name that sorts before the first name sends the request of
    the first page and no other, the last child loaded comparing greater
    than the name, and calls back with the entry itself. *)
Theorem one_fetchMore_for_the_second_page
  (localeCompare : string -> string -> Z)
  (replaceRoot : string -> option (string -> string))
  (names : list string) (d : FileDefinition) (p : option Entry)
  (root_path : string) :
  List.length names = 120 ->
  distinctb names = true ->
  forallb properName names = true ->
  sortedb localeCompare names = true ->
  let self := construct d p root_path in
  let backend := Fixtures.listingBackend names in
  (forall target fuel,
     In target (skipn 100 names) ->
     shift_folders replaceRoot self target [] = Some (target, []) ->
     exists self' log child,
       loadDeep backend localeCompare replaceRoot (S (S fuel)) self
         [target] []
       = Some (self', log, Called [target] child)
       /\ name (definition child) = target
       /\ map is_fetchMore log = [true; false])
  /\ (forall target fuel first,
        nth_error names 0 = Some first ->
        (0 < localeCompare first target)%Z ->
        localeCompare target target = 0%Z ->
        (forall a b c,
           (localeCompare a b <= 0)%Z -> (0 < localeCompare a c)%Z ->
           (0 < localeCompare b c)%Z) ->
        shift_folders replaceRoot self target [] = Some (target, []) ->
        exists self',
          loadDeep backend localeCompare replaceRoot (S fuel) self
            [target] []
          = Some (self', [pageRequest true self], Called [] self')
          /\ definition self' = d
          /\ parent self' = option_map parent_of p
          /\ is_fetchMore (pageRequest true self) = false).
Proof.
  intros Hlen Hdist Hproper Hsorted self backend.
  destruct (first_page names Hlen Hproper self [] eq_refl eq_refl)
    as (self1 & L1 & N1 & HM1 & LM1 & CP1 & LD1 & D1 & PA1).
  fold backend in L1.
  assert (Hsplit : (firstn 100 names ++ skipn 100 names)%list = names)
    by apply firstn_skipn.
  split.
  - intros target fuel I S.
    cbn [loadDeep]. rewrite S. unfold loadAndFind.
    change (loaded self) with false. cbn [negb]. rewrite L1.
    rewrite findNextAndLoadDeep_round.
    assert (List.filter (named target) (entries self1) = []) as F1.
    { apply (map_eq_nil (fun c => name (definition c))).
      rewrite filter_named_names. fold (childNames self1). rewrite N1.
      apply count_absent. apply distinctb_app with (l2 := skipn 100 names);
        [now rewrite Hsplit | assumption]. }
    rewrite F1.
    assert (match last_entry (entries self1) with
            | Some e => (0 <? localeCompare (name (definition e)) target)%Z
            | None => false
            end = false) as P1.
    { destruct (last_entry (entries self1)) as [e|] eqn:E; [|reflexivity].
      apply Z.ltb_ge. apply last_entry_In in E.
      apply (sortedb_app localeCompare (firstn 100 names)
               (skipn 100 names)); [now rewrite Hsplit | | assumption].
      rewrite <- N1. unfold childNames.
      apply in_map_iff. now exists e. }
    rewrite P1, HM1. cbn [negb andb Nat.ltb Nat.leb].
    destruct (second_page names Hlen Hproper self1
                [pageRequest true self] HM1 LM1 CP1)
      as (self2 & L2 & N2 & HM2).
    fold backend in L2. rewrite L2.
    rewrite findNextAndLoadDeep_round.
    assert (map (fun c => name (definition c))
              (List.filter (named target) (entries self2)) = [target])
      as F2.
    { rewrite filter_named_names. fold (childNames self2).
      rewrite N2, N1, Hsplit. apply count_distinct; [assumption|].
      rewrite <- Hsplit. apply in_or_app. now right. }
    destruct (List.filter (named target) (entries self2))
      as [|child [|c' t]]; try discriminate.
    injection F2 as F2.
    exists (set_entries (with_child target child (entries self2)) self2),
      [moreRequest self1; pageRequest true self], child.
    repeat split; assumption.
  - intros target fuel first Hfirst Hbefore Hrefl Htrans S.
    assert (forall m, In m names -> (0 < localeCompare m target)%Z)
      as Hall.
    { destruct names as [|x rest]; [discriminate|].
      cbn in Hfirst. injection Hfirst as ->.
      intros m [<- | I]; [assumption|].
      apply Htrans with (a := first); [|assumption].
      cbn in Hsorted. apply andb_prop in Hsorted.
      destruct Hsorted as [Hs _]. rewrite forallb_forall in Hs.
      now apply Z.leb_le, Hs. }
    assert (~ In target names) as Hout.
    { intros I. apply Hall in I. lia. }
    cbn [loadDeep]. rewrite S. unfold loadAndFind.
    change (loaded self) with false. cbn [negb]. rewrite L1.
    rewrite findNextAndLoadDeep_round.
    assert (List.filter (named target) (entries self1) = []) as F1.
    { apply (map_eq_nil (fun c => name (definition c))).
      rewrite filter_named_names. fold (childNames self1). rewrite N1.
      apply count_absent. intros I. apply Hout.
      rewrite <- Hsplit. apply in_or_app. now left. }
    rewrite F1.
    assert (match last_entry (entries self1) with
            | Some e => (0 <? localeCompare (name (definition e)) target)%Z
            | None => false
            end = true) as P1.
    { destruct (last_entry_some (entries self1)) as [e E].
      - intros Z. assert (childNames self1 = []) as Z'
          by (unfold childNames; now rewrite Z).
        rewrite N1 in Z'. apply (f_equal (@List.length string)) in Z'.
        rewrite length_firstn, Hlen in Z'. discriminate.
      - rewrite E. apply Z.ltb_lt, Hall. apply last_entry_In in E.
        rewrite <- Hsplit. apply in_or_app. left.
        rewrite <- N1. unfold childNames. apply in_map_iff. now exists e. }
    rewrite P1. cbn [negb andb].
    exists self1. repeat split; assumption.
Qed.

(** ** Comparison by code units is an order *)

Lemma nat_of_ascii_inj (x y : ascii) :
  nat_of_ascii x = nat_of_ascii y -> x = y.
Proof.
  intros H. rewrite <- (ascii_nat_embedding x), <- (ascii_nat_embedding y).
  now rewrite H.
Qed.

Lemma ascii_eqb_nat (x y : ascii) :
  Ascii.eqb x y = (nat_of_ascii x =? nat_of_ascii y).
Proof.
  destruct (Ascii.eqb x y) eqn:E.
  - apply Ascii.eqb_eq in E. subst. now rewrite Nat.eqb_refl.
  - symmetry. apply Nat.eqb_neq. intros H. apply nat_of_ascii_inj in H.
    subst. rewrite Ascii.eqb_refl in E. discriminate.
Qed.

Lemma codeUnitCompare_refl (a : string) : Fixtures.codeUnitCompare a a = 0%Z.
Proof.
  induction a as [|x a IH]; [reflexivity|].
  cbn. now rewrite Ascii.eqb_refl.
Qed.

Lemma codeUnitCompare_trans (a : string) :
  forall b c,
    (Fixtures.codeUnitCompare a b <= 0)%Z ->
    (0 < Fixtures.codeUnitCompare a c)%Z ->
    (0 < Fixtures.codeUnitCompare b c)%Z.
Proof.
  induction a as [|x a IH]; intros [|y b] [|z c];
    cbn [Fixtures.codeUnitCompare]; try lia.
  rewrite !ascii_eqb_nat.
  destruct (Nat.eqb_spec (nat_of_ascii x) (nat_of_ascii y)) as [E1|E1];
    destruct (Nat.eqb_spec (nat_of_ascii x) (nat_of_ascii z)) as [E2|E2];
    destruct (Nat.eqb_spec (nat_of_ascii y) (nat_of_ascii z)) as [E3|E3];
    try lia;
    repeat match goal with
           | |- context [?u <? ?v] => destruct (Nat.ltb_spec u v)
           end;
    try lia.
  apply IH.
Qed.

(** The witness of [one_fetchMore_for_the_second_page]: the names
    ["e000"] to ["e119"] and the walks toward ["e105"] and toward ["a"]. *)
Lemma one_fetchMore_for_the_second_page_witness :
  (List.length Fixtures.names120 = 120
   /\ distinctb Fixtures.names120 = true
   /\ forallb properName Fixtures.names120 = true
   /\ sortedb Fixtures.codeUnitCompare Fixtures.names120 = true)
  /\ (In "e105" (skipn 100 Fixtures.names120)
      /\ exists self' log child,
           loadDeep (Fixtures.listingBackend Fixtures.names120)
             Fixtures.codeUnitCompare Fixtures.hostRegExp 2
             (construct (mkDefinition "" "dir") None "") ["e105"] []
           = Some (self', log, Called ["e105"] child)
           /\ name (definition child) = "e105"
           /\ map is_fetchMore log = [true; false])
  /\ (nth_error Fixtures.names120 0 = Some "e000"
      /\ (0 < Fixtures.codeUnitCompare "e000" "a")%Z
      /\ exists self',
           loadDeep (Fixtures.listingBackend Fixtures.names120)
             Fixtures.codeUnitCompare Fixtures.hostRegExp 1
             (construct (mkDefinition "" "dir") None "") ["a"] []
           = Some (self',
                   [pageRequest true
                      (construct (mkDefinition "" "dir") None "")],
                   Called [] self')
           /\ definition self' = mkDefinition "" "dir"
           /\ parent self' = option_map parent_of None
           /\ is_fetchMore
                (pageRequest true (construct (mkDefinition "" "dir") None ""))
              = false).
Proof.
  assert (H1 : List.length Fixtures.names120 = 120) by reflexivity.
  assert (H2 : distinctb Fixtures.names120 = true)
    by (vm_compute; reflexivity).
  assert (H3 : forallb properName Fixtures.names120 = true)
    by (vm_compute; reflexivity).
  assert (H4 : sortedb Fixtures.codeUnitCompare Fixtures.names120 = true)
    by (vm_compute; reflexivity).
  assert (H5 : In "e105" (skipn 100 Fixtures.names120))
    by (apply existsb_eqb_In; vm_compute; reflexivity).
  split; [repeat split; assumption|].
  split; [split; [exact H5|] | split; [reflexivity | split; [reflexivity|]]].
  - exact (proj1 (one_fetchMore_for_the_second_page
                    Fixtures.codeUnitCompare Fixtures.hostRegExp
                    Fixtures.names120 (mkDefinition "" "dir") None ""
                    H1 H2 H3 H4) "e105" 0 H5 eq_refl).
  - exact (proj2 (one_fetchMore_for_the_second_page
                    Fixtures.codeUnitCompare Fixtures.hostRegExp
                    Fixtures.names120 (mkDefinition "" "dir") None ""
                    H1 H2 H3 H4) "a" 0 "e000" eq_refl eq_refl eq_refl
             (fun a b c => codeUnitCompare_trans a b c) eq_refl).
Defined.

(** ** The matcher on classes and literal prefixes *)

Lemma clear_nil (c : Re.captures) : Re.clear [] c = c.
Proof.
  unfold Re.clear. induction c as [|e c IH]; [reflexivity|].
  cbn [List.filter existsb negb]. f_equal. exact IH.
Qed.

Lemma length_app_string (a b : string) :
  String.length (a ++ b) = String.length a + String.length b.
Proof. induction a as [|x a IH]; [reflexivity|]. cbn. now rewrite IH. Qed.

Lemma take_app_length (a b : string) :
  Str.take (String.length a) (a ++ b) = a.
Proof. induction a as [|x a IH]; [now destruct b|]. cbn. now rewrite IH. Qed.

Lemma drop_app_length (a b : string) :
  Str.drop (String.length a) (a ++ b) = b.
Proof. induction a as [|x a IH]; [reflexivity|]. exact IH. Qed.

Lemma run_class (p : ascii -> bool) (k : Re.cont) (pos : nat) (x : ascii)
  (s : string) (c : Re.captures) :
  Re.run (Re.Chr p) k pos (String x s) c
  = if p x then k (S pos) s c else None.
Proof. reflexivity. Qed.

Lemma ltb_succ (pos : nat) : (pos <? S pos) = true.
Proof. apply Nat.ltb_lt. lia. Qed.

(** A run of a class is taken whole when what follows it is not of the
    class and the continuation accepts there. *)
Lemma star_class_greedy (p : ascii -> bool) (k : Re.cont) (t : string)
  (r : Re.result) :
  match t with EmptyString => true | String x _ => negb (p x) end = true ->
  forall (s : string) (n pos : nat) (c : Re.captures),
    Str.all_chars p s = true ->
    String.length s <= n ->
    k (pos + String.length s) t c = Some r ->
    Re.star_iter (Re.run (Re.Chr p)) [] k n pos (s ++ t) c = Some r.
Proof.
  intros T s. induction s as [|x s IH]; intros n pos c A L K.
  - cbn in K. rewrite Nat.add_0_r in K. cbn [append].
    destruct n as [|n]; [exact K|].
    cbn [Re.star_iter]. destruct t as [|y t]; [exact K|].
    rewrite run_class.
    apply negb_true_iff in T. rewrite T. exact K.
  - cbn in A. apply andb_prop in A. destruct A as [A1 A2].
    destruct n as [|n]; [cbn in L; lia|].
    cbn [append Re.star_iter]. rewrite run_class, A1, ltb_succ.
    rewrite clear_nil.
    rewrite (IH n (S pos) c A2); [reflexivity | cbn in L; lia |].
    cbn in K. now rewrite Nat.add_succ_r in K.
Qed.

(** The literal prefix of an alias pattern. *)
Lemma run_lits_i (p : string) :
  p <> "" ->
  forall (k : Re.cont) (pos : nat) (s : string) (c : Re.captures),
    Re.run (Re.lits_i p) k pos s c
    = if ci_prefix p s
      then k (pos + String.length p) (Str.drop (String.length p) s) c
      else None.
Proof.
  induction p as [|a p IH]; intros N k pos s c; [congruence|].
  destruct p as [|b p].
  - cbn. destruct s as [|x s]; [reflexivity|].
    destruct (Ascii.eqb _ _); cbn; [|reflexivity].
    now rewrite Nat.add_1_r.
  - change (Re.lits_i (String a (String b p)))
      with (Re.Seq (Re.lit_i a) (Re.lits_i (String b p))).
    cbn [Re.run Re.lit_i]. destruct s as [|x s]; [reflexivity|].
    change (ci_prefix (String a (String b p)) (String x s))
      with (Ascii.eqb (Str.lower x) (Str.lower a)
            && ci_prefix (String b p) s).
    destruct (Ascii.eqb (Str.lower x) (Str.lower a)); cbn [andb];
      [|reflexivity].
    rewrite IH by discriminate.
    destruct (ci_prefix _ _); [|reflexivity].
    cbn [String.length Str.drop]. f_equal. lia.
Qed.

Lemma oneline_line_rest (s : string) : oneline s = true -> line_rest s = "".
Proof.
  induction s as [|x s IH]; [reflexivity|].
  unfold oneline. cbn. intros H. apply andb_prop in H.
  destruct H as [H1 H2]. rewrite H1. now apply IH.
Qed.

(** [.*] before the end of the pattern takes the rest of the line. *)
Lemma star_dot_accept (s : string) :
  forall (n pos : nat) (c : Re.captures),
    String.length s <= n ->
    exists stop,
      Re.star_iter (Re.run Re.dot) [] Re.accept n pos s c
      = Some (stop, line_rest s, c).
Proof.
  induction s as [|x s IH]; intros n pos c L.
  - exists pos. destruct n; reflexivity.
  - destruct n as [|n]; [cbn in L; lia|].
    cbn [Re.star_iter line_rest]. unfold Re.dot at 1.
    rewrite run_class.
    destruct (negb (Str.is_line_terminator x)).
    + rewrite ltb_succ, clear_nil. fold Re.dot.
      destruct (IH n (S pos) c) as [stop E]; [cbn in L; lia|].
      exists stop. now rewrite E.
    + exists pos. reflexivity.
Qed.

(** A match of an alias pattern at one place. *)
Lemma match_at_alias (p : string) (pos : nat) (s : string) :
  p <> "" ->
  if ci_prefix p s
  then exists stop,
         Re.match_at (Patterns.alias_re p) pos s
         = Some (stop, line_rest (Str.drop (String.length p) s), [])
  else Re.match_at (Patterns.alias_re p) pos s = None.
Proof.
  intros N. unfold Re.match_at, Patterns.alias_re. cbn [Re.run].
  rewrite run_lits_i by assumption.
  destruct (ci_prefix p s); [|reflexivity].
  apply star_dot_accept. lia.
Qed.

(** The replacement of an alias pattern is [cut]. *)
Lemma search_alias (p by_ : string) :
  p <> "" ->
  forall (s : string) (pos : nat),
    match Re.search (Patterns.alias_re p) pos s with
    | Some (start, (_, rest, _)) =>
        pos <= start
        /\ Str.take (start - pos) s ++ by_ ++ rest = cut p by_ s
    | None => cut p by_ s = s
    end.
Proof.
  intros N s. induction s as [|x s IH]; intros pos.
  - pose proof (match_at_alias p pos "" N) as M.
    cbn [Re.search]. destruct p as [|a p]; [congruence|].
    cbn [ci_prefix] in M. rewrite M. reflexivity.
  - pose proof (match_at_alias p pos (String x s) N) as M.
    cbn [Re.search]. unfold cut; fold cut.
    destruct (ci_prefix p (String x s)).
    + destruct M as [stop ->]. rewrite Nat.sub_diag. split; [lia|].
      reflexivity.
    + rewrite M. specialize (IH (S pos)).
      destruct (Re.search (Patterns.alias_re p) (S pos) s)
        as [[start [[stop rest] caps]]|].
      * destruct IH as [L E]. split; [lia|].
        replace (start - pos) with (S (start - S pos)) by lia.
        cbn [Str.take append]. now rewrite E.
      * now rewrite IH.
Qed.

Lemma replace_alias (p by_ s : string) :
  p <> "" -> Re.replace (Patterns.alias_re p) by_ s = cut p by_ s.
Proof.
  intros N. unfold Re.replace.
  pose proof (search_alias p by_ N s 0) as S.
  destruct (Re.search (Patterns.alias_re p) 0 s)
    as [[start [[stop rest] caps]]|].
  - destruct S as [_ S]. now rewrite Nat.sub_0_r in S.
  - now symmetry.
Qed.

Lemma canonical_cut (t : string) :
  Resolve.canonical t
  = cut "ofs" "ofs" (cut "abfs" "abfs" (cut "adl" "adls" (cut "s3" "s3" t))).
Proof.
  unfold Resolve.canonical. cbv zeta.
  now rewrite !replace_alias by discriminate.
Qed.

(** ** The aliases of the storage types *)

Lemma cut_eq (p by_ s : string) :
  cut p by_ s
  = if ci_prefix p s
    then by_ ++ line_rest (Str.drop (String.length p) s)
    else match s with
         | EmptyString => EmptyString
         | String c s' => String c (cut p by_ s')
         end.
Proof. destruct s; reflexivity. Qed.

Lemma append_empty (s : string) : s ++ "" = s.
Proof. induction s as [|x s IH]; [reflexivity|]. cbn. now rewrite IH. Qed.

Lemma cut_hit (p by_ s : string) :
  ci_prefix p s = true ->
  oneline (Str.drop (String.length p) s) = true ->
  cut p by_ s = by_.
Proof.
  intros H O. rewrite cut_eq, H, oneline_line_rest by assumption.
  apply append_empty.
Qed.

Lemma cut_miss (p by_ : string) (c : ascii) (s : string) :
  ci_prefix p (String c s) = false ->
  cut p by_ (String c s) = String c (cut p by_ s).
Proof. intros H. now rewrite cut_eq, H. Qed.

Lemma oneline_drop (n : nat) (s : string) :
  oneline s = true -> oneline (Str.drop n s) = true.
Proof.
  revert s. induction n as [|n IH]; intros s O; [assumption|].
  destruct s as [|x s]; [reflexivity|].
  unfold oneline in O. cbn in O. apply andb_prop in O. now apply IH.
Qed.

Lemma oneline_app (a b : string) :
  oneline a = true -> oneline b = true -> oneline (a ++ b) = true.
Proof.
  unfold oneline. induction a as [|x a IH]; intros A B; [assumption|].
  cbn in *. apply andb_prop in A. destruct A as [A1 A2].
  rewrite A1. now apply IH.
Qed.

Lemma cut_oneline (p by_ s : string) :
  oneline s = true -> oneline by_ = true -> oneline (cut p by_ s) = true.
Proof.
  intros O B. induction s as [|x s IH].
  - rewrite cut_eq. destruct (ci_prefix p ""); [|reflexivity].
    apply oneline_app; [assumption|].
    rewrite oneline_line_rest by now apply oneline_drop. reflexivity.
  - rewrite cut_eq. destruct (ci_prefix p (String x s)).
    + apply oneline_app; [assumption|].
      rewrite oneline_line_rest by now apply oneline_drop. reflexivity.
    + unfold oneline in *. cbn in *. apply andb_prop in O.
      destruct O as [O1 O2]. rewrite O1. now apply IH.
Qed.

(** [.*] before the end of the input goes through a line only. *)
Lemma star_dot_eol (s : string) :
  forall (n pos : nat) (c : Re.captures) (r : Re.result),
    Re.star_iter (Re.run Re.dot) [] (Re.run Re.Eol Re.accept) n pos s c
    = Some r ->
    oneline s = true.
Proof.
  induction s as [|x s IH]; intros n pos c r H; [reflexivity|].
  destruct n as [|n]; [discriminate|].
  cbn [Re.star_iter] in H. unfold Re.dot at 1 in H.
  rewrite run_class in H. fold Re.dot in H.
  unfold oneline. cbn [Str.all_chars].
  destruct (negb (Str.is_line_terminator x)); [|discriminate].
  rewrite ltb_succ in H. cbn [andb].
  destruct (Re.star_iter _ _ _ n (S pos) s (Re.clear [] c)) eqn:E;
    [|discriminate].
  now apply IH in E.
Qed.

(** A token that an alias pattern matches as a whole. *)
Lemma matches_alias (p t : string) :
  p <> "" ->
  Re.matches (Patterns.alias_re p) t = true ->
  ci_prefix p t = true /\ oneline (Str.drop (String.length p) t) = true.
Proof.
  intros N. unfold Re.matches, Patterns.alias_re. cbn [Re.run].
  rewrite run_lits_i by assumption.
  destruct (ci_prefix p t); [|discriminate].
  destruct (Re.star_iter _ _ _ _ _ _ _) eqn:E; [|discriminate].
  intros _. split; [reflexivity|]. now apply star_dot_eol in E.
Qed.

Ltac lower_case H :=
  apply Ascii.eqb_eq in H;
  match type of H with
  | _ = Str.lower ?c =>
      let v := eval vm_compute in (Str.lower c) in
      change (Str.lower c) with v in H
  end.

Ltac pass p :=
  rewrite (cut_miss p)
    by (cbn [ci_prefix];
        repeat match goal with
               | E : Str.lower ?c = _ |- context [Str.lower ?c] => rewrite E
               end;
        reflexivity).

Lemma canonical_s3 (t : string) :
  Re.matches (Patterns.alias_re "s3") t = true -> Resolve.canonical t = "s3".
Proof.
  intros M. apply matches_alias in M; [|discriminate].
  destruct M as [P O].
  rewrite canonical_cut, (cut_hit "s3" "s3" t P O). reflexivity.
Qed.

Lemma canonical_adl (t : string) :
  Re.matches (Patterns.alias_re "adl") t = true ->
  Resolve.canonical t = "adls".
Proof.
  intros M. apply matches_alias in M; [|discriminate].
  destruct M as [P O].
  destruct t as [|c1 [|c2 [|c3 rest]]];
    cbn [ci_prefix] in P;
    try (rewrite ?andb_false_r in P; discriminate).
  apply andb_prop in P. destruct P as [E1 P].
  apply andb_prop in P. destruct P as [E2 P].
  apply andb_prop in P. destruct P as [E3 _].
  lower_case E1. lower_case E2. lower_case E3.
  cbn [String.length Str.drop] in O.
  rewrite canonical_cut. do 3 pass "s3".
  rewrite (cut_hit "adl" "adls").
  - reflexivity.
  - cbn [ci_prefix]. rewrite E1, E2, E3. reflexivity.
  - cbn [String.length Str.drop]. now apply cut_oneline.
Qed.

Lemma canonical_abfs (t : string) :
  Re.matches (Patterns.alias_re "abfs") t = true ->
  Resolve.canonical t = "abfs".
Proof.
  intros M. apply matches_alias in M; [|discriminate].
  destruct M as [P O].
  destruct t as [|c1 [|c2 [|c3 [|c4 rest]]]];
    cbn [ci_prefix] in P;
    try (rewrite ?andb_false_r in P; discriminate).
  apply andb_prop in P. destruct P as [E1 P].
  apply andb_prop in P. destruct P as [E2 P].
  apply andb_prop in P. destruct P as [E3 P].
  apply andb_prop in P. destruct P as [E4 _].
  lower_case E1. lower_case E2. lower_case E3. lower_case E4.
  cbn [String.length Str.drop] in O.
  rewrite canonical_cut. do 3 pass "s3".
  destruct (ci_prefix "s3" (String c4 rest)) eqn:H.
  - rewrite (cut_hit "s3" "s3" _ H)
      by (change (Str.drop (String.length "s3") (String c4 rest))
            with (Str.drop 1 rest); now apply oneline_drop).
    do 3 pass "adl". change (cut "adl" "adls" "s3") with "s3".
    rewrite (cut_hit "abfs" "abfs");
      [reflexivity
      | cbn [ci_prefix]; rewrite E1, E2, E3; reflexivity
      | reflexivity].
  - rewrite (cut_miss "s3" "s3" _ _ H). do 4 pass "adl".
    rewrite (cut_hit "abfs" "abfs");
      [reflexivity
      | cbn [ci_prefix]; rewrite E1, E2, E3, E4; reflexivity
      | cbn [String.length Str.drop]; now repeat apply cut_oneline].
Qed.

Lemma canonical_ofs (t : string) :
  Re.matches (Patterns.alias_re "ofs") t = true ->
  Resolve.canonical t = "ofs".
Proof.
  intros M. apply matches_alias in M; [|discriminate].
  destruct M as [P O].
  destruct t as [|c1 [|c2 [|c3 rest]]];
    cbn [ci_prefix] in P;
    try (rewrite ?andb_false_r in P; discriminate).
  apply andb_prop in P. destruct P as [E1 P].
  apply andb_prop in P. destruct P as [E2 P].
  apply andb_prop in P. destruct P as [E3 _].
  lower_case E1. lower_case E2. lower_case E3.
  cbn [String.length Str.drop] in O.
  rewrite canonical_cut. do 2 pass "s3".
  destruct (ci_prefix "s3" (String c3 rest)) eqn:H.
  - rewrite (cut_hit "s3" "s3" _ H)
      by (change (Str.drop (String.length "s3") (String c3 rest))
            with (Str.drop 1 rest); now apply oneline_drop).
    do 2 pass "adl". change (cut "adl" "adls" "s3") with "s3".
    do 2 pass "abfs". change (cut "abfs" "abfs" "s3") with "s3".
    rewrite (cut_hit "ofs" "ofs");
      [reflexivity
      | cbn [ci_prefix]; rewrite E1, E2; reflexivity
      | reflexivity].
  - rewrite (cut_miss "s3" "s3" _ _ H). do 3 pass "adl". do 3 pass "abfs".
    rewrite (cut_hit "ofs" "ofs");
      [reflexivity
      | cbn [ci_prefix]; rewrite E1, E2, E3; reflexivity
      | cbn [String.length Str.drop]; now repeat apply cut_oneline].
Qed.

(** C5: each of the four replacements of [getEntry] puts the canonical
    name, at the first place where its alias starts, in the place of the
    rest of the line.  Together they turn a token that [s3.*] matches (as
    a whole, letter case apart) into ["s3"], one that [adl.*]
    matches into ["adls"], one that [abfs.*] matches into ["abfs"] and one
    that [ofs.*] matches into ["ofs"]; the type is the canonical form of
    the token before [":/"] when the path has one, and ["hdfs"] when it
    has none and no type is given.  So ["s3a://bucket/a/b"] has the type
    ["s3"] and the folders [bucket], [a], [b]; ["adl://x/y"] has the type
    ["adls"]; ["/tmp/x"] without a type has the type ["hdfs"] and the
    folders [tmp], [x]. *)
Theorem type_aliases_are_canonical :
  (forall t,
     Resolve.canonical t
     = cut "ofs" "ofs"
         (cut "abfs" "abfs" (cut "adl" "adls" (cut "s3" "s3" t))))
  /\ (forall t, Re.matches (Patterns.alias_re "s3") t = true ->
                Resolve.canonical t = "s3")
  /\ (forall t, Re.matches (Patterns.alias_re "adl") t = true ->
                Resolve.canonical t = "adls")
  /\ (forall t, Re.matches (Patterns.alias_re "abfs") t = true ->
                Resolve.canonical t = "abfs")
  /\ (forall t, Re.matches (Patterns.alias_re "ofs") t = true ->
                Resolve.canonical t = "ofs")
  /\ (forall path hint c token,
        Resolve.typeMatch path = Some c ->
        Re.capture 1 c = Some token ->
        Resolve.entryType path hint = Resolve.canonical token)
  /\ (forall path,
        Resolve.typeMatch path = None ->
        Resolve.entryType path None = "hdfs")
  /\ Resolve.entryType "s3a://bucket/a/b" None = "s3"
  /\ Resolve.entryFolders "s3" "s3a://bucket/a/b" = ["bucket"; "a"; "b"]
  /\ Resolve.entryType "adl://x/y" None = "adls"
  /\ Resolve.typeMatch "/tmp/x" = None
  /\ Resolve.entryType "/tmp/x" None = "hdfs"
  /\ Resolve.entryFolders "hdfs" "/tmp/x" = ["tmp"; "x"].
Proof.
  split; [exact canonical_cut|].
  split; [exact canonical_s3|]. split; [exact canonical_adl|].
  split; [exact canonical_abfs|]. split; [exact canonical_ofs|].
  split.
  { intros path hint c token M C. unfold Resolve.entryType.
    rewrite M, C. unfold Resolve.or_else.
    destruct token; reflexivity. }
  split.
  { intros path M. unfold Resolve.entryType. rewrite M. reflexivity. }
  repeat split; vm_compute; reflexivity.
Qed.

(** The witness of [type_aliases_are_canonical]: the tokens ["S3N"],
    ["adl"], ["ABFSS"] and ["ofs"], and the paths of C5. *)
Lemma type_aliases_are_canonical_witness :
  (Re.matches (Patterns.alias_re "s3") "S3N" = true
   /\ Resolve.canonical "S3N" = "s3")
  /\ (Re.matches (Patterns.alias_re "adl") "adl" = true
      /\ Resolve.canonical "adl" = "adls")
  /\ (Re.matches (Patterns.alias_re "abfs") "ABFSS" = true
      /\ Resolve.canonical "ABFSS" = "abfs")
  /\ (Re.matches (Patterns.alias_re "ofs") "ofs" = true
      /\ Resolve.canonical "ofs" = "ofs")
  /\ (Resolve.typeMatch "s3a://bucket/a/b"
      = Some [(2, "/bucket/a/b"); (1, "s3a")]
      /\ Resolve.entryType "s3a://bucket/a/b" None
         = Resolve.canonical "s3a")
  /\ (Resolve.typeMatch "/tmp/x" = None
      /\ Resolve.entryType "/tmp/x" None = "hdfs").
Proof.
  destruct type_aliases_are_canonical
    as (_ & A1 & A2 & A3 & A4 & A5 & A6 & _).
  split; [split; [reflexivity | apply A1; reflexivity]|].
  split; [split; [reflexivity | apply A2; reflexivity]|].
  split; [split; [reflexivity | apply A3; reflexivity]|].
  split; [split; [reflexivity | apply A4; reflexivity]|].
  split; [split; [reflexivity |]|].
  - apply (A5 _ None [(2, "/bucket/a/b"); (1, "s3a")]); reflexivity.
  - split; [reflexivity | apply A6; reflexivity].
Defined.

(** ** Paths of Azure storage *)

(** C6: for the types ["abfs"] and ["adls"] the folders come from the
    second pattern, which captures the account before ["@"], the host
    with its domain, and the path after the host.  When the pattern
    matches with an account, the account is the first folder and the
    pieces of the path after the host follow it.  So
    ["abfs://acct@container.dfs.core.windows.net/folder/sub"] has the
    folders [acct], [folder], [sub]; neither the container nor the domain
    is a folder. *)
Theorem azure_account_is_first_folder :
  (forall path c account rest,
     Resolve.azureMatch path = Some c ->
     Re.capture 4 c = Some account -> Str.truthy account = true ->
     Re.capture 6 c = Some rest -> Str.truthy rest = true ->
     Resolve.entryFolders "abfs" path = account :: Resolve.trimSplit rest
     /\ Resolve.entryFolders "adls" path = account :: Resolve.trimSplit rest)
  /\ (let path := "abfs://acct@container.dfs.core.windows.net/folder/sub" in
      Resolve.entryType path None = "abfs"
      /\ Resolve.group 4 (Resolve.azureMatch path) = Some "acct"
      /\ Resolve.group 2 (Resolve.azureMatch path)
         = Some "/acct@container.dfs.core.windows.net"
      /\ Resolve.group 6 (Resolve.azureMatch path) = Some "/folder/sub"
      /\ Resolve.entryFolders "abfs" path = ["acct"; "folder"; "sub"])
  /\ Resolve.entryFolders "adls"
       "adl://acct@container.dfs.core.windows.net/folder/sub"
     = ["acct"; "folder"; "sub"]
  /\ Resolve.entryFolders "abfs"
       "abfs://container.dfs.core.windows.net/folder/sub"
     = ["folder"; "sub"].
Proof.
  split.
  - intros path c account rest M A TA R TR.
    unfold Resolve.entryFolders. cbn [String.eqb Ascii.eqb Bool.eqb orb].
    change (String.eqb "abfs" "abfs" || String.eqb "abfs" "adls") with true.
    change (String.eqb "adls" "abfs" || String.eqb "adls" "adls") with true.
    cbv iota. rewrite M. unfold Resolve.group. rewrite A, R, TA.
    unfold Resolve.or_else. rewrite TR. split; reflexivity.
  - cbv zeta. repeat split; vm_compute; reflexivity.
Qed.

(** The witness of [azure_account_is_first_folder]: the path of C6. *)
Lemma azure_account_is_first_folder_witness :
  let path := "abfs://acct@container.dfs.core.windows.net/folder/sub" in
  let c := [(6, "/folder/sub"); (2, "/acct@container.dfs.core.windows.net");
            (5, ".windows"); (3, "acct@"); (4, "acct"); (1, "abfs")] in
  Resolve.azureMatch path = Some c
  /\ Re.capture 4 c = Some "acct"
  /\ Re.capture 6 c = Some "/folder/sub"
  /\ Resolve.entryFolders "abfs" path
     = "acct" :: Resolve.trimSplit "/folder/sub"
  /\ Resolve.trimSplit "/folder/sub" = ["folder"; "sub"].
Proof.
  cbv zeta. split; [vm_compute; reflexivity|].
  split; [reflexivity|]. split; [reflexivity|].
  split; [|vm_compute; reflexivity].
  apply (proj1 (proj1 azure_account_is_first_folder
                  "abfs://acct@container.dfs.core.windows.net/folder/sub"
                  [(6, "/folder/sub");
                   (2, "/acct@container.dfs.core.windows.net");
                   (5, ".windows"); (3, "acct@"); (4, "acct"); (1, "abfs")]
                  "acct" "/folder/sub"
                  ltac:(vm_compute; reflexivity)
                  eq_refl eq_refl eq_refl eq_refl)).
Defined.

(** ** Paths that are a scheme and nothing else *)

Lemma type_tail (pos : nat) (c : Re.captures) :
  Re.run (Patterns.seqs
            [Re.lit ":"; Re.lit "/";
             Re.Grp 2 (Re.Seq (Re.lit "/") (Re.Star Re.dot));
             Re.Opt (Re.lit "/")])
    Re.accept pos "://" c
  = Some (S (S (S pos)), "", (2, "/") :: Re.clear [2] c).
Proof.
  cbn -[Nat.sub].
  replace (S (S (S pos)) - S (S pos)) with 1 by lia. reflexivity.
Qed.

Lemma azure_tail (pos : nat) (c : Re.captures) :
  Re.run (Patterns.seqs
            [Re.lit ":"; Re.lit "/";
             Re.Opt (Re.Grp 2
                       (Patterns.seqs
                          [Re.lit "/";
                           Re.Opt (Re.Grp 3 (Re.Seq (Re.Grp 4 (Re.Plus Re.word))
                                               (Re.lit "@")));
                           Re.Plus Re.word;
                           Re.Star (Re.Grp 5 (Re.Seq Patterns.dash_or_dot
                                                (Re.Plus Re.word)));
                           Re.lit "."; Re.Star Re.word]));
             Re.Opt (Re.Grp 6 (Re.Seq (Re.lit "/") (Re.Star Re.dot)));
             Re.Opt (Re.lit "/")])
    Re.accept pos "://" c
  = Some (S (S (S pos)), "", (6, "/") :: Re.clear [6] c).
Proof.
  cbn -[Nat.sub].
  replace (S (S (S pos)) - S (S pos)) with 1 by lia. reflexivity.
Qed.

(** A pattern that starts as the two patterns of [getEntry] do, on a
    scheme followed by ["://"]: the first group takes the scheme. *)
Lemma scheme_head (tail : Re.re) (x : ascii) (sch : string)
  (r : Re.result) :
  Patterns.not_colon_char x = true ->
  Str.all_chars Patterns.not_colon_char sch = true ->
  Re.run tail Re.accept (S (String.length sch)) "://" [(1, String x sch)]
  = Some r ->
  Re.match_at
    (Re.Seq Re.Bol (Re.Seq (Re.Grp 1 (Re.Plus Patterns.not_colon)) tail))
    0 (String x (sch ++ "://"))
  = Some r.
Proof.
  intros X A T. unfold Re.match_at.
  change (Re.run
            (Re.Seq Re.Bol
               (Re.Seq (Re.Grp 1 (Re.Plus Patterns.not_colon)) tail))
            Re.accept 0 (String x (sch ++ "://")) [])
    with (if Patterns.not_colon_char x
          then Re.star_iter (Re.run (Re.Chr Patterns.not_colon_char)) []
                 (fun pos' s' c' =>
                    Re.run tail Re.accept pos' s'
                      ((1, Str.take (pos' - 0) (String x (sch ++ "://")))
                       :: Re.clear [1] c'))
                 (String.length (sch ++ "://")) 1 (sch ++ "://") []
          else None).
  rewrite X.
  apply star_class_greedy;
    [reflexivity | assumption | rewrite length_app_string; lia |].
  rewrite Nat.sub_0_r. cbn [Nat.add Str.take Re.clear List.filter].
  now rewrite take_app_length.
Qed.

Lemma search_at_once (r : Re.re) (s : string) (res : Re.result) :
  Re.match_at r 0 s = Some res -> Re.search r 0 s = Some (0, res).
Proof. intros M. destruct s; cbn [Re.search]; now rewrite M. Qed.

Lemma typeMatch_scheme_only (scheme : string) :
  scheme <> "" ->
  Str.all_chars Patterns.not_colon_char scheme = true ->
  Resolve.typeMatch (scheme ++ "://") = Some [(2, "/"); (1, scheme)].
Proof.
  intros N A. destruct scheme as [|x sch]; [congruence|].
  cbn in A. apply andb_prop in A. destruct A as [X A].
  unfold Resolve.typeMatch, Re.exec.
  rewrite (search_at_once Patterns.type_re (String x sch ++ "://")
             (S (S (S (S (String.length sch)))), "",
              [(2, "/"); (1, String x sch)])); [reflexivity|].
  apply scheme_head; [assumption | assumption |].
  rewrite type_tail. reflexivity.
Qed.

Lemma azureMatch_scheme_only (scheme : string) :
  scheme <> "" ->
  Str.all_chars Patterns.not_colon_char scheme = true ->
  Resolve.azureMatch (scheme ++ "://") = Some [(6, "/"); (1, scheme)].
Proof.
  intros N A. destruct scheme as [|x sch]; [congruence|].
  cbn in A. apply andb_prop in A. destruct A as [X A].
  unfold Resolve.azureMatch, Re.exec.
  rewrite (search_at_once Patterns.azure_re (String x sch ++ "://")
             (S (S (S (S (String.length sch)))), "",
              [(6, "/"); (1, String x sch)])); [reflexivity|].
  apply scheme_head; [assumption | assumption |].
  rewrite azure_tail. reflexivity.
Qed.

(** The folders of a path that is a scheme and nothing else: one folder,
    the empty name. *)
Lemma entryFolders_scheme_only (type scheme : string) :
  scheme <> "" ->
  Str.all_chars Patterns.not_colon_char scheme = true ->
  Resolve.entryFolders type (scheme ++ "://") = [""].
Proof.
  intros N A. unfold Resolve.entryFolders.
  rewrite typeMatch_scheme_only, azureMatch_scheme_only by assumption.
  destruct (String.eqb type "abfs" || String.eqb type "adls"); reflexivity.
Qed.

Section NoSuchName.

Variable backend : Backend.
Variable localeCompare : string -> string -> Z.
Variable nextName : string.

(** The backend lists no file called [nextName]. *)
Hypothesis never_listed :
  forall log req data f,
    backend log req = Success data -> In f (files data) ->
    name f <> nextName.

Lemma children_of_unnamed (self : Entry) (log : Log) (req : Request)
  (data : Listing) :
  backend log req = Success data ->
  forall c, In c (children_of self data) -> named nextName c = false.
Proof.
  intros B c I. unfold children_of in I. apply in_map_iff in I.
  destruct I as (f & <- & I). apply filter_In in I. destruct I as [I _].
  unfold named. cbn. apply String.eqb_neq. now apply (never_listed log req data).
Qed.

Lemma filter_unnamed (es : list Entry) :
  (forall c, In c es -> named nextName c = false) ->
  List.filter (named nextName) es = [].
Proof.
  induction es as [|e es IH]; intros H; [reflexivity|].
  cbn. rewrite (H e) by now left. apply IH. intros c I. apply H. now right.
Qed.

(** The search for a name no child has and no page brings gives up, at an
    entry with no request in flight. *)
Lemma findNextAndLoadDeep_gives_up (gas : nat) :
  forall (loadedPages : nat) (self : Entry) (log : Log),
    loadedPages <= 50 -> 51 <= gas + loadedPages ->
    loadingMore self = false ->
    (forall c, In c (entries self) -> named nextName c = false) ->
    exists self' new,
      findNextAndLoadDeep backend localeCompare gas nextName loadedPages
        self log = Some (self', (new ++ log)%list, GiveUp)
      /\ definition self' = definition self
      /\ parent self' = parent self.
Proof.
  induction gas as [|gas IH]; intros n self log Hn Hg LM U; [lia|].
  rewrite findNextAndLoadDeep_round, (filter_unnamed (entries self) U).
  destruct (_ && _ && (n <? 50)) eqn:G;
    [|exists self, []; auto].
  apply andb_prop in G. destruct G as [G1 G].
  apply andb_prop in G1. destruct G1 as [_ G1].
  apply Nat.ltb_lt in G.
  pose proof (fetchMore_cases backend self log) as C.
  destruct (fetchMore backend self log) as [[self1 log1] sg].
  destruct sg.
  - destruct C as (_ & _ & -> & data & B & E & _ & LM1 & _ & _ & _ & _
                   & _ & _ & _ & D & PA).
    destruct (IH (S n) self1 (moreRequest self :: log))
      as (self' & new & R & D' & PA'); [lia | lia | assumption | |].
    + intros c I. rewrite E in I. apply in_app_or in I.
      destruct I as [I | I]; [now apply U|].
      now apply (children_of_unnamed self1 log (moreRequest self) data).
    + exists self', (new ++ [moreRequest self])%list.
      rewrite <- app_assoc. cbn [app]. rewrite R, D', PA'. auto.
  - destruct C as (_ & _ & -> & _ & _ & _ & _ & _ & _ & D & PA).
    exists self1, [moreRequest self]. auto.
  - destruct C as (C & _). rewrite G1, LM in C. discriminate.
Qed.

End NoSuchName.

Lemma replace_of_empty (replaceRoot : string -> option (string -> string))
  (p : string) (replace : string -> string) :
  (forall p replace s,
     replaceRoot p = Some replace ->
     exists before gone after,
       s = before ++ gone ++ after /\ replace s = before ++ after) ->
  replaceRoot p = Some replace ->
  replace "" = "".
Proof.
  intros H R. destruct (H p replace "" R) as (b & g & a & E1 & E2).
  destruct b; [|discriminate]. destruct g; [|discriminate].
  cbn in E1. subst a. exact E2.
Qed.

(** The walk along the one folder without name, from a new root whose
    [rootPath] is empty or compiles, at a backend that lists no file
    without name: the first page is asked for and the root is the
    answer. *)
Lemma loadDeep_empty_name (backend : Backend)
  (localeCompare : string -> string -> Z)
  (replaceRoot : string -> option (string -> string))
  (root_path : string) :
  root_path = "" \/ compiles replaceRoot root_path = true ->
  (forall p replace s,
     replaceRoot p = Some replace ->
     exists before gone after,
       s = before ++ gone ++ after /\ replace s = before ++ after) ->
  (forall log req data f,
     backend log req = Success data -> In f (files data) ->
     name f <> "") ->
  let root0 := construct (mkDefinition root_path "dir") None root_path in
  exists root new,
    loadDeep backend localeCompare replaceRoot 2 root0 [""] []
    = Some (root, (new ++ [pageRequest true root0])%list, Called [] root)
    /\ definition root = mkDefinition root_path "dir"
    /\ parent root = None.
Proof.
  intros Hr Hdel Hnames root0. cbn [loadDeep].
  assert (shift_folders replaceRoot root0 "" [] = Some ("", [])) as ->.
  { unfold shift_folders. change (rootPath root0) with root_path.
    destruct (Str.truthy root_path) eqn:T; [|reflexivity].
    destruct Hr as [-> | Hr]; [discriminate|].
    unfold compiles in Hr.
    destruct (replaceRoot root_path) as [replace|] eqn:R; [|discriminate].
    change (Str.join [""]) with "".
    now rewrite (replace_of_empty replaceRoot root_path replace Hdel R). }
  unfold loadAndFind. change (loaded root0) with false. cbn [negb].
  pose proof (loadEntries_cases backend root0 []) as C.
  destruct (loadEntries backend root0 []) as [[self1 log1] sg].
  assert (go : log1 = [pageRequest true root0] ->
               loadingMore self1 = false ->
               (forall c, In c (entries self1) -> named "" c = false) ->
               definition self1 = definition root0 ->
               parent self1 = parent root0 ->
               exists root new,
                 match findNextAndLoadDeep backend localeCompare 51 "" 0
                         self1 log1 with
                 | Some (self, log, Found child) =>
                     match loadDeep backend localeCompare replaceRoot 1
                             child [] log with
                     | Some (child', log', answer) =>
                         Some (set_entries
                                 (with_child "" child' (entries self)) self,
                               log', push "" answer)
                     | None => None
                     end
                 | Some (self, log, GiveUp) =>
                     Some (self, log, Called [] self)
                 | Some (self, log, Stall) => Some (self, log, Never)
                 | None => None
                 end
                 = Some (root, (new ++ [pageRequest true root0])%list,
                         Called [] root)
                 /\ definition root = mkDefinition root_path "dir"
                 /\ parent root = None).
  { intros -> LM U D PA.
    destruct (findNextAndLoadDeep_gives_up backend localeCompare ""
                Hnames 51 0 self1 [pageRequest true root0])
      as (self' & new & R & D' & PA'); [lia | lia | assumption | assumption |].
    rewrite R. exists self', new. rewrite D', PA', D, PA. auto. }
  destruct sg.
  - destruct C as (_ & L & data & B & E & _ & _ & LM & _ & _ & _ & _ & _
                   & _ & D & PA).
    apply go; auto. intros c I. rewrite E in I.
    now apply (children_of_unnamed backend "" Hnames self1 []
                 (pageRequest true root0) data).
  - destruct C as (_ & L & text & _ & E & _ & LM & _ & _ & _ & _ & D & PA).
    apply go; auto. intros c I. rewrite E in I. contradiction.
  - destruct C as (C & _). discriminate.
Qed.

(** C3, as stated, fails: the folders of ["s3a://"] are not the empty
    list but the list of one empty name, and the walk does not end in its
    first test: it asks for the first page of the root, which the walk
    along no folder leaves unloaded.  Nor is the root always the answer:
    for ["gs://"] and a connector of type [gs], which has no entry in
    [TYPE_SPECIFICS], [getEntry] raises TypeError, and for a connector
    whose root path has a parenthesis that is not closed it raises
    SyntaxError, in both cases before any request. *)
Lemma scheme_only_path_counterexample :
  Resolve.entryFolders (Resolve.entryType "s3a://" None) "s3a://" = [""]
  /\ Resolve.entryFolders (Resolve.entryType "s3a://" None) "s3a://" <> []
  /\ (exists root log,
        getEntry (fun _ => Fixtures.listingBackend ["a"; "b"])
          Fixtures.codeUnitCompare Fixtures.hostRegExp
          (Fixtures.oneConnector "s3" "") "s3a://" None
        = Some (Resolved root, Some root, log)
        /\ log = [pageRequest true (Fixtures.root "")]
        /\ loaded root = true
        /\ childNames root = ["a"; "b"])
  /\ loadDeep (Fixtures.listingBackend ["a"; "b"]) Fixtures.codeUnitCompare
       Fixtures.hostRegExp 1 (Fixtures.root "") [] []
     = Some (Fixtures.root "", [], Called [] (Fixtures.root ""))
  /\ (exists root,
        getEntry (fun _ => Fixtures.listingBackend ["a"; "b"])
          Fixtures.codeUnitCompare Fixtures.hostRegExp
          (Fixtures.oneConnector "gs" "") "gs://" None
        = Some (Threw TypeError, Some root, []))
  /\ getEntry (fun _ => Fixtures.listingBackend ["a"; "b"])
       Fixtures.codeUnitCompare Fixtures.hostRegExp
       (Fixtures.oneConnector "s3" "/tmp/a(b") "s3a://" None
     = Some (Threw SyntaxError, Some (Fixtures.root "/tmp/a(b"), []).
Proof.
  split; [vm_compute; reflexivity|].
  split; [vm_compute; discriminate|].
  split; [|split; [reflexivity|split]].
  - eexists. eexists. split; [vm_compute; reflexivity|].
    repeat split; reflexivity.
  - eexists. vm_compute. reflexivity.
  - vm_compute. reflexivity.
Qed.

(** C3, amended: a path that is a scheme and ["://"] has one folder, the
    empty name.  When the type of the path has an entry in
    [TYPE_SPECIFICS] and the root path of its connector is empty or
    compiles as a pattern, the walk takes the empty name as the name to
    find: it asks for the first page of the root, and as the backend
    lists no file of the empty name it calls back with the root. *)
Theorem scheme_only_path_loads_root
  (apiHelper : string -> Backend) (localeCompare : string -> string -> Z)
  (replaceRoot : string -> option (string -> string))
  (rootFilePath : string -> option string)
  (scheme : string) (hint : option string) :
  scheme <> "" ->
  Str.all_chars Patterns.not_colon_char scheme = true ->
  let path := scheme ++ "://" in
  Resolve.entryFolders (Resolve.entryType path hint) path = [""]
  /\ (forall root_path specifics,
        rootFilePath (Resolve.entryType path hint) = Some root_path ->
        TYPE_SPECIFICS (Resolve.entryType path hint) = Some specifics ->
        root_path = "" \/ compiles replaceRoot root_path = true ->
        (forall p replace s,
           replaceRoot p = Some replace ->
           exists before gone after,
             s = before ++ gone ++ after /\ replace s = before ++ after) ->
        (forall log req data f,
           apiHelper (apiHelperFetchFunction specifics) log req
           = Success data ->
           In f (files data) -> name f <> "") ->
        exists root new,
          getEntry apiHelper localeCompare replaceRoot rootFilePath path
            hint
          = Some (Resolved root, Some root,
                  (new ++ [pageRequest true
                             (construct (mkDefinition root_path "dir")
                                None root_path)])%list)
          /\ definition root = mkDefinition root_path "dir"
          /\ parent root = None).
Proof.
  intros N A path. subst path.
  split; [now apply entryFolders_scheme_only|].
  intros root_path specifics RP TS Hr Hdel Hnames.
  unfold getEntry. rewrite RP, TS, entryFolders_scheme_only by assumption.
  change (S (weight [""])) with 2.
  destruct (loadDeep_empty_name
              (apiHelper (apiHelperFetchFunction specifics)) localeCompare
              replaceRoot root_path Hr Hdel Hnames)
    as (root & new & R & D & PA).
  cbv zeta. rewrite R. exists root, new. auto.
Qed.

Lemma listingBackend_names (names : list string) (log : Log) (req : Request)
  (data : Listing) (f : FileDefinition) :
  Fixtures.listingBackend names log req = Success data ->
  In f (files data) -> In (name f) names.
Proof.
  unfold Fixtures.listingBackend. intros B I.
  assert (E := f_equal (fun r => match r with
                                 | Success x => files x
                                 | Failure _ => []
                                 end) B).
  cbv beta iota in E. cbn [files] in E. rewrite <- E in I.
  apply in_map_iff in I. destruct I as (n & <- & I). cbn [name].
  set (k := (Z.to_nat (req_page req) - 1) * req_pageSize req) in *.
  rewrite <- (firstn_skipn k names). apply in_or_app. right.
  rewrite <- (firstn_skipn (req_pageSize req) (skipn k names)).
  apply in_or_app. now left.
Qed.

(** The witness of [scheme_only_path_loads_root]: the path ["s3a://"]. *)
Lemma scheme_only_path_loads_root_witness :
  "s3a" <> ""
  /\ Str.all_chars Patterns.not_colon_char "s3a" = true
  /\ Resolve.entryFolders (Resolve.entryType "s3a://" None) "s3a://" = [""]
  /\ Fixtures.oneConnector "s3" "" (Resolve.entryType "s3a://" None)
     = Some ""
  /\ TYPE_SPECIFICS (Resolve.entryType "s3a://" None)
     = Some (mkSpecifics "fetchS3Path" "assist.dblClickS3Item")
  /\ exists root new,
       getEntry (fun _ => Fixtures.listingBackend ["a"; "b"])
         Fixtures.codeUnitCompare Fixtures.hostRegExp
         (Fixtures.oneConnector "s3" "") "s3a://" None
       = Some (Resolved root, Some root,
               (new ++ [pageRequest true
                          (construct (mkDefinition "" "dir") None "")])%list)
       /\ definition root = mkDefinition "" "dir"
       /\ parent root = None.
Proof.
  assert (N : "s3a" <> "") by discriminate.
  assert (A : Str.all_chars Patterns.not_colon_char "s3a" = true)
    by reflexivity.
  split; [exact N|]. split; [exact A|].
  split.
  - exact (proj1 (scheme_only_path_loads_root
                    (fun _ => Fixtures.listingBackend ["a"; "b"])
                    Fixtures.codeUnitCompare Fixtures.hostRegExp
                    (Fixtures.oneConnector "s3" "") "s3a" None N A)).
  - split; [reflexivity|]. split; [vm_compute; reflexivity|].
    apply (proj2 (scheme_only_path_loads_root
                    (fun _ => Fixtures.listingBackend ["a"; "b"])
                    Fixtures.codeUnitCompare Fixtures.hostRegExp
                    (Fixtures.oneConnector "s3" "") "s3a" None N A)
             "" (mkSpecifics "fetchS3Path" "assist.dblClickS3Item")).
    + reflexivity.
    + vm_compute. reflexivity.
    + now left.
    + exact hostRegExp_deletes.
    + intros log req data f B I E.
      apply (listingBackend_names _ _ _ _ _ B) in I. rewrite E in I.
      destruct I as [I | [I | []]]; discriminate.
Defined.

(** The witness of [search_sends_at_most_fifty_fetchMore]: the search at
    a loaded entry, and the rounds from the counter 49 on. *)
Lemma search_sends_at_most_fifty_fetchMore_witness :
  let self := fst (runOps Fixtures.endless [DoLoadEntries]
                     (Fixtures.root "", [])) in
  (loaded self = true
   /\ exists self' new v,
        loadAndFind Fixtures.endless Fixtures.codeUnitCompare "x" self []
        = Some (self', (new ++ [])%list, v)
        /\ List.length (List.filter is_fetchMore new) <= 50
        /\ List.length new <= 51
        /\ (loaded self = true -> List.length new <= 50))
  /\ (49 <= 50
      /\ exists self' new v,
           findNextAndLoadDeep Fixtures.endless Fixtures.codeUnitCompare 51
             "x" 49 self [] = Some (self', (new ++ [])%list, v)
           /\ List.length new <= 50 - 49).
Proof.
  cbv zeta. split.
  - split; [reflexivity|].
    exact (proj1 (search_sends_at_most_fifty_fetchMore Fixtures.endless
                    Fixtures.codeUnitCompare "x" _ [])).
  - split; [lia|].
    apply (proj2 (search_sends_at_most_fifty_fetchMore Fixtures.endless
                    Fixtures.codeUnitCompare "x" _ [])).
    lia.
Defined.

(** ** Slashes at the edges of a path *)

Lemma slash_eqb_sym (x : ascii) :
  Ascii.eqb "/" x = Ascii.eqb x Str.slash.
Proof. unfold Str.slash. apply Ascii.eqb_sym. Qed.

(** A pattern that starts with [^] matches at the start only. *)
Lemma search_anchored_later (r : Re.re) (s : string) :
  forall pos, Re.search (Re.Seq Re.Bol r) (S pos) s = None.
Proof.
  induction s as [|x s IH]; intros pos; [reflexivity|].
  cbn [Re.search]. change (Re.match_at (Re.Seq Re.Bol r) (S pos) (String x s))
    with (@None Re.result). apply IH.
Qed.

Lemma search_anchored (r : Re.re) (s : string) :
  Re.search (Re.Seq Re.Bol r) 0 s
  = match Re.match_at (Re.Seq Re.Bol r) 0 s with
    | Some res => Some (0, res)
    | None => None
    end.
Proof.
  destruct s as [|x s]; cbn [Re.search];
    destruct (Re.match_at _ 0 _); try reflexivity.
  apply search_anchored_later.
Qed.

(** The pattern  \/ $  matches at the last character only, a ["/"]. *)
Lemma match_at_trailing (pos : nat) (s : string) :
  Re.match_at Patterns.trailing_slash_re pos s
  = match s with
    | String x EmptyString =>
        if Ascii.eqb x Str.slash then Some (S pos, "", []) else None
    | _ => None
    end.
Proof.
  unfold Re.match_at, Patterns.trailing_slash_re, Re.lit.
  destruct s as [|x [|y s]]; cbn [Re.run Re.accept];
    rewrite ?slash_eqb_sym; try reflexivity;
    now destruct (Ascii.eqb x Str.slash).
Qed.

Lemma test_trailing_slash (s : string) :
  Re.test Patterns.trailing_slash_re s = ends_with_slash s.
Proof.
  unfold Re.test. generalize 0.
  induction s as [|x s IH]; intros pos; [reflexivity|].
  cbn [Re.search]. rewrite match_at_trailing.
  destruct s as [|y s].
  - cbn. destruct (Ascii.eqb x Str.slash); reflexivity.
  - rewrite IH. reflexivity.
Qed.

Lemma ends_with_slash_app (s : string) :
  ends_with_slash s = true <-> exists pre, s = pre ++ "/".
Proof.
  split.
  - induction s as [|x s IH]; [discriminate|].
    destruct s as [|y s].
    + cbn. intros E. apply Ascii.eqb_eq in E. subst. now exists "".
    + intros E. destruct (IH E) as [pre ->]. now exists (String x pre).
  - intros [pre ->]. induction pre as [|x pre IH]; [reflexivity|].
    cbn [append]. destruct (pre ++ "/") eqn:E; [destruct pre; discriminate|].
    exact IH.
Qed.

(** The pattern of the slash trimming away from the start of the path. *)
Lemma match_at_edge_later (pos : nat) (s : string) :
  Re.match_at Patterns.edge_slash_re (S pos) s
  = match s with
    | String x EmptyString =>
        if Ascii.eqb x Str.slash then Some (S (S pos), "", []) else None
    | _ => None
    end.
Proof.
  unfold Re.match_at, Patterns.edge_slash_re, Re.lit.
  destruct s as [|x [|y s]]; cbn [Re.run Re.accept Nat.eqb];
    rewrite ?slash_eqb_sym; try reflexivity;
    now destruct (Ascii.eqb x Str.slash).
Qed.

Lemma search_edge_later (s : string) :
  forall pos,
    match Re.search Patterns.edge_slash_re (S pos) s with
    | Some (start, (stop, rest, _)) =>
        S pos <= start /\ stop = S start /\ rest = ""
        /\ Str.take (start - S pos) s = drop_trailing_slash s
    | None => drop_trailing_slash s = s
    end.
Proof.
  induction s as [|x s IH]; intros pos; [reflexivity|].
  cbn [Re.search]. rewrite match_at_edge_later.
  destruct s as [|y s].
  - cbn. destruct (Ascii.eqb x Str.slash); cbn.
    + rewrite Nat.sub_diag. repeat split; auto.
    + reflexivity.
  - specialize (IH (S pos)).
    destruct (Re.search Patterns.edge_slash_re (S (S pos)) (String y s))
      as [[start [[stop rest] caps]]|].
    + destruct IH as (L & E1 & E2 & E3). repeat split; auto; [lia|].
      replace (start - S pos) with (S (start - S (S pos))) by lia.
      cbn [Str.take]. rewrite E3. reflexivity.
    + change (drop_trailing_slash (String x (String y s)))
        with (String x (drop_trailing_slash (String y s))).
      now rewrite IH.
Qed.

Lemma replace_all_from_later (n pos : nat) (s : string) :
  Re.replace_all_from (S n) Patterns.edge_slash_re "" (S pos) s
  = drop_trailing_slash s.
Proof.
  cbn [Re.replace_all_from].
  pose proof (search_edge_later s pos) as Hs.
  destruct (Re.search Patterns.edge_slash_re (S pos) s)
    as [[start [[stop rest] caps]]|]; [|now symmetry].
  destruct Hs as (L & -> & -> & E).
  assert ((S start =? start) = false) as -> by (apply Nat.eqb_neq; lia).
  rewrite E. cbn [append].
  assert (Re.replace_all_from n Patterns.edge_slash_re "" (S start) "" = "")
    as -> by (destruct n; reflexivity).
  apply append_empty.
Qed.

(** The slash trimming of [getEntry] takes one ["/"] off the start and,
    from what is left, one ["/"] off the end. *)
Lemma replace_all_edge (s : string) :
  Re.replace_all Patterns.edge_slash_re "" s = trim_edges s.
Proof.
  unfold Re.replace_all. destruct s as [|x s]; [reflexivity|].
  cbn [String.length]. unfold trim_edges.
  destruct (Ascii.eqb x Str.slash) eqn:E.
  - apply Ascii.eqb_eq in E. subst x.
    change (Re.replace_all_from (S (S (String.length s)))
              Patterns.edge_slash_re "" 0 (String Str.slash s))
      with (Re.replace_all_from (S (String.length s))
              Patterns.edge_slash_re "" 1 s).
    apply replace_all_from_later.
  - cbn [Re.replace_all_from Re.search].
    assert (Re.match_at Patterns.edge_slash_re 0 (String x s) = None) as ->.
    { unfold Re.match_at, Patterns.edge_slash_re, Re.lit.
      destruct s; cbn [Re.run Re.accept Nat.eqb];
        rewrite ?slash_eqb_sym, E; reflexivity. }
    pose proof (search_edge_later s 0) as Hs.
    destruct (Re.search Patterns.edge_slash_re 1 s)
      as [[start [[stop rest] caps]]|].
    + destruct Hs as (L & -> & -> & T).
      assert ((S start =? start) = false) as -> by (apply Nat.eqb_neq; lia).
      rewrite Nat.sub_0_r.
      replace start with (S (start - 1)) at 1 by lia.
      cbn [Str.take append]. rewrite T.
      change (Re.search Patterns.edge_slash_re (S start) "")
        with (@None (nat * Re.result)).
      cbv iota. rewrite append_empty.
      destruct s as [|y s]; [|reflexivity].
      cbn in T |- *. rewrite E. cbn in L. 
      destruct start as [|[|k]]; cbn in *; try lia; congruence.
    + destruct s as [|y s]; [cbn; now rewrite E|].
      change (drop_trailing_slash (String x (String y s)))
        with (String x (drop_trailing_slash (String y s))).
      now rewrite Hs.
Qed.

(** ** [split] and [join] *)

Lemma append_assoc (a b c : string) : (a ++ b) ++ c = a ++ (b ++ c).
Proof. induction a as [|x a IH]; [reflexivity|]. cbn. now rewrite IH. Qed.

Lemma join_split_aux (s acc : string) :
  Str.join (Str.split_aux acc s) = acc ++ s.
Proof.
  revert acc. induction s as [|c s IH]; intros acc; cbn [Str.split_aux].
  - cbn. now rewrite append_empty.
  - destruct (Ascii.eqb c Str.slash) eqn:E.
    + apply Ascii.eqb_eq in E. subst c.
      rewrite join_cons by apply split_aux_not_nil. now rewrite IH.
    + rewrite IH, append_assoc. reflexivity.
Qed.

(** Joining the pieces of a string gives the string back. *)
Lemma join_split (s : string) : Str.join (Str.split s) = s.
Proof. apply join_split_aux. Qed.

Lemma split_aux_app (p s acc : string) :
  slashless p = true ->
  Str.split_aux acc (p ++ s) = Str.split_aux (acc ++ p) s.
Proof.
  revert acc. induction p as [|c p IH]; intros acc H.
  - now rewrite append_empty.
  - unfold slashless in H. cbn in H. apply andb_prop in H.
    destruct H as [H1 H2]. apply negb_true_iff in H1.
    cbn [append Str.split_aux]. rewrite H1, IH by assumption.
    now rewrite append_assoc.
Qed.

(** Splitting the joined pieces gives the pieces back, when there is one
    at least and none holds a ["/"]. *)
Lemma split_join (l : list string) :
  l <> [] -> forallb slashless l = true -> Str.split (Str.join l) = l.
Proof.
  induction l as [|p l IH]; intros N H; [congruence|].
  cbn in H. apply andb_prop in H. destruct H as [H1 H2].
  unfold Str.split. destruct l as [|q l].
  - cbn [Str.join]. rewrite <- (append_empty p) at 1.
    now rewrite split_aux_app.
  - rewrite join_cons by discriminate.
    rewrite split_aux_app by assumption.
    cbn [append Str.split_aux]. rewrite Ascii.eqb_refl. f_equal.
    apply IH; [discriminate | assumption].
Qed.

Lemma split_aux_slashless (s acc : string) :
  slashless acc = true ->
  forallb slashless (Str.split_aux acc s) = true.
Proof.
  revert acc. induction s as [|c s IH]; intros acc H; cbn [Str.split_aux].
  - cbn. now rewrite H.
  - destruct (Ascii.eqb c Str.slash) eqn:E.
    + cbn [forallb]. rewrite H. now apply IH.
    + apply IH. unfold slashless in *.
      clear IH. induction acc as [|a acc IHa].
      * cbn. now rewrite E.
      * cbn in *. apply andb_prop in H. destruct H as [H1 H2].
        rewrite H1. now apply IHa.
Qed.

(** No piece of a split holds a ["/"]. *)
Lemma split_slashless (s : string) :
  forallb slashless (Str.split s) = true.
Proof. now apply split_aux_slashless. Qed.

(** ** Lines *)

Lemma line_split (s : string) : line_head s ++ line_rest s = s.
Proof.
  induction s as [|x s IH]; [reflexivity|].
  cbn. destruct (negb (Str.is_line_terminator x)); [|reflexivity].
  cbn. now rewrite IH.
Qed.

Lemma line_head_oneline (s : string) : oneline (line_head s) = true.
Proof.
  unfold oneline. induction s as [|x s IH]; [reflexivity|].
  cbn. destruct (negb (Str.is_line_terminator x)) eqn:E; [|reflexivity].
  cbn. now rewrite E.
Qed.

Lemma line_rest_starts (s : string) :
  match line_rest s with
  | EmptyString => true
  | String x _ => negb (negb (Str.is_line_terminator x))
  end = true.
Proof.
  induction s as [|x s IH]; [reflexivity|].
  cbn. destruct (negb (Str.is_line_terminator x)) eqn:E; [exact IH|].
  now rewrite E.
Qed.

Lemma line_head_length (s : string) :
  String.length (line_head s) <= String.length s.
Proof.
  induction s as [|x s IH]; [reflexivity|].
  cbn. destruct (negb _); cbn; lia.
Qed.

Lemma oneline_line_head (s : string) : oneline s = true -> line_head s = s.
Proof.
  intros O. rewrite <- (line_split s) at 2.
  rewrite (oneline_line_rest s O). now rewrite append_empty.
Qed.

(** ** The type pattern on any path *)

Lemma run_lit (a : ascii) (k : Re.cont) (pos : nat) (x : ascii) (s : string)
  (c : Re.captures) :
  Re.run (Re.lit a) k pos (String x s) c
  = if Ascii.eqb a x then k (S pos) s c else None.
Proof. reflexivity. Qed.

Lemma terminator_not_slash (x : ascii) :
  Str.is_line_terminator x = true -> Ascii.eqb "/" x = false.
Proof.
  intros T. destruct (Ascii.eqb "/" x) eqn:E; [|reflexivity].
  apply Ascii.eqb_eq in E. subst x. discriminate.
Qed.

Lemma take_line_head (s : string) :
  Str.take (String.length (line_head s)) s = line_head s.
Proof.
  rewrite <- (line_split s) at 2. apply take_app_length.
Qed.

(** After the scheme: [":/"], then the second group takes ["/"] and the
    rest of the line. *)
Lemma type_tail_line (rest : string) (pos : nat) (c : Re.captures) :
  exists stop,
    Re.run (Patterns.seqs
              [Re.lit ":"; Re.lit "/";
               Re.Grp 2 (Re.Seq (Re.lit "/") (Re.Star Re.dot));
               Re.Opt (Re.lit "/")])
      Re.accept pos (":" ++ "/" ++ "/" ++ rest) c
    = Some (stop, line_rest rest,
            (2, String "/" (line_head rest)) :: Re.clear [2] c).
Proof.
  exists (S (S (S pos)) + String.length (line_head rest)).
  change (Re.run _ Re.accept pos (":" ++ "/" ++ "/" ++ rest) c)
    with (Re.star_iter
            (Re.run (Re.Chr (fun x => negb (Str.is_line_terminator x)))) []
            (fun pos' s' c' =>
               Re.run (Re.Opt (Re.lit "/")) Re.accept pos' s'
                 ((2, Str.take (pos' - S (S pos)) (String "/" rest))
                  :: Re.clear [2] c'))
            (String.length rest) (S (S (S pos))) rest c).
  rewrite <- (line_split rest) at 2.
  apply star_class_greedy.
  - apply line_rest_starts.
  - apply line_head_oneline.
  - apply line_head_length.
  - replace (S (S (S pos)) + String.length (line_head rest) - S (S pos))
      with (S (String.length (line_head rest))) by lia.
    cbn [Str.take]. rewrite take_line_head.
    pose proof (line_rest_starts rest) as T.
    unfold Re.Opt. cbn [Re.run].
    destruct (line_rest rest) as [|x u]; [reflexivity|].
    rewrite run_lit, terminator_not_slash; [reflexivity|].
    now apply negb_true_iff, negb_false_iff in T.
Qed.

Lemma scheme_head_any (tail : Re.re) (x : ascii) (sch u : string)
  (r : Re.result) :
  Patterns.not_colon_char x = true ->
  Str.all_chars Patterns.not_colon_char sch = true ->
  Re.run tail Re.accept (S (String.length sch)) (String ":" u)
    [(1, String x sch)]
  = Some r ->
  Re.match_at
    (Re.Seq Re.Bol (Re.Seq (Re.Grp 1 (Re.Plus Patterns.not_colon)) tail))
    0 (String x (sch ++ String ":" u))
  = Some r.
Proof.
  intros X A T. unfold Re.match_at.
  change (Re.run
            (Re.Seq Re.Bol
               (Re.Seq (Re.Grp 1 (Re.Plus Patterns.not_colon)) tail))
            Re.accept 0 (String x (sch ++ String ":" u)) [])
    with (if Patterns.not_colon_char x
          then Re.star_iter (Re.run (Re.Chr Patterns.not_colon_char)) []
                 (fun pos' s' c' =>
                    Re.run tail Re.accept pos' s'
                      ((1, Str.take (pos' - 0)
                             (String x (sch ++ String ":" u)))
                       :: Re.clear [1] c'))
                 (String.length (sch ++ String ":" u)) 1
                 (sch ++ String ":" u) []
          else None).
  rewrite X.
  apply star_class_greedy;
    [reflexivity | assumption | rewrite length_app_string; lia |].
  rewrite Nat.sub_0_r. cbn [Nat.add Str.take Re.clear List.filter].
  now rewrite take_app_length.
Qed.

(** The type pattern on a scheme, ["://"] and anything: the scheme and
    the first line of what follows [":/"]. *)
Lemma typeMatch_scheme (scheme rest : string) :
  scheme <> "" ->
  Str.all_chars Patterns.not_colon_char scheme = true ->
  Resolve.typeMatch (scheme ++ "://" ++ rest)
  = Some [(2, String "/" (line_head rest)); (1, scheme)].
Proof.
  intros N A. destruct scheme as [|x sch]; [congruence|].
  cbn in A. apply andb_prop in A. destruct A as [X A].
  destruct (type_tail_line rest (S (String.length sch)) [(1, String x sch)])
    as [stop T].
  unfold Resolve.typeMatch, Re.exec.
  rewrite (search_at_once Patterns.type_re
             (String x sch ++ "://" ++ rest)
             (stop, line_rest rest,
              [(2, String "/" (line_head rest)); (1, String x sch)]));
    [reflexivity|].
  apply (scheme_head_any _ x sch ("//" ++ rest)); assumption.
Qed.

(** Where the continuation fails on the empty string and on every
    character of a class, a run of the class before it fails too. *)
Lemma star_class_fails (p : ascii -> bool) (k : Re.cont) :
  (forall pos s c,
     match s with EmptyString => true | String x _ => p x end = true ->
     k pos s c = None) ->
  forall (s : string) (n pos : nat) (c : Re.captures),
    Str.all_chars p s = true ->
    Re.star_iter (Re.run (Re.Chr p)) [] k n pos s c = None.
Proof.
  intros K s. induction s as [|x s IH]; intros n pos c A.
  - destruct n; cbn [Re.star_iter Re.run]; now apply K.
  - cbn in A. apply andb_prop in A. destruct A as [A1 A2].
    destruct n as [|n]; [now apply K; cbn|].
    cbn [Re.star_iter]. rewrite run_class, A1, ltb_succ, IH by assumption.
    now apply K.
Qed.

Lemma colon_free_no_scheme (tail : Re.re) (path : string) :
  Str.all_chars Patterns.not_colon_char path = true ->
  Re.exec
    (Re.Seq Re.Bol
       (Re.Seq (Re.Grp 1 (Re.Plus Patterns.not_colon))
          (Re.Seq (Re.lit ":") tail)))
    path = None.
Proof.
  intros A. unfold Re.exec. rewrite search_anchored.
  assert (Re.match_at
            (Re.Seq Re.Bol
               (Re.Seq (Re.Grp 1 (Re.Plus Patterns.not_colon))
                  (Re.Seq (Re.lit ":") tail))) 0 path = None) as ->;
    [|reflexivity].
  unfold Re.match_at. destruct path as [|x s]; [reflexivity|].
  cbn in A. apply andb_prop in A. destruct A as [X A].
  change (Re.run _ Re.accept 0 (String x s) [])
    with (if Patterns.not_colon_char x
          then Re.star_iter (Re.run (Re.Chr Patterns.not_colon_char)) []
                 (fun pos' s' c' =>
                    Re.run (Re.Seq (Re.lit ":") tail) Re.accept pos' s'
                      ((1, Str.take (pos' - 0) (String x s))
                       :: Re.clear [1] c'))
                 (String.length s) 1 s []
          else None).
  rewrite X. apply star_class_fails; [|assumption].
  intros pos u c H. destruct u as [|y u]; [reflexivity|].
  cbn [Re.run]. rewrite run_lit.
  unfold Patterns.not_colon_char in H. apply negb_true_iff in H.
  now rewrite Ascii.eqb_sym, H.
Qed.

Lemma typeMatch_colon_free (path : string) :
  Str.all_chars Patterns.not_colon_char path = true ->
  Resolve.typeMatch path = None.
Proof. apply colon_free_no_scheme. Qed.

Lemma azureMatch_colon_free (path : string) :
  Str.all_chars Patterns.not_colon_char path = true ->
  Resolve.azureMatch path = None.
Proof. apply colon_free_no_scheme. Qed.

Lemma trimSplit_trim_edges (s : string) :
  Resolve.trimSplit s = Str.split (trim_edges s).
Proof. unfold Resolve.trimSplit. now rewrite replace_all_edge. Qed.

(** ** The folders of a path *)

(** X1: for a path made of a scheme (not empty, without [":"]), ["://"]
    and a rest, the type is the canonical form of the scheme whatever
    type is given beside the path, and, for a type other than ["abfs"]
    and ["adls"], the folders are the pieces of the first line of the
    rest without one ["/"] at its end; no folder holds a ["/"]. *)
Theorem scheme_path_folders (scheme rest type : string)
  (hint : option string) :
  scheme <> "" ->
  Str.all_chars Patterns.not_colon_char scheme = true ->
  String.eqb type "abfs" || String.eqb type "adls" = false ->
  let path := scheme ++ "://" ++ rest in
  Resolve.entryType path hint = Resolve.canonical scheme
  /\ Resolve.entryFolders type path
     = Str.split (drop_trailing_slash (line_head rest))
  /\ forallb slashless (Resolve.entryFolders type path) = true.
Proof.
  intros N A T path. subst path.
  assert (Resolve.entryFolders type (scheme ++ "://" ++ rest)
          = Str.split (drop_trailing_slash (line_head rest))) as F.
  { unfold Resolve.entryFolders. rewrite T.
    rewrite typeMatch_scheme by assumption.
    cbn [Resolve.group Re.capture Nat.eqb Resolve.or_else Str.truthy].
    rewrite trimSplit_trim_edges. reflexivity. }
  split; [|split].
  - unfold Resolve.entryType. rewrite typeMatch_scheme by assumption.
    cbn [Re.capture Nat.eqb Resolve.or_else].
    destruct scheme; [congruence | reflexivity].
  - exact F.
  - rewrite F. apply split_slashless.
Qed.

(** The witness of [scheme_path_folders]: a path with a slash at its end
    and a second line. *)
Lemma scheme_path_folders_witness :
  Resolve.entryType (String.append "s3a" (String.append "://" "bucket/a/"))
    (Some "hdfs")
  = Resolve.canonical "s3a"
  /\ Resolve.entryFolders "s3"
       (String.append "s3a" (String.append "://" "bucket/a/"))
     = Str.split (drop_trailing_slash (line_head "bucket/a/"))
  /\ Str.split (drop_trailing_slash (line_head "bucket/a/"))
     = ["bucket"; "a"].
Proof.
  destruct (scheme_path_folders "s3a" "bucket/a/" "s3" (Some "hdfs"))
    as (H1 & H2 & _); [discriminate | reflexivity | reflexivity |].
  split; [exact H1|]. split; [exact H2 | reflexivity].
Defined.

(** X2: a path without [":"] has no scheme: its type is the canonical
    form of the type given beside it, ["hdfs"] when none or the empty one
    is given, and its folders, whatever the type, are the pieces of the
    path without one ["/"] at its start and one at its end.  Slashes
    that follow one another inside the path give empty folders. *)
Theorem plain_path_folders (path type : string) (hint : option string) :
  Str.all_chars Patterns.not_colon_char path = true ->
  Resolve.entryType path hint
  = Resolve.canonical (Resolve.or_else hint "hdfs")
  /\ Resolve.entryFolders type path = Str.split (trim_edges path)
  /\ forallb slashless (Resolve.entryFolders type path) = true.
Proof.
  intros A.
  assert (Resolve.entryFolders type path = Str.split (trim_edges path))
    as F.
  { unfold Resolve.entryFolders.
    rewrite typeMatch_colon_free, azureMatch_colon_free by assumption.
    cbn [Resolve.group]. rewrite trimSplit_trim_edges.
    destruct (String.eqb type "abfs" || String.eqb type "adls");
      reflexivity. }
  split; [|split].
  - unfold Resolve.entryType. now rewrite typeMatch_colon_free.
  - exact F.
  - rewrite F. apply split_slashless.
Qed.

(** The witness of [plain_path_folders]: a path with doubled slashes. *)
Lemma plain_path_folders_witness :
  Str.all_chars Patterns.not_colon_char "//tmp//x/" = true
  /\ Resolve.entryType "//tmp//x/" None = Resolve.canonical "hdfs"
  /\ Resolve.entryFolders "hdfs" "//tmp//x/" = Str.split (trim_edges "//tmp//x/")
  /\ Str.split (trim_edges "//tmp//x/") = [""; "tmp"; ""; "x"].
Proof.
  destruct (plain_path_folders "//tmp//x/" "hdfs" None eq_refl)
    as (H1 & H2 & _).
  split; [reflexivity|]. split; [exact H1|].
  split; [exact H2 | reflexivity].
Defined.

(** The folders [getEntry] makes of a path are never the empty
    list, whatever the path and the type. *)
Lemma entryFolders_not_empty (type path : string) :
  Resolve.entryFolders type path <> [].
Proof.
  unfold Resolve.entryFolders.
  destruct (String.eqb type "abfs" || String.eqb type "adls").
  - cbv zeta.
    destruct (Resolve.group 4 (Resolve.azureMatch path)) as [a|];
      [destruct (Str.truthy a); [discriminate|]|];
      rewrite trimSplit_trim_edges; apply split_aux_not_nil.
  - cbv zeta. rewrite trimSplit_trim_edges. apply split_aux_not_nil.
Qed.

(** ** The hierarchy of an entry *)

Lemma hierarchy_loop_acc (chain parts : list string) :
  hierarchy_loop chain parts = (parts ++ hierarchy_loop chain [])%list.
Proof.
  revert parts. induction chain as [|n up IH]; intros parts.
  - cbn. now rewrite app_nil_r.
  - destruct up as [|m up].
    + cbn. destruct (Str.truthy n); [reflexivity | now rewrite app_nil_r].
    + change (hierarchy_loop (n :: m :: up) parts)
        with (hierarchy_loop (m :: up)
                (if Str.truthy n then (parts ++ [n])%list else parts)).
      change (hierarchy_loop (n :: m :: up) [])
        with (hierarchy_loop (m :: up)
                (if Str.truthy n then ([] ++ [n])%list else [])).
      rewrite IH. rewrite (IH (if Str.truthy n then _ else _)).
      destruct (Str.truthy n); [now rewrite <- app_assoc | reflexivity].
Qed.

Lemma hierarchy_loop_truthy (chain : list string) :
  forallb Str.truthy (hierarchy_loop chain []) = true.
Proof.
  induction chain as [|n up IH]; [reflexivity|].
  destruct up as [|m up].
  - cbn. destruct (Str.truthy n); [|reflexivity].
    rewrite forallb_forall. intros x I. apply in_rev in I.
    apply filter_In in I. tauto.
  - change (hierarchy_loop (n :: m :: up) [])
      with (hierarchy_loop (m :: up)
              (if Str.truthy n then ([] ++ [n])%list else [])).
    rewrite hierarchy_loop_acc, forallb_app, IH, andb_true_r.
    destruct (Str.truthy n) eqn:T; [cbn; now rewrite T | reflexivity].
Qed.

(** The chain of names [getHierarchy] walks, from the entry to the
    root. *)
Lemma getHierarchy_child (c p : Entry) :
  parent c = Some (parent_of p) ->
  getHierarchy c
  = (getHierarchy p
     ++ if Str.truthy (name (definition c))
        then [name (definition c)] else [])%list.
Proof.
  intros P. unfold getHierarchy. rewrite P. cbn [parent_of parent_names].
  set (chain := name (definition p)
                :: match parent p with
                   | Some pp => parent_names pp
                   | None => []
                   end).
  change (hierarchy_loop (name (definition c) :: chain) [])
    with (hierarchy_loop chain
            (if Str.truthy (name (definition c))
             then ([] ++ [name (definition c)])%list else [])).
  rewrite hierarchy_loop_acc, rev_app_distr.
  destruct (Str.truthy (name (definition c))); cbn [app rev];
    [reflexivity | now rewrite app_nil_r].
Qed.

(** X3: the hierarchy of an entry holds no empty part; the hierarchy of
    an entry without parent is made of the pieces of its name that are
    not empty; and the hierarchy of a child built from a file of a page
    is the hierarchy of its parent followed by the name of the file,
    unless the name is empty. *)
Theorem hierarchy_of_entries (self : Entry) :
  forallb Str.truthy (getHierarchy self) = true
  /\ (parent self = None ->
      getHierarchy self
      = List.filter Str.truthy (Str.split (name (definition self))))
  /\ (forall (file : FileDefinition) (data : Listing),
        In file (files data) -> listed file = true ->
        exists c,
          In c (children_of self data)
          /\ definition c = file
          /\ getHierarchy c
             = (getHierarchy self
                ++ if Str.truthy (name file) then [name file] else [])%list).
Proof.
  split; [|split].
  - unfold getHierarchy. rewrite forallb_forall. intros x I.
    apply in_rev in I.
    pose proof (hierarchy_loop_truthy
                  (name (definition self)
                   :: match parent self with
                      | Some p => parent_names p
                      | None => []
                      end)) as T.
    rewrite forallb_forall in T. now apply T.
  - intros P. unfold getHierarchy. rewrite P. cbn [hierarchy_loop].
    destruct (Str.truthy (name (definition self))) eqn:T.
    + cbn [app]. apply rev_involutive.
    + destruct (name (definition self)); [reflexivity | discriminate].
  - intros file data I L.
    exists (construct file (Some self) (rootPath self)).
    split; [|split; [reflexivity|]].
    + unfold children_of.
      apply (in_map (fun f => construct f (Some self) (rootPath self))).
      apply filter_In. now split.
    + now rewrite (getHierarchy_child _ self).
Qed.

(** The witness of [hierarchy_of_entries]: the root ["/user/hue"] and a
    file of one of its pages. *)
Lemma hierarchy_of_entries_witness :
  let self := Fixtures.root "/user/hue" in
  let file := mkDefinition "logs" "dir" in
  let data := mkListing [mkDefinition "." "dir"; file] 1 None in
  parent self = None
  /\ getHierarchy self = ["user"; "hue"]
  /\ In file (files data) /\ listed file = true
  /\ exists c,
       In c (children_of self data)
       /\ definition c = file
       /\ getHierarchy c
          = (getHierarchy self
             ++ if Str.truthy (name file) then [name file] else [])%list.
Proof.
  cbv zeta. split; [reflexivity|]. split.
  - rewrite (proj1 (proj2 (hierarchy_of_entries (Fixtures.root "/user/hue")))
               eq_refl).
    reflexivity.
  - split; [right; now left|]. split; [reflexivity|].
    apply (proj2 (proj2 (hierarchy_of_entries (Fixtures.root "/user/hue")))).
    + right. now left.
    + reflexivity.
Defined.

(** ** What the page operations leave alone *)

Lemma same_identity_refl (a : Entry) : same_identity a a.
Proof. repeat split. Qed.

Lemma same_identity_trans (a b c : Entry) :
  same_identity a b -> same_identity b c -> same_identity a c.
Proof.
  unfold same_identity. intros (A1 & A2 & A3 & A4 & A5) (B1 & B2 & B3 & B4 & B5).
  repeat split; congruence.
Qed.

Lemma same_identity_parent_of (a b : Entry) :
  same_identity a b -> parent_of a = parent_of b.
Proof.
  intros (A1 & A2 & _ & A4 & _). unfold parent_of. now rewrite A1, A2, A4.
Qed.

Lemma same_identity_hierarchy (a b : Entry) :
  same_identity a b -> getHierarchy a = getHierarchy b.
Proof. intros (A1 & A2 & _). unfold getHierarchy. now rewrite A1, A2. Qed.

Lemma same_identity_set_entries (l : list Entry) (a : Entry) :
  same_identity (set_entries l a) a.
Proof. destruct a. repeat split. Qed.

Lemma loadEntries_frame (backend : Backend) (self : Entry) (log : Log) :
  let '(self', log', _) := loadEntries backend self log in
  same_identity self' self /\ exists new, log' = (new ++ log)%list.
Proof.
  unfold loadEntries. destruct (loading self).
  - split; [apply same_identity_refl | now exists []].
  - destruct (backend log _);
      (split; [destruct self; repeat split | now eexists [_]]).
Qed.

Lemma fetchMore_frame (backend : Backend) (self : Entry) (log : Log) :
  let '(self', log', _) := fetchMore backend self log in
  same_identity self' self /\ exists new, log' = (new ++ log)%list.
Proof.
  unfold fetchMore. destruct (negb (hasMorePages self) || loadingMore self).
  - split; [apply same_identity_refl | now exists []].
  - destruct (backend log _);
      (split; [destruct self; repeat split | now eexists [_]]).
Qed.

(** ** Trees whose children refer to their parents *)

Lemma Linked_children (e : Entry) :
  Linked e ->
  forall c, In c (entries e) ->
            parent c = Some (parent_of e) /\ rootPath c = rootPath e
            /\ Linked c.
Proof. intros L. inversion L; subst. auto. Qed.

Lemma Linked_construct (d : FileDefinition) (p : option Entry) (r : string) :
  Linked (construct d p r).
Proof. constructor; intros c []. Qed.

(** In a tree whose children have the [rootPath] of their parents, an
    empty [rootPath] at the top is an empty [rootPath] everywhere. *)
Lemma Linked_walkable (replaceRoot : string -> option (string -> string))
  (e : Entry) :
  Linked e -> rootPath e = "" -> walkable replaceRoot e = true.
Proof.
  induction 1 as [e Hp Hr Hl IH]. intros R.
  rewrite walkable_fields, R. cbn [Str.truthy negb orb andb].
  apply forallb_forall. intros c I. apply (IH c I).
  now rewrite (Hr c I).
Qed.

Lemma Linked_children_of (self : Entry) (data : Listing) (c : Entry) :
  In c (children_of self data) ->
  parent c = Some (parent_of self) /\ rootPath c = rootPath self /\ Linked c.
Proof.
  unfold children_of. intros I. apply in_map_iff in I.
  destruct I as (f & <- & _).
  split; [reflexivity|]. split; [reflexivity | apply Linked_construct].
Qed.

(** A new state of a linked entry is linked when each of its children is
    an old one or is linked to it. *)
Lemma Linked_step (e e' : Entry) :
  Linked e -> same_identity e' e ->
  (forall c, In c (entries e') ->
             In c (entries e)
             \/ (parent c = Some (parent_of e') /\ rootPath c = rootPath e'
                 /\ Linked c)) ->
  Linked e'.
Proof.
  intros L S H. pose proof (same_identity_parent_of _ _ S) as P.
  destruct S as (_ & _ & R & _).
  constructor; intros c I; destruct (H c I) as [O | (A & B & C)]; auto;
    destruct (Linked_children e L c O) as (A & B & C);
    congruence || assumption.
Qed.

Lemma Linked_loadEntries (backend : Backend) (self : Entry) (log : Log) :
  Linked self -> Linked (fst (fst (loadEntries backend self log))).
Proof.
  intros L.
  pose proof (loadEntries_frame backend self log) as F.
  pose proof (loadEntries_cases backend self log) as C.
  destruct (loadEntries backend self log) as [[self' log'] sg].
  cbn [fst]. destruct F as [F _]. apply (Linked_step self); auto.
  intros c I. destruct sg.
  - destruct C as (_ & _ & data & _ & E & _). rewrite E in I.
    right. now apply (Linked_children_of self' data).
  - destruct C as (_ & _ & text & _ & E & _). rewrite E in I. now left.
  - destruct C as (_ & -> & _). now left.
Qed.

Lemma Linked_fetchMore (backend : Backend) (self : Entry) (log : Log) :
  Linked self -> Linked (fst (fst (fetchMore backend self log))).
Proof.
  intros L.
  pose proof (fetchMore_frame backend self log) as F.
  pose proof (fetchMore_cases backend self log) as C.
  destruct (fetchMore backend self log) as [[self' log'] sg].
  cbn [fst]. destruct F as [F _]. apply (Linked_step self); auto.
  intros c I. destruct sg.
  - destruct C as (_ & _ & _ & data & _ & E & _). rewrite E in I.
    apply in_app_or in I. destruct I as [I | I]; [now left|].
    right. now apply (Linked_children_of self' data).
  - destruct C as (_ & _ & _ & _ & E & _). rewrite E in I. now left.
  - destruct C as (_ & -> & _). now left.
Qed.

(** ** Where the walk ends *)

Section Reach.

Variable backend : Backend.
Variable localeCompare : string -> string -> Z.
Variable replaceRoot : string -> option (string -> string).

(** What the search at a linked entry leaves and how it ends: a child
    found is the only child of the name, and the search gives up only
    where the name has not exactly one child. *)
Lemma findNextAndLoadDeep_ends (gas : nat) :
  forall (nextName : string) (n : nat) (self : Entry) (log : Log)
         (self' : Entry) (log' : Log) (v : Verdict),
    findNextAndLoadDeep backend localeCompare gas nextName n self log
    = Some (self', log', v) ->
    Linked self ->
    Linked self' /\ same_identity self' self
    /\ (exists new, log' = (new ++ log)%list)
    /\ match v with
       | Found child =>
           List.filter (named nextName) (entries self') = [child]
       | GiveUp =>
           List.length (List.filter (named nextName) (entries self')) <> 1
       | Stall => True
       end.
Proof.
  induction gas as [|gas IH]; intros nextName n self log self' log' v H L;
    [discriminate|].
  rewrite findNextAndLoadDeep_round in H.
  assert (stop : forall c : Entry,
             List.filter (named nextName) (entries self) = [c] ->
             Some (self, log, Found c) = Some (self', log', v) ->
             Linked self' /\ same_identity self' self
             /\ (exists new, log' = (new ++ log)%list)
             /\ match v with
                | Found child =>
                    List.filter (named nextName) (entries self') = [child]
                | GiveUp =>
                    List.length
                      (List.filter (named nextName) (entries self')) <> 1
                | Stall => True
                end).
  { intros c F E. injection E as <- <- <-.
    split; [assumption|]. split; [apply same_identity_refl|].
    split; [now exists [] | assumption]. }
  assert (more :
    List.length (List.filter (named nextName) (entries self)) <> 1 ->
    (if negb
          match last_entry (entries self) with
          | Some e => (0 <? localeCompare (name (definition e)) nextName)%Z
          | None => false
          end
        && hasMorePages self && (n <? 50)
     then
       match fetchMore backend self log with
       | (self', log', OnSuccess) =>
           findNextAndLoadDeep backend localeCompare gas nextName
             (S n) self' log'
       | (self', log', OnError) => Some (self', log', GiveUp)
       | (self', log', NoCall) => Some (self', log', Stall)
       end
     else Some (self, log, GiveUp)) = Some (self', log', v) ->
    Linked self' /\ same_identity self' self
    /\ (exists new, log' = (new ++ log)%list)
    /\ match v with
       | Found child =>
           List.filter (named nextName) (entries self') = [child]
       | GiveUp =>
           List.length (List.filter (named nextName) (entries self')) <> 1
       | Stall => True
       end).
  { intros N E. destruct (_ && _ && _).
    - pose proof (fetchMore_frame backend self log) as F.
      pose proof (Linked_fetchMore backend self log L) as L1.
      pose proof (fetchMore_cases backend self log) as C.
      destruct (fetchMore backend self log) as [[self1 log1] sg].
      cbn [fst] in L1. destruct F as [F [new1 ->]]. destruct sg.
      + apply IH in E; [|assumption].
        destruct E as (L2 & S2 & [new2 ->] & V).
        split; [assumption|].
        split; [apply (same_identity_trans _ self1); assumption|].
        split; [|assumption].
        exists (new2 ++ new1)%list. now rewrite app_assoc.
      + injection E as <- <- <-.
        split; [assumption|]. split; [assumption|].
        split; [now exists new1|].
        destruct C as (_ & _ & _ & _ & C & _). now rewrite C.
      + injection E as <- <- <-.
        split; [assumption|]. split; [assumption|].
        split; [now exists new1 | exact Logic.I].
    - injection E as <- <- <-.
      split; [assumption|]. split; [apply same_identity_refl|].
      split; [now exists [] | assumption]. }
  destruct (List.filter (named nextName) (entries self))
    as [|c [|c' t]] eqn:F.
  - apply more; [cbn; lia | exact H].
  - now apply (stop c).
  - apply more; [cbn; lia | exact H].
Qed.

Lemma loadAndFind_ends (nextName : string) (self : Entry) (log : Log)
  (self' : Entry) (log' : Log) (v : Verdict) :
  loadAndFind backend localeCompare nextName self log
  = Some (self', log', v) ->
  Linked self ->
  Linked self' /\ same_identity self' self
  /\ (exists new, log' = (new ++ log)%list)
  /\ match v with
     | Found child =>
         List.filter (named nextName) (entries self') = [child]
     | GiveUp =>
         List.length (List.filter (named nextName) (entries self')) <> 1
     | Stall => True
     end.
Proof.
  unfold loadAndFind. intros H L.
  destruct (negb (loaded self)).
  - pose proof (loadEntries_frame backend self log) as F.
    pose proof (Linked_loadEntries backend self log L) as L1.
    destruct (loadEntries backend self log) as [[self1 log1] sg].
    cbn [fst] in L1. destruct F as [F [new1 ->]].
    assert (go : findNextAndLoadDeep backend localeCompare 51 nextName 0
                   self1 (new1 ++ log)%list = Some (self', log', v) ->
                 Linked self' /\ same_identity self' self
                 /\ (exists new, log' = (new ++ log)%list)
                 /\ match v with
                    | Found child =>
                        List.filter (named nextName) (entries self')
                        = [child]
                    | GiveUp =>
                        List.length
                          (List.filter (named nextName) (entries self'))
                        <> 1
                    | Stall => True
                    end).
    { intros E. apply findNextAndLoadDeep_ends in E; [|assumption].
      destruct E as (L2 & S2 & [new2 ->] & V).
      split; [assumption|].
      split; [apply (same_identity_trans _ self1); assumption|].
      split; [|assumption].
      exists (new2 ++ new1)%list. now rewrite app_assoc. }
    destruct sg; try (now apply go).
    injection H as <- <- <-.
    split; [assumption|]. split; [assumption|].
    split; [now exists new1 | exact Logic.I].
  - now apply findNextAndLoadDeep_ends in H.
Qed.

Lemma filter_with_child (n : string) (c' : Entry) (es : list Entry) :
  named n c' = true ->
  List.filter (named n) (with_child n c' es)
  = map (fun _ => c') (List.filter (named n) es).
Proof.
  intros N. induction es as [|e es IH]; [reflexivity|].
  cbn [with_child map List.filter]. destruct (named n e) eqn:E.
  - rewrite N. cbn [map]. f_equal. exact IH.
  - rewrite E. exact IH.
Qed.

Lemma in_with_child (n : string) (c' : Entry) (es : list Entry) (x : Entry) :
  In x (with_child n c' es) -> In x es \/ x = c'.
Proof.
  unfold with_child. intros I. apply in_map_iff in I.
  destruct I as (e & <- & I). destruct (named n e); auto.
Qed.

(** The walk from a linked entry whose [rootPath] is empty. *)
Lemma loadDeep_reaches (fuel : nat) :
  forall (self : Entry) (folders : list string) (log : Log)
         (self' : Entry) (log' : Log) (trail : list string) (e : Entry),
    loadDeep backend localeCompare replaceRoot fuel self folders log
    = Some (self', log', Called trail e) ->
    Linked self -> rootPath self = "" ->
    (Linked self' /\ same_identity self' self)
    /\ (exists rest,
          folders = (trail ++ rest)%list
          /\ match rest with
             | [] => True
             | n :: _ =>
                 List.length (List.filter (named n) (entries e)) <> 1
             end)
    /\ locate self' trail = Some e
    /\ getHierarchy e = (getHierarchy self ++ named_parts trail)%list
    /\ (exists new, log' = (new ++ log)%list).
Proof.
  induction fuel as [|fuel IH];
    intros self folders log self' log' trail e H L R; [discriminate|].
  cbn [loadDeep] in H. destruct folders as [|first others].
  - injection H as <- <- <- <-.
    split; [split; [assumption | apply same_identity_refl]|].
    split; [now exists []|]. split; [reflexivity|].
    split; [cbn; now rewrite app_nil_r | now exists []].
  - assert (shift_folders replaceRoot self first others
            = Some (first, others))
      as Sh by (unfold shift_folders; now rewrite R).
    rewrite Sh in H.
    destruct (loadAndFind backend localeCompare first self log)
      as [[[self1 log1] v]|] eqn:E; [|discriminate].
    apply loadAndFind_ends in E; [|assumption].
    destruct E as (L1 & S1 & [new1 ->] & V).
    destruct v as [child| |].
    + destruct (loadDeep backend localeCompare replaceRoot fuel child
                  others (new1 ++ log)%list)
        as [[[child' log2] answer]|] eqn:D; [|discriminate].
      destruct answer as [trail' e'| |]; [|discriminate|discriminate].
      cbn [push] in H. injection H as <- <- <- <-.
      assert (In child (entries self1)) as I.
      { assert (In child (List.filter (named first) (entries self1))) as J
          by (rewrite V; now left).
        apply filter_In in J. tauto. }
      assert (named first child = true) as N.
      { assert (In child (List.filter (named first) (entries self1))) as J
          by (rewrite V; now left).
        apply filter_In in J. tauto. }
      destruct (Linked_children self1 L1 child I) as (PC & RC & LC).
      destruct S1 as (S1a & S1b & S1c & S1d & S1e).
      apply IH in D; [|assumption | congruence].
      destruct D as ((L2 & S2) & (rest & -> & Hrest) & Loc & Hier
                     & [new2 ->]).
      assert (named first child' = true) as N'.
      { unfold named in *. destruct S2 as (S2a & _). now rewrite S2a. }
      assert (same_identity
                (set_entries (with_child first child' (entries self1)) self1)
                self) as SI.
      { apply (same_identity_trans _ self1);
          [apply same_identity_set_entries | repeat split; assumption]. }
      split; [split; [|exact SI]|split; [|split; [|split]]].
      * apply (Linked_step self1); auto.
        -- apply same_identity_set_entries.
        -- intros c J.
           replace (entries (set_entries
                               (with_child first child' (entries self1))
                               self1))
             with (with_child first child' (entries self1)) in J
             by (destruct self1; reflexivity).
           apply in_with_child in J. destruct J as [J | ->]; [now left|].
           right. destruct S2 as (_ & S2b & S2c & _).
           rewrite (same_identity_parent_of _ self1
                      (same_identity_set_entries _ self1)).
           replace (rootPath (set_entries
                                (with_child first child' (entries self1))
                                self1))
             with (rootPath self1) by (destruct self1; reflexivity).
           split; [congruence|]. split; [congruence | assumption].
      * exists rest. split; [reflexivity | exact Hrest].
      * cbn [locate].
        replace (entries (set_entries
                            (with_child first child' (entries self1)) self1))
          with (with_child first child' (entries self1))
          by (destruct self1; reflexivity).
        rewrite filter_with_child, V by assumption. exact Loc.
      * rewrite Hier, (getHierarchy_child child self1 PC).
        rewrite (same_identity_hierarchy self1 self)
          by (repeat split; assumption).
        unfold named in N. apply String.eqb_eq in N. rewrite N.
        unfold named_parts. cbn [List.filter].
        destruct (Str.truthy first); now rewrite <- app_assoc.
      * exists (new2 ++ new1)%list. now rewrite app_assoc.
    + injection H as <- <- <- <-.
      split; [split; assumption|].
      split; [exists (first :: others); split; [reflexivity | exact V]|].
      split; [reflexivity|]. split; [|now exists new1].
      unfold named_parts. cbn. rewrite app_nil_r.
      now apply same_identity_hierarchy.
    + discriminate.
Qed.

End Reach.

(** X4: the walk along folders from an entry with an empty [rootPath],
    no request in flight and children that refer to their parents calls
    back with an entry reached through the names of a prefix of the
    folders, each step through the only child of the name; this entry is
    where the trail leads in the tree the walk leaves; and when folders
    are left over, the first of them has not exactly one child of its
    name there. *)
Theorem walk_stops_where_a_name_is_missing
  (backend : Backend) (localeCompare : string -> string -> Z)
  (replaceRoot : string -> option (string -> string))
  (replaceRoot_deletes :
     forall p replace s,
       replaceRoot p = Some replace ->
       exists before gone after,
         s = before ++ gone ++ after /\ replace s = before ++ after)
  (self : Entry) (folders : list string) (log : Log) (fuel : nat) :
  Linked self -> idle self = true -> rootPath self = "" ->
  weight folders < fuel ->
  exists self' log' trail e rest,
    loadDeep backend localeCompare replaceRoot fuel self folders log
    = Some (self', log', Called trail e)
    /\ folders = (trail ++ rest)%list
    /\ locate self' trail = Some e
    /\ match rest with
       | [] => True
       | n :: _ => List.length (List.filter (named n) (entries e)) <> 1
       end.
Proof.
  intros L I R W.
  destruct (loadDeep_calls_back backend localeCompare replaceRoot
              replaceRoot_deletes fuel self folders log I
              (Linked_walkable replaceRoot self L R) W)
    as (self' & log' & trail & e & H).
  destruct (loadDeep_reaches backend localeCompare replaceRoot fuel
              self folders log self' log' trail e H L R)
    as (_ & (rest & F & S) & Loc & _).
  exists self', log', trail, e, rest. auto.
Qed.

(** The witness of [walk_stops_where_a_name_is_missing]: the walk along
    [a], [x] where every directory lists [a] and [b]. *)
Lemma walk_stops_where_a_name_is_missing_witness :
  Linked (Fixtures.root "") /\ idle (Fixtures.root "") = true
  /\ rootPath (Fixtures.root "") = "" /\ weight ["a"; "x"] < 3
  /\ exists self' log' trail e rest,
       loadDeep (Fixtures.listingBackend ["a"; "b"])
         Fixtures.codeUnitCompare Fixtures.hostRegExp 3
         (Fixtures.root "") ["a"; "x"] []
       = Some (self', log', Called trail e)
       /\ ["a"; "x"] = (trail ++ rest)%list
       /\ locate self' trail = Some e
       /\ match rest with
          | [] => True
          | n :: _ => List.length (List.filter (named n) (entries e)) <> 1
          end.
Proof.
  assert (W : weight ["a"; "x"] < 3) by (cbn; lia).
  split; [apply Linked_construct|]. split; [reflexivity|].
  split; [reflexivity|]. split; [exact W|].
  exact (walk_stops_where_a_name_is_missing
           (Fixtures.listingBackend ["a"; "b"]) Fixtures.codeUnitCompare
           Fixtures.hostRegExp hostRegExp_deletes
           (Fixtures.root "") ["a"; "x"] [] 3
           (Linked_construct _ _ _) eq_refl eq_refl W).
Defined.

(** X5: under the same conditions the hierarchy of the entry the walk
    calls back with is the hierarchy of the start followed by the names
    of the trail that are not empty; so the requests of that entry carry,
    as [pathParts], the parts of the root and the folders walked. *)
Theorem walk_hierarchy_follows_the_trail
  (backend : Backend) (localeCompare : string -> string -> Z)
  (replaceRoot : string -> option (string -> string))
  (replaceRoot_deletes :
     forall p replace s,
       replaceRoot p = Some replace ->
       exists before gone after,
         s = before ++ gone ++ after /\ replace s = before ++ after)
  (self : Entry) (folders : list string) (log : Log) (fuel : nat) :
  Linked self -> idle self = true -> rootPath self = "" ->
  weight folders < fuel ->
  exists self' log' trail e,
    loadDeep backend localeCompare replaceRoot fuel self folders log
    = Some (self', log', Called trail e)
    /\ getHierarchy e = (getHierarchy self ++ named_parts trail)%list
    /\ req_pathParts (pageRequest true e)
       = (getHierarchy self ++ named_parts trail)%list
    /\ req_pathParts (moreRequest e)
       = (getHierarchy self ++ named_parts trail)%list.
Proof.
  intros L I R W.
  destruct (loadDeep_calls_back backend localeCompare replaceRoot
              replaceRoot_deletes fuel self folders log I
              (Linked_walkable replaceRoot self L R) W)
    as (self' & log' & trail & e & H).
  destruct (loadDeep_reaches backend localeCompare replaceRoot fuel
              self folders log self' log' trail e H L R)
    as (_ & _ & _ & Hier & _).
  exists self', log', trail, e. split; [exact H|]. split; [exact Hier|].
  split; [exact Hier|].
  rewrite <- Hier. destruct e; reflexivity.
Qed.

(** The witness of [walk_hierarchy_follows_the_trail]: the walk along
    [a], [x] from the root ["/user/hue"] built without [rootPath]. *)
Lemma walk_hierarchy_follows_the_trail_witness :
  let self := construct (mkDefinition "/user/hue" "dir") None "" in
  Linked self /\ idle self = true /\ rootPath self = ""
  /\ weight ["a"; "x"] < 3
  /\ getHierarchy self = ["user"; "hue"]
  /\ exists self' log' trail e,
       loadDeep (Fixtures.listingBackend ["a"; "b"])
         Fixtures.codeUnitCompare Fixtures.hostRegExp 3
         self ["a"; "x"] []
       = Some (self', log', Called trail e)
       /\ getHierarchy e = (getHierarchy self ++ named_parts trail)%list
       /\ req_pathParts (pageRequest true e)
          = (getHierarchy self ++ named_parts trail)%list
       /\ req_pathParts (moreRequest e)
          = (getHierarchy self ++ named_parts trail)%list.
Proof.
  cbv zeta.
  assert (W : weight ["a"; "x"] < 3) by (cbn; lia).
  split; [apply Linked_construct|]. split; [reflexivity|].
  split; [reflexivity|]. split; [exact W|]. split; [reflexivity|].
  exact (walk_hierarchy_follows_the_trail
           (Fixtures.listingBackend ["a"; "b"]) Fixtures.codeUnitCompare
           Fixtures.hostRegExp hostRegExp_deletes
           (construct (mkDefinition "/user/hue" "dir") None "")
           ["a"; "x"] [] 3
           (Linked_construct _ _ _) eq_refl eq_refl W).
Defined.


(** ** The pages a search asks for *)

Lemma fetchMore_sends (backend : Backend) (self : Entry) (log : Log) :
  let '(self', log', sg) := fetchMore backend self log in
  match sg with
  | NoCall => self' = self /\ log' = log
  | _ =>
      log' = mkRequest PAGE_SIZE (currentPage self + 1)%Z
               (filter_option self) (getHierarchy self) None :: log
      /\ currentPage self' = (currentPage self + 1)%Z
      /\ same_identity self' self
  end.
Proof.
  unfold fetchMore. destruct (negb (hasMorePages self) || loadingMore self).
  - auto.
  - destruct (backend log _); destruct self; repeat split.
Qed.

Lemma pagesAsked_succ (self self1 : Entry) (k : nat) :
  same_identity self1 self ->
  currentPage self1 = (currentPage self + 1)%Z ->
  pagesAsked self (S k)
  = mkRequest PAGE_SIZE (currentPage self + 1)%Z (filter_option self)
      (getHierarchy self) None :: pagesAsked self1 k.
Proof.
  intros Sid C. unfold pagesAsked. cbn [seq map]. f_equal.
  rewrite <- seq_shift, map_map. apply map_ext. intros i.
  rewrite (same_identity_hierarchy _ _ Sid), C.
  unfold filter_option. destruct Sid as (_ & _ & _ & _ & ->).
  f_equal. lia.
Qed.

Section Pages.

Variable backend : Backend.
Variable localeCompare : string -> string -> Z.

Lemma findNextAndLoadDeep_pages (gas : nat) :
  forall (nextName : string) (n : nat) (self : Entry) (log : Log),
    n <= 50 -> 51 <= gas + n ->
    exists self' v k,
      findNextAndLoadDeep backend localeCompare gas nextName n self log
      = Some (self', (rev (pagesAsked self k) ++ log)%list, v)
      /\ k + n <= 50
      /\ currentPage self' = (currentPage self + Z.of_nat k)%Z.
Proof.
  induction gas as [|gas IH]; intros nextName n self log Hn Hg; [lia|].
  rewrite findNextAndLoadDeep_round.
  assert (stop : forall v : Verdict, exists self' v' k,
             Some (self, log, v)
             = Some (self', (rev (pagesAsked self k) ++ log)%list, v')
             /\ k + n <= 50
             /\ currentPage self' = (currentPage self + Z.of_nat k)%Z).
  { intros v. exists self, v, 0. cbn. repeat split; [lia | lia]. }
  destruct (List.filter (named nextName) (entries self)) as [|c [|c' t]];
    try apply stop.
  all: destruct (_ && _ && (n <? 50)) eqn:G; try apply stop.
  all: apply andb_prop in G; destruct G as [_ G];
    apply Nat.ltb_lt in G.
  all: pose proof (fetchMore_sends backend self log) as F;
    destruct (fetchMore backend self log) as [[self1 log1] sg];
    destruct sg.
  all: try (destruct F as (-> & C & Sid);
            first
              [ destruct (IH nextName (S n) self1
                            (mkRequest PAGE_SIZE (currentPage self + 1)%Z
                               (filter_option self) (getHierarchy self) None
                             :: log))
                  as (self' & v & k & E & L & P); [lia | lia |];
                exists self', v, (S k);
                rewrite (pagesAsked_succ self self1 k Sid C);
                cbn [rev]; rewrite <- app_assoc; cbn [app]; rewrite E;
                repeat split; lia
              | exists self1, GiveUp, 1;
                rewrite (pagesAsked_succ self self1 0 Sid C);
                repeat split; cbn; lia ]).
  all: destruct F as (-> & ->); exists self, Stall, 0; cbn;
    repeat split; lia.
Qed.

End Pages.

(** X6: the search at an entry asks, by [fetchMore], for the pages that
    follow the current page of the entry, one after the other, none
    skipped and none twice, at most 50 of them, always with the hierarchy
    and the filter of the entry and without [rootPath]; and the current
    page of the entry has advanced by the number of these requests,
    failed ones included. *)
Theorem search_asks_consecutive_pages
  (backend : Backend) (localeCompare : string -> string -> Z)
  (nextName : string) (self : Entry) (log : Log) :
  exists self' v k,
    findNextAndLoadDeep backend localeCompare 51 nextName 0 self log
    = Some (self', (rev (pagesAsked self k) ++ log)%list, v)
    /\ k <= 50
    /\ currentPage self' = (currentPage self + Z.of_nat k)%Z.
Proof.
  destruct (findNextAndLoadDeep_pages backend localeCompare 51 nextName 0
              self log) as (self' & v & k & E & L & P); [lia | lia |].
  exists self', v, k. repeat split; auto. lia.
Qed.

(** ** The first request of [getEntry] *)

Lemma getHierarchy_without_parent (self : Entry) :
  parent self = None ->
  getHierarchy self
  = List.filter Str.truthy (Str.split (name (definition self))).
Proof.
  intros P. unfold getHierarchy. rewrite P. cbn [hierarchy_loop].
  destruct (Str.truthy (name (definition self))) eqn:T.
  - cbn [app]. apply rev_involutive.
  - destruct (name (definition self)); [reflexivity | discriminate].
Qed.

Section FirstRequest.

Variable backend : Backend.
Variable localeCompare : string -> string -> Z.
Variable replaceRoot : string -> option (string -> string).

Lemma loadAndFind_log (nextName : string) (self : Entry) (log : Log)
  (self' : Entry) (log' : Log) (v : Verdict) :
  loadAndFind backend localeCompare nextName self log
  = Some (self', log', v) ->
  exists new,
    log' = (new ++ (if negb (loaded self) && negb (loading self)
                    then [pageRequest true self] else []) ++ log)%list.
Proof.
  rewrite loadAndFind_eq. intros H.
  destruct (loaded self).
  - destruct (findNextAndLoadDeep_bound backend localeCompare 51 nextName
                0 self log) as (s & new & w & E & _); [lia | lia |].
    rewrite E in H. exists new.
    assert (Hl := f_equal (fun o => match o with
                                    | Some (_, l, _) => l
                                    | None => log
                                    end) H).
    cbv beta iota in Hl. now rewrite <- Hl.
  - pose proof (loadEntries_cases backend self log) as C.
    destruct (loadEntries backend self log) as [[self1 log1] sg].
    assert (go : log1 = pageRequest true self :: log ->
                 loading self = false ->
                 findNextAndLoadDeep backend localeCompare 51 nextName 0
                   self1 log1 = Some (self', log', v) ->
                 exists new,
                   log' = (new ++ (if negb false && negb (loading self)
                                   then [pageRequest true self] else [])
                           ++ log)%list).
    { intros -> L E. rewrite L.
      destruct (findNextAndLoadDeep_bound backend localeCompare 51 nextName
                  0 self1 (pageRequest true self :: log))
        as (s & new & w & E' & _); [lia | lia |].
      rewrite E' in E. exists new.
      assert (Hl := f_equal (fun o => match o with
                                      | Some (_, l, _) => l
                                      | None => log
                                      end) E).
      cbv beta iota in Hl. now rewrite <- Hl. }
    destruct sg.
    + destruct C as (L & C & _). now apply go.
    + destruct C as (L & C & _). now apply go.
    + destruct C as (L & _ & ->). rewrite L. exists [].
      assert (Hl := f_equal (fun o => match o with
                                      | Some (_, l, _) => l
                                      | None => log
                                      end) H).
      cbv beta iota in Hl. now rewrite <- Hl.
Qed.

(** The log of a walk holds what it had before. *)
Lemma loadDeep_grows (fuel : nat) :
  forall (self : Entry) (folders : list string) (log : Log)
         (self' : Entry) (log' : Log) (a : Answer),
    loadDeep backend localeCompare replaceRoot fuel self folders log
    = Some (self', log', a) ->
    exists new, log' = (new ++ log)%list.
Proof.
  induction fuel as [|fuel IH]; intros self folders log self' log' a H;
    [discriminate|].
  cbn [loadDeep] in H. destruct folders as [|first others].
  - injection H as _ <- _. now exists [].
  - destruct (shift_folders replaceRoot self first others)
      as [[nextName rest]|].
    2:{ injection H as _ <- _. now exists []. }
    destruct (loadAndFind backend localeCompare nextName self log)
      as [[[self1 log1] v]|] eqn:E; [|discriminate].
    apply loadAndFind_log in E. destruct E as [new1 ->].
    destruct v as [child| |].
    + destruct (loadDeep backend localeCompare replaceRoot fuel child rest _)
        as [[[child' log2] answer]|] eqn:D; [|discriminate].
      injection H as _ <- _. apply IH in D. destruct D as [new2 ->].
      eexists. rewrite !app_assoc. reflexivity.
    + injection H as _ <- _. eexists. rewrite app_assoc. reflexivity.
    + injection H as _ <- _. eexists. rewrite app_assoc. reflexivity.
Qed.

(** The first request of a walk that [new RegExp] does not end at its
    start: the first page of the entry, when it is neither loaded nor
    loading. *)
Lemma loadDeep_log (fuel : nat) (self : Entry) (first : string)
  (others : list string) (log : Log) (self' : Entry) (log' : Log)
  (a : Answer) :
  loadDeep backend localeCompare replaceRoot fuel self (first :: others) log
  = Some (self', log', a) ->
  shift_folders replaceRoot self first others <> None ->
  exists new,
    log' = (new ++ (if negb (loaded self) && negb (loading self)
                    then [pageRequest true self] else []) ++ log)%list.
Proof.
  destruct fuel as [|fuel]; intros H Sh; [discriminate|].
  cbn [loadDeep] in H.
  destruct (shift_folders replaceRoot self first others)
    as [[nextName rest]|]; [|congruence].
  destruct (loadAndFind backend localeCompare nextName self log)
    as [[[self1 log1] v]|] eqn:E; [|discriminate].
  apply loadAndFind_log in E. destruct E as [new1 ->].
  destruct v as [child| |].
  - destruct (loadDeep backend localeCompare replaceRoot fuel child rest _)
      as [[[child' log2] answer]|] eqn:D; [|discriminate].
    injection H as _ <- _. apply loadDeep_grows in D.
    destruct D as [new2 ->].
    eexists. rewrite !app_assoc. reflexivity.
  - injection H as _ <- _. now exists new1.
  - injection H as _ <- _. now exists new1.
Qed.

End FirstRequest.

Lemma walkable_construct (replaceRoot : string -> option (string -> string))
  (d : FileDefinition) (p : option Entry) (r : string) :
  walkable replaceRoot (construct d p r)
  = negb (Str.truthy r) || compiles replaceRoot r.
Proof.
  rewrite walkable_fields. cbn [construct rootPath entries forallb].
  apply andb_true_r.
Qed.

Lemma shift_folders_raises
  (replaceRoot : string -> option (string -> string))
  (self : Entry) (first : string) (others : list string) :
  negb (Str.truthy (rootPath self)) || compiles replaceRoot (rootPath self)
  = false ->
  shift_folders replaceRoot self first others = None.
Proof.
  intros C. apply orb_false_elim in C. destruct C as [T C].
  apply negb_false_iff in T. unfold shift_folders. rewrite T.
  unfold compiles in C.
  now destruct (replaceRoot (rootPath self)).
Qed.

(** X7: [getEntry] rejects, without any request, when no connector has
    the type of the path.  For a connector whose root path is empty or
    compiles as a pattern and whose type has an entry in
    [TYPE_SPECIFICS], its promise is resolved and, whatever the path, the
    first request it sends asks for page 1 of the root: 100 entries, no
    filter, the pieces of the root path that are not empty as
    [pathParts], and the root path as [rootPath].  For a connector of
    another type [getEntry] raises TypeError, and for a root path that is
    not empty and does not compile it raises SyntaxError, both without
    any request. *)
Theorem getEntry_asks_for_the_root_first
  (apiHelper : string -> Backend) (localeCompare : string -> string -> Z)
  (replaceRoot : string -> option (string -> string))
  (replaceRoot_deletes :
     forall p replace s,
       replaceRoot p = Some replace ->
       exists before gone after,
         s = before ++ gone ++ after /\ replace s = before ++ after)
  (rootFilePath : string -> option string)
  (path : string) (type : option string) :
  match rootFilePath (Resolve.entryType path type) with
  | None =>
      getEntry apiHelper localeCompare replaceRoot rootFilePath path type
      = Some (Rejected, None, [])
  | Some root_path =>
      if negb (Str.truthy root_path) || compiles replaceRoot root_path
      then
        match TYPE_SPECIFICS (Resolve.entryType path type) with
        | Some _ =>
            exists e root later,
              getEntry apiHelper localeCompare replaceRoot rootFilePath
                path type
              = Some (Resolved e, Some root,
                      (later
                       ++ [mkRequest 100 1 None
                             (List.filter Str.truthy (Str.split root_path))
                             (Some root_path)])%list)
        | None =>
            exists root,
              getEntry apiHelper localeCompare replaceRoot rootFilePath
                path type
              = Some (Threw TypeError, Some root, [])
        end
      else
        exists root,
          getEntry apiHelper localeCompare replaceRoot rootFilePath path
            type
          = Some (Threw SyntaxError, Some root, [])
  end.
Proof.
  unfold getEntry.
  destruct (rootFilePath (Resolve.entryType path type)) as [root_path|];
    [|reflexivity].
  set (root0 := construct (mkDefinition root_path "dir") None root_path).
  pose proof (entryFolders_not_empty (Resolve.entryType path type) path)
    as N.
  destruct (Resolve.entryFolders (Resolve.entryType path type) path)
    as [|first others]; [congruence|]. clear N.
  pose proof (walkable_construct replaceRoot
                (mkDefinition root_path "dir") None root_path) as Wk.
  fold root0 in Wk.
  destruct (negb (Str.truthy root_path) || compiles replaceRoot root_path)
    eqn:C.
  - destruct (shift_folders_walkable replaceRoot root0 first others Wk)
      as (n & rest & Sh).
    destruct (TYPE_SPECIFICS (Resolve.entryType path type))
      as [specifics|].
    + destruct (loadDeep_calls_back
                  (apiHelper (apiHelperFetchFunction specifics))
                  localeCompare replaceRoot replaceRoot_deletes
                  (S (weight (first :: others))) root0 (first :: others) []
                  (idle_construct _ _ _) Wk (Nat.lt_succ_diag_r _))
        as (root' & log' & trail & e & R).
      cbv zeta. rewrite R. exists e, root'.
      apply loadDeep_log in R; [|congruence]. destruct R as [new ->].
      exists new. rewrite app_nil_r.
      change (negb (loaded root0) && negb (loading root0)) with true.
      cbv iota.
      replace (pageRequest true root0)
        with (mkRequest 100 1 None
                (List.filter Str.truthy (Str.split root_path))
                (Some root_path)); [reflexivity|].
      unfold pageRequest. f_equal.
      symmetry. now apply (getHierarchy_without_parent root0).
    + cbv zeta. unfold loadDeep_without_specifics. rewrite Sh.
      eexists. reflexivity.
  - pose proof (shift_folders_raises replaceRoot root0 first others C)
      as Sh.
    destruct (TYPE_SPECIFICS (Resolve.entryType path type))
      as [specifics|]; cbv zeta.
    + cbn [loadDeep]. rewrite Sh. eexists. reflexivity.
    + unfold loadDeep_without_specifics. rewrite Sh.
      eexists. reflexivity.
Qed.

(** ** The paths the constructor derives *)

Lemma test_leading_slash (s : string) :
  Re.test leading_slash_re s
  = match s with
    | String c _ => Ascii.eqb c Str.slash
    | EmptyString => false
    end.
Proof.
  unfold Re.test, leading_slash_re. rewrite search_anchored.
  unfold Re.match_at, Re.lit.
  destruct s as [|c s]; cbn [Re.run Nat.eqb Re.accept]; [reflexivity|].
  rewrite slash_eqb_sym. now destruct (Ascii.eqb c Str.slash).
Qed.

Lemma path_of_child (d : FileDefinition) (p : Entry) (r : string) :
  path (construct d (Some p) r)
  = path p ++ (if ends_with_slash (path p) then "" else "/") ++ name d.
Proof.
  unfold construct. cbn [path]. rewrite test_trailing_slash.
  destruct (String.eqb (path p) "/") eqn:E.
  - apply String.eqb_eq in E. rewrite E. reflexivity.
  - cbn [negb andb]. destruct (ends_with_slash (path p)); cbn [negb].
    + reflexivity.
    + now rewrite append_assoc.
Qed.

Lemma pieces_app_slash (a b acc : string) :
  List.filter Str.truthy (Str.split_aux acc (a ++ String Str.slash b))
  = (List.filter Str.truthy (Str.split_aux acc a)
     ++ List.filter Str.truthy (Str.split b))%list.
Proof.
  revert acc. induction a as [|c a IH]; intros acc.
  - cbn [append Str.split_aux]. rewrite Ascii.eqb_refl.
    cbn [List.filter]. destruct (Str.truthy acc); reflexivity.
  - cbn [append Str.split_aux]. destruct (Ascii.eqb c Str.slash).
    + cbn [List.filter]. rewrite IH.
      destruct (Str.truthy acc); reflexivity.
    + apply IH.
Qed.

Lemma pieces_of_slashless (n : string) :
  slashless n = true ->
  List.filter Str.truthy (Str.split n) = if Str.truthy n then [n] else [].
Proof.
  intros H. unfold Str.split. rewrite <- (append_empty n) at 1.
  rewrite split_aux_app by assumption. reflexivity.
Qed.

(** X8: the path the constructor gives a child is the path of its
    parent, a ["/"] unless that path ends with one, and the name of the
    child; an entry without parent has its name as path.  [abfsPath] is
    ["abfs://"] followed by the path without one ["/"] at its start.
    When the name of a child holds no ["/"] and the pieces of the path
    of its parent that are not empty are the hierarchy of the parent, the
    same holds of the child: the path and the hierarchy agree. *)
Theorem constructor_paths (d : FileDefinition) (r : string) :
  path (construct d None r) = name d
  /\ (forall p : Entry,
        path (construct d (Some p) r)
        = path p ++ (if ends_with_slash (path p) then "" else "/")
          ++ name d)
  /\ (forall e : Entry,
        abfsPath e
        = "abfs://"
          ++ match path e with
             | String c s => if Ascii.eqb c Str.slash then s else path e
             | EmptyString => EmptyString
             end)
  /\ (forall p : Entry,
        slashless (name d) = true ->
        List.filter Str.truthy (Str.split (path p)) = getHierarchy p ->
        List.filter Str.truthy (Str.split (path (construct d (Some p) r)))
        = getHierarchy (construct d (Some p) r)).
Proof.
  split; [reflexivity|]. split; [intros p; apply path_of_child|]. split.
  - intros e. unfold abfsPath. rewrite test_leading_slash.
    destruct (path e) as [|c s]; [reflexivity|].
    destruct (Ascii.eqb c Str.slash) eqn:E; [|reflexivity].
    apply Ascii.eqb_eq in E. subst c. reflexivity.
  - intros p N H.
    rewrite (getHierarchy_child (construct d (Some p) r) p eq_refl).
    change (name (definition (construct d (Some p) r))) with (name d).
    rewrite path_of_child, <- H.
    destruct (ends_with_slash (path p)) eqn:E.
    + apply ends_with_slash_app in E. destruct E as [pre E].
      rewrite E. cbn [append]. rewrite append_assoc.
      change ("/" ++ name d) with (String Str.slash (name d)).
      unfold Str.split. rewrite !pieces_app_slash.
      rewrite (pieces_of_slashless (name d) N).
      cbn [Str.split Str.split_aux List.filter Str.truthy].
      now rewrite app_nil_r.
    + change ("/" ++ name d) with (String Str.slash (name d)).
      unfold Str.split at 1. rewrite pieces_app_slash.
      now rewrite (pieces_of_slashless (name d) N).
Qed.

(** The witness of [constructor_paths]: the root ["/user/hue"] and a
    child of it. *)
Lemma constructor_paths_witness :
  let p := Fixtures.root "/user/hue" in
  let d := mkDefinition "logs" "dir" in
  slashless (name d) = true
  /\ List.filter Str.truthy (Str.split (path p)) = getHierarchy p
  /\ List.filter Str.truthy (Str.split (path (construct d (Some p) "")))
     = getHierarchy (construct d (Some p) "")
  /\ path (construct d (Some p) "") = "/user/hue/logs"
  /\ abfsPath (construct d (Some p) "") = "abfs://user/hue/logs".
Proof.
  cbv zeta. split; [reflexivity|]. split; [reflexivity|].
  split; [|split; reflexivity].
  apply (proj2 (proj2 (proj2 (constructor_paths (mkDefinition "logs" "dir")
                                "")))); reflexivity.
Defined.

(** The witness of [getEntry_asks_for_the_root_first]: the path
    ["s3a://a"] with one connector, of type [s3] and root path [""]; the
    path ["gs://a"] with a connector of type [gs]; and the first path
    with a root path that does not compile. *)
Lemma getEntry_asks_for_the_root_first_witness :
  (exists e root later,
     getEntry (fun _ => Fixtures.listingBackend ["a"; "b"])
       Fixtures.codeUnitCompare Fixtures.hostRegExp
       (Fixtures.oneConnector "s3" "") "s3a://a" None
     = Some (Resolved e, Some root,
             (later ++ [mkRequest 100 1 None [] (Some "")])%list))
  /\ (exists root,
        getEntry (fun _ => Fixtures.listingBackend ["a"; "b"])
          Fixtures.codeUnitCompare Fixtures.hostRegExp
          (Fixtures.oneConnector "gs" "") "gs://a" None
        = Some (Threw TypeError, Some root, []))
  /\ (exists root,
        getEntry (fun _ => Fixtures.listingBackend ["a"; "b"])
          Fixtures.codeUnitCompare Fixtures.hostRegExp
          (Fixtures.oneConnector "s3" "/tmp/a(b") "s3a://a" None
        = Some (Threw SyntaxError, Some root, [])).
Proof.
  split; [|split].
  - exact (getEntry_asks_for_the_root_first
             (fun _ => Fixtures.listingBackend ["a"; "b"])
             Fixtures.codeUnitCompare Fixtures.hostRegExp
             hostRegExp_deletes (Fixtures.oneConnector "s3" "") "s3a://a"
             None).
  - exact (getEntry_asks_for_the_root_first
             (fun _ => Fixtures.listingBackend ["a"; "b"])
             Fixtures.codeUnitCompare Fixtures.hostRegExp
             hostRegExp_deletes (Fixtures.oneConnector "gs" "") "gs://a"
             None).
  - exact (getEntry_asks_for_the_root_first
             (fun _ => Fixtures.listingBackend ["a"; "b"])
             Fixtures.codeUnitCompare Fixtures.hostRegExp
             hostRegExp_deletes (Fixtures.oneConnector "s3" "/tmp/a(b")
             "s3a://a" None).
Defined.

(** ** Folders the [rootPath] statement leaves alone *)

(** X9: the [rootPath] statement of the walk changes nothing when
    [rootPath] is empty; and when [rootPath] is a plain pattern, no
    folder holds a ["/"] and the joined folders do not start with
    [rootPath], the walk looks for the first folder and hands the others
    to the child, as without [rootPath].  A folder that holds a ["/"] is
    cut in pieces by the statement. *)
Theorem rootPath_leaves_other_folders
  (replaceRoot : string -> option (string -> string))
  (replaceRoot_plain :
     forall p, Fixtures.plain p = true ->
               exists replace,
                 replaceRoot p = Some replace
                 /\ forall s, replace s = Fixtures.literalReplace p s)
  (self : Entry) (first : string) (others : list string) :
  (rootPath self = "" ->
   shift_folders replaceRoot self first others = Some (first, others))
  /\ (Fixtures.plain (rootPath self) = true ->
      Fixtures.strip_prefix (rootPath self) (Str.join (first :: others))
      = None ->
      forallb slashless (first :: others) = true ->
      shift_folders replaceRoot self first others = Some (first, others))
  /\ (Str.truthy (rootPath self) = true ->
      Fixtures.plain (rootPath self) = true ->
      Fixtures.strip_prefix (rootPath self) (Str.join (first :: others))
      = None ->
      forall n rest,
        shift_folders replaceRoot self first others = Some (n, rest) ->
        slashless n = true /\ forallb slashless rest = true
        /\ Str.join (n :: rest) = Str.join (first :: others)).
Proof.
  split; [|split].
  - intros R. unfold shift_folders. now rewrite R.
  - intros P N Hs. unfold shift_folders.
    destruct (Str.truthy (rootPath self)); [|reflexivity].
    destruct (replaceRoot_plain (rootPath self) P) as (replace & -> & Hr).
    rewrite Hr. unfold Fixtures.literalReplace. rewrite N.
    rewrite split_join; [reflexivity | discriminate | assumption].
  - intros T P N n rest. unfold shift_folders. rewrite T.
    destruct (replaceRoot_plain (rootPath self) P) as (replace & -> & Hr).
    rewrite Hr. unfold Fixtures.literalReplace. rewrite N.
    pose proof (split_slashless (Str.join (first :: others))) as Hs.
    pose proof (join_split (Str.join (first :: others))) as J.
    destruct (Str.split (Str.join (first :: others))) as [|a l] eqn:E.
    + exfalso. revert E. apply split_aux_not_nil.
    + intros H. injection H as <- <-. cbn in Hs. apply andb_prop in Hs.
      destruct Hs as [S1 S2]. auto.
Qed.

(** The witness of [rootPath_leaves_other_folders]: under the root
    ["/user/hue"] the folders [tmp], [x] stay, and the folder ["tmp/x"]
    becomes [tmp], [x]. *)
Lemma rootPath_leaves_other_folders_witness :
  let self := Fixtures.root "/user/hue" in
  Fixtures.plain (rootPath self) = true
  /\ Str.truthy (rootPath self) = true
  /\ Fixtures.strip_prefix (rootPath self) (Str.join ["tmp"; "x"]) = None
  /\ forallb slashless ["tmp"; "x"] = true
  /\ shift_folders Fixtures.hostRegExp self "tmp" ["x"]
     = Some ("tmp", ["x"])
  /\ shift_folders Fixtures.hostRegExp self "tmp/x" []
     = Some ("tmp", ["x"])
  /\ (slashless "tmp" = true /\ forallb slashless ["x"] = true
      /\ Str.join ["tmp"; "x"] = Str.join ["tmp/x"]).
Proof.
  cbv zeta. split; [reflexivity|]. split; [reflexivity|].
  split; [reflexivity|]. split; [reflexivity|].
  split; [|split; [reflexivity|]].
  - apply (proj1 (proj2 (rootPath_leaves_other_folders
                           Fixtures.hostRegExp hostRegExp_plain
                           (Fixtures.root "/user/hue") "tmp" ["x"])));
      reflexivity.
  - apply (proj2 (proj2 (rootPath_leaves_other_folders
                           Fixtures.hostRegExp hostRegExp_plain
                           (Fixtures.root "/user/hue") "tmp/x" [])));
      reflexivity.
Defined.

(** ** A new filter text *)

(** X10: when the filter text of an entry has changed and no first-page
    request is in flight, the subscriber sends one request: page 1,
    whatever page the entry was at, with the text as it is, not trimmed,
    or no filter when the text is blank.  A successful answer makes its
    listed files the children, in place of the old ones, and the entry is
    at page 1 again.  When a request is in flight nothing is sent, yet
    the entry is set back to page 1 with more pages expected. *)
Theorem filter_change_reloads_first_page
  (backend : Backend) (text : string) (self : Entry) (log : Log) :
  let req :=
    mkRequest 100 1 (if Str.trim_truthy text then Some text else None)
      (getHierarchy self) (Some (rootPath self)) in
  let '(self', log', signal) :=
    filterChanged backend (set_filter text self) log in
  currentPage self' = 1%Z
  /\ (loading self = true ->
      log' = log /\ signal = NoCall /\ hasMorePages self' = true
      /\ entries self' = entries self)
  /\ (loading self = false ->
      log' = req :: log
      /\ match backend log req with
         | Success data =>
             signal = OnSuccess
             /\ childNames self' = listedNames data
             /\ hasMorePages self' = (1 <? next_page_number data)%Z
         | Failure t =>
             signal = OnError
             /\ entries self' = entries self
             /\ hasErrors self' = true /\ errorText self' = Some t
         end).
Proof.
  cbv zeta. unfold filterChanged, loadEntries.
  replace (loading (set_hasMorePages true
                      (set_currentPage 1%Z (set_filter text self))))
    with (loading self) by (destruct self; reflexivity).
  destruct (loading self).
  - split; [destruct self; reflexivity|].
    split; [intros _|discriminate].
    destruct self; repeat split.
  - replace (pageRequest true _)
      with (mkRequest 100 1
              (if Str.trim_truthy text then Some text else None)
              (getHierarchy self) (Some (rootPath self)))
      by (destruct self; reflexivity).
    destruct (backend log _) as [data|t].
    + split; [destruct self; reflexivity|].
      split; [discriminate | intros _].
      split; [reflexivity|]. split; [reflexivity|].
      split; [|destruct self; reflexivity].
      destruct self. unfold childNames, children_of, listedNames. cbn.
      now rewrite map_map.
    + split; [destruct self; reflexivity|].
      split; [discriminate | intros _].
      split; [reflexivity|]. destruct self; repeat split.
Qed.

(** The witness of [filter_change_reloads_first_page]: an entry at page
    3 whose filter becomes [" a "], and one whose first page is in
    flight. *)
Lemma filter_change_reloads_first_page_witness :
  let st := runOps Fixtures.threePagesThenDenied
              [DoLoadEntries; DoFetchMore; DoFetchMore]
              (Fixtures.root "", []) in
  let busy := set_loading true (fst st) in
  (loading (fst st) = false /\ currentPage (fst st) = 3%Z
   /\ snd (fst (filterChanged Fixtures.threePagesThenDenied
                  (set_filter " a " (fst st)) (snd st)))
      = mkRequest 100 1 (Some " a ") [] (Some "") :: snd st)
  /\ (loading busy = true
      /\ snd (fst (filterChanged Fixtures.threePagesThenDenied
                     (set_filter " a " busy) (snd st)))
         = snd st).
Proof.
  cbv zeta. split.
  - split; [reflexivity|]. split; [reflexivity|].
    pose proof (filter_change_reloads_first_page
                  Fixtures.threePagesThenDenied " a "
                  (fst (runOps Fixtures.threePagesThenDenied
                          [DoLoadEntries; DoFetchMore; DoFetchMore]
                          (Fixtures.root "", [])))
                  (snd (runOps Fixtures.threePagesThenDenied
                          [DoLoadEntries; DoFetchMore; DoFetchMore]
                          (Fixtures.root "", [])))) as H.
    cbv zeta in H.
    destruct (filterChanged _ _ _) as [[s l] g]. cbn [fst snd].
    destruct H as (_ & _ & H). now destruct (H eq_refl) as [-> _].
  - split; [reflexivity|].
    pose proof (filter_change_reloads_first_page
                  Fixtures.threePagesThenDenied " a "
                  (set_loading true
                     (fst (runOps Fixtures.threePagesThenDenied
                             [DoLoadEntries; DoFetchMore; DoFetchMore]
                             (Fixtures.root "", []))))
                  (snd (runOps Fixtures.threePagesThenDenied
                          [DoLoadEntries; DoFetchMore; DoFetchMore]
                          (Fixtures.root "", [])))) as H.
    cbv zeta in H.
    destruct (filterChanged _ _ _) as [[s l] g]. cbn [fst snd].
    destruct H as (_ & H & _). now destruct (H eq_refl) as [-> _].
Defined.

(** ** Opening an entry *)

Lemma length_zero_nil (A : Type) (l : list A) :
  (List.length l =? 0) = true <-> l = [].
Proof.
  destruct l; cbn; split; intros H; try reflexivity; discriminate.
Qed.

(** X11: the subscriber of [open] does nothing when the entry is closed
    or has children.  Opened without children, a ["dir"] entry that is
    not loading sends one listing request for its current page and no
    preview request, and its children become exactly the listed files,
    so that a directory listed as empty is asked for again at the next
    opening.  An entry of another type sends no listing request and one
    preview request, for its hierarchy and with errors silenced, even
    while it is loading; it keeps having no children, is not loading
    afterwards, and a failure is recorded as its error. *)
Theorem open_loads_what_is_missing
  (backend : Backend) (previews : PreviewRequest -> PreviewResponse)
  (newValue : bool) (self : Entry) (log : Log) :
  let '(self', log', sent, written) :=
    openChanged backend previews newValue self log in
  (newValue = false \/ entries self <> [] ->
   self' = self /\ log' = log /\ sent = [] /\ written = None)
  /\ (newValue = true -> entries self = [] ->
      type (definition self) = "dir" ->
      sent = [] /\ written = None
      /\ (loading self = true -> self' = self /\ log' = log)
      /\ (loading self = false ->
          log' = pageRequest true self :: log
          /\ loading self' = false
          /\ match backend log (pageRequest true self) with
             | Success data => childNames self' = listedNames data
             | Failure t => entries self' = [] /\ errorText self' = Some t
             end))
  /\ (newValue = true -> entries self = [] ->
      type (definition self) <> "dir" ->
      let req := mkPreviewRequest (getHierarchy self) true in
      log' = log /\ sent = [req]
      /\ entries self' = [] /\ loading self' = false
      /\ loaded self' = loaded self
      /\ match previews req with
         | PreviewDone data =>
             written = Some data /\ hasErrors self' = hasErrors self
             /\ errorText self' = errorText self
         | PreviewFail t =>
             written = None /\ hasErrors self' = true
             /\ errorText self' = Some t
         end).
Proof.
  unfold openChanged.
  destruct newValue; cbn [andb].
  2:{ split; [auto|]. split; discriminate. }
  destruct (List.length (entries self) =? 0) eqn:L.
  2:{ assert (entries self <> []) as N.
      { intros E. apply length_zero_nil in E. congruence. }
      split; [auto|]. split; intros _ E; contradiction. }
  apply length_zero_nil in L.
  destruct (String.eqb (type (definition self)) "dir") eqn:T.
  - apply String.eqb_eq in T.
    pose proof (loadEntries_cases backend self log) as C.
    destruct (loadEntries backend self log) as [[self' log'] signal].
    split; [intros [H|H]; [discriminate | contradiction]|].
    split; [|intros _ _ N; contradiction].
    intros _ _ _. split; [reflexivity|]. split; [reflexivity|].
    destruct signal.
    + destruct C as (G & Q & data & B & _ & Names & Ld & _).
      split; [congruence|]. intros _. rewrite B. auto.
    + destruct C as (G & Q & t & B & E & Ld & _ & _ & _ & Et & _).
      split; [congruence|]. intros _. rewrite B.
      split; [assumption|]. split; [assumption|].
      split; [congruence | assumption].
    + destruct C as (G & -> & ->).
      split; [auto | congruence].
  - apply String.eqb_neq in T. unfold loadPreview. cbv zeta.
    replace (getHierarchy (set_loading true self))
      with (getHierarchy self) by (destruct self; reflexivity).
    destruct (previews _) as [data|t] eqn:P.
    + split; [intros [H|H]; [discriminate | contradiction]|].
      split; [intros _ _ D; contradiction|].
      intros _ _ _.
      destruct self; cbn in *; repeat split; assumption.
    + split; [intros [H|H]; [discriminate | contradiction]|].
      split; [intros _ _ D; contradiction|].
      intros _ _ _.
      destruct self; cbn in *; repeat split; assumption.
Qed.

(** The witness of [open_loads_what_is_missing]: a directory and a file
    without children are opened, and a directory is closed. *)
Lemma open_loads_what_is_missing_witness :
  let dir := Fixtures.root "" in
  let file := construct (mkDefinition "a.csv" "file") None "" in
  let backend := Fixtures.listingBackend ["a"; "b"] in
  let previews := fun _ : PreviewRequest => PreviewFail "denied" in
  (entries dir = [] /\ type (definition dir) = "dir"
   /\ loading dir = false
   /\ snd (fst (fst (openChanged backend previews true dir [])))
      = [pageRequest true dir])
  /\ (entries file = [] /\ type (definition file) <> "dir"
      /\ snd (fst (openChanged backend previews true file []))
         = [mkPreviewRequest ["a.csv"] true])
  /\ fst (fst (fst (openChanged backend previews false dir []))) = dir.
Proof.
  cbv zeta. split; [|split].
  - split; [reflexivity|]. split; [reflexivity|]. split; [reflexivity|].
    pose proof (open_loads_what_is_missing
                  (Fixtures.listingBackend ["a"; "b"])
                  (fun _ => PreviewFail "denied") true
                  (Fixtures.root "") []) as H.
    destruct (openChanged _ _ _ _ _) as [[[s l] q] w]. cbn [fst snd].
    destruct H as (_ & H & _).
    destruct (H eq_refl eq_refl eq_refl) as (_ & _ & _ & K).
    exact (proj1 (K eq_refl)).
  - split; [reflexivity|]. split; [discriminate|].
    pose proof (open_loads_what_is_missing
                  (Fixtures.listingBackend ["a"; "b"])
                  (fun _ => PreviewFail "denied") true
                  (construct (mkDefinition "a.csv" "file") None "") [])
      as H.
    destruct (openChanged _ _ _ _ _) as [[[s l] q] w]. cbn [fst snd].
    destruct H as (_ & _ & H).
    assert (type (definition
                    (construct (mkDefinition "a.csv" "file") None ""))
            <> "dir") as N by discriminate.
    exact (proj1 (proj2 (H eq_refl eq_refl N))).
  - pose proof (open_loads_what_is_missing
                  (Fixtures.listingBackend ["a"; "b"])
                  (fun _ => PreviewFail "denied") false
                  (Fixtures.root "") []) as H.
    destruct (openChanged _ _ _ _ _) as [[[s l] q] w]. cbn [fst snd].
    destruct H as (H & _). exact (proj1 (H (or_introl eq_refl))).
Defined.

(** ** The search in a sorted listing *)





Section SortedListing.

Variable localeCompare : string -> string -> Z.
Variable names : list string.
Hypothesis names_distinct : distinctb names = true.
Hypothesis names_proper : forallb properName names = true.
Hypothesis names_sorted : sortedb localeCompare names = true.






End SortedListing.


Section SortedSearch.

Variable localeCompare : string -> string -> Z.
Variable names : list string.
Hypothesis names_distinct : distinctb names = true.
Hypothesis names_proper : forallb properName names = true.
Hypothesis names_sorted : sortedb localeCompare names = true.


End SortedSearch.



(** ** The page counter *)

Lemma loadEntries_counter (backend : Backend) (self : Entry) (log : Log) :
  let '(self', log', _) := loadEntries backend self log in
  currentPage self' = currentPage self /\ filter_ self' = filter_ self
  /\ getHierarchy self' = getHierarchy self
  /\ (log' = log \/ log' = pageRequest true self :: log).
Proof.
  unfold loadEntries. destruct (loading self); [auto|].
  destruct (backend log _); destruct self; cbn; auto.
Qed.

Lemma fetchMore_counter (backend : Backend) (self : Entry) (log : Log) :
  let '(self', log', _) := fetchMore backend self log in
  filter_ self' = filter_ self /\ getHierarchy self' = getHierarchy self
  /\ ((currentPage self' = currentPage self /\ log' = log)
      \/ (currentPage self' = (currentPage self + 1)%Z
          /\ log' = moreRequest self :: log)).
Proof.
  unfold fetchMore. destruct (negb (hasMorePages self) || loadingMore self);
    [auto|].
  destruct (backend log _); destruct self; cbn; auto.
Qed.

Lemma runOp_counter (backend : Backend) (parts : list string) (op : Op)
  (st : Entry * Log) :
  (currentPage (fst st) = (1 + Z.of_nat (fetchMoreCount (snd st)))%Z
   /\ filter_ (fst st) = "" /\ getHierarchy (fst st) = parts
   /\ pages_counted parts (snd st)) ->
  let st' := runOp backend op st in
  currentPage (fst st') = (1 + Z.of_nat (fetchMoreCount (snd st')))%Z
  /\ filter_ (fst st') = "" /\ getHierarchy (fst st') = parts
  /\ pages_counted parts (snd st').
Proof.
  destruct st as [self log]. cbn [fst snd]. intros (P & F & H & C).
  destruct op; cbv zeta; cbn [runOp fst snd].
  - pose proof (loadEntries_counter backend self log) as K.
    destruct (loadEntries backend self log) as [[self' log'] sg].
    cbn [fst snd]. destruct K as (P' & F' & H' & [-> | ->]).
    + rewrite P', F', H'. auto.
    + rewrite P', F', H'.
      assert (fetchMoreCount (pageRequest true self :: log)
              = fetchMoreCount log) as E by reflexivity.
      rewrite E. split; [assumption|]. split; [assumption|].
      split; [assumption|]. cbn [pages_counted]. rewrite E.
      split; [reflexivity|].
      split; [change (req_filter (pageRequest true self))
                with (if Str.trim_truthy (filter_ self)
                      then Some (filter_ self) else None);
              now rewrite F|].
      split; [assumption|]. split; assumption.
  - pose proof (fetchMore_counter backend self log) as K.
    destruct (fetchMore backend self log) as [[self' log'] sg].
    cbn [fst snd]. destruct K as (F' & H' & [[P' ->] | [P' ->]]).
    + rewrite P', F', H'. auto.
    + rewrite P', F', H'.
      assert (fetchMoreCount (moreRequest self :: log)
              = S (fetchMoreCount log)) as E by reflexivity.
      rewrite E. split; [lia|]. split; [assumption|].
      split; [assumption|]. cbn [pages_counted]. rewrite E.
      split; [reflexivity|].
      split; [change (req_filter (moreRequest self))
                with (if Str.trim_truthy (filter_ self)
                      then Some (filter_ self) else None);
              now rewrite F|].
      split; [assumption|]. split; [|assumption].
      change (req_page (moreRequest self)) with (currentPage self + 1)%Z.
      lia.
Qed.

(** X13: after any sequence of [loadEntries] and [fetchMore] on a new
    entry, the page of the entry is one more than the number of
    [fetchMore] requests sent, failed ones included: [loadEntries] never
    sets it back, and a failure does not undo the step.  Every request
    asked 100 entries of the path of the entry, without filter, and the
    page one more than the number of [fetchMore] requests sent up to it,
    so that a [loadEntries] after pages were fetched asks the page
    reached, not the first. *)
Theorem page_counter_counts_fetchMore
  (backend : Backend) (d : FileDefinition) (p : option Entry)
  (root_path : string) (ops : list Op) :
  let start := construct d p root_path in
  let st := runOps backend ops (start, []) in
  currentPage (fst st) = (1 + Z.of_nat (fetchMoreCount (snd st)))%Z
  /\ pages_counted (getHierarchy start) (snd st).
Proof.
  cbv zeta.
  set (start := construct d p root_path).
  assert (forall st,
             (currentPage (fst st)
              = (1 + Z.of_nat (fetchMoreCount (snd st)))%Z
              /\ filter_ (fst st) = ""
              /\ getHierarchy (fst st) = getHierarchy start
              /\ pages_counted (getHierarchy start) (snd st)) ->
             currentPage (fst (runOps backend ops st))
             = (1 + Z.of_nat (fetchMoreCount (snd (runOps backend ops st))))%Z
             /\ pages_counted (getHierarchy start)
                  (snd (runOps backend ops st))) as G.
  { induction ops as [|op ops IH]; intros st I.
    - cbn. destruct I as (I1 & _ & _ & I4). auto.
    - rewrite runOps_cons. apply IH.
      now apply runOp_counter. }
  apply G. cbn [fst snd]. repeat split.
Qed.

(** ** The entry [getEntry] resolves with *)

(** X14: when the type of a path has an entry in [TYPE_SPECIFICS] and
    its connector has an empty root path, [getEntry] resolves with an
    entry reached from the root through a prefix of the folders of the
    path; its hierarchy is the names of that prefix that are not empty,
    and when folders are left over, the first of them has not exactly one
    child of its name there. *)
Theorem getEntry_resolves_along_the_path
  (apiHelper : string -> Backend) (localeCompare : string -> string -> Z)
  (replaceRoot : string -> option (string -> string))
  (replaceRoot_deletes :
     forall p replace s,
       replaceRoot p = Some replace ->
       exists before gone after,
         s = before ++ gone ++ after /\ replace s = before ++ after)
  (rootFilePath : string -> option string)
  (path : string) (type : option string) :
  rootFilePath (Resolve.entryType path type) = Some "" ->
  TYPE_SPECIFICS (Resolve.entryType path type) <> None ->
  exists e root log trail rest,
    getEntry apiHelper localeCompare replaceRoot rootFilePath path type
    = Some (Resolved e, Some root, log)
    /\ Resolve.entryFolders (Resolve.entryType path type) path
       = (trail ++ rest)%list
    /\ locate root trail = Some e
    /\ getHierarchy e = named_parts trail
    /\ match rest with
       | [] => True
       | n :: _ => List.length (List.filter (named n) (entries e)) <> 1
       end.
Proof.
  intros C T. unfold getEntry. rewrite C.
  destruct (TYPE_SPECIFICS (Resolve.entryType path type)) as [specifics|];
    [|congruence].
  set (backend := apiHelper (apiHelperFetchFunction specifics)).
  set (root0 := construct (mkDefinition "" "dir") None "").
  set (folders := Resolve.entryFolders (Resolve.entryType path type) path).
  destruct (loadDeep_calls_back backend localeCompare replaceRoot
              replaceRoot_deletes (S (weight folders)) root0 folders []
              (idle_construct _ _ _) eq_refl (Nat.lt_succ_diag_r _))
    as (root' & log' & trail & e & R).
  cbv zeta. rewrite R.
  destruct (loadDeep_reaches backend localeCompare replaceRoot
              (S (weight folders)) root0 folders [] root' log' trail e R
              (Linked_construct _ _ _) eq_refl)
    as (_ & (rest & F & Hs) & Loc & Hier & _).
  exists e, root', log', trail, rest.
  split; [reflexivity|]. split; [exact F|]. split; [exact Loc|].
  split; [exact Hier | exact Hs].
Qed.

(** The witness of [getEntry_resolves_along_the_path]: the path
    ["s3a://a/x"] where every directory lists [a] and [b]. *)
Lemma getEntry_resolves_along_the_path_witness :
  Fixtures.oneConnector "s3" "" (Resolve.entryType "s3a://a/x" None)
  = Some ""
  /\ TYPE_SPECIFICS (Resolve.entryType "s3a://a/x" None) <> None
  /\ exists e root log trail rest,
       getEntry (fun _ => Fixtures.listingBackend ["a"; "b"])
         Fixtures.codeUnitCompare Fixtures.hostRegExp
         (Fixtures.oneConnector "s3" "") "s3a://a/x" None
       = Some (Resolved e, Some root, log)
       /\ Resolve.entryFolders (Resolve.entryType "s3a://a/x" None)
            "s3a://a/x"
          = (trail ++ rest)%list
       /\ locate root trail = Some e
       /\ getHierarchy e = named_parts trail
       /\ match rest with
          | [] => True
          | n :: _ => List.length (List.filter (named n) (entries e)) <> 1
          end.
Proof.
  assert (C : Fixtures.oneConnector "s3" ""
                (Resolve.entryType "s3a://a/x" None) = Some "")
    by (vm_compute; reflexivity).
  assert (T : TYPE_SPECIFICS (Resolve.entryType "s3a://a/x" None) <> None)
    by (vm_compute; discriminate).
  split; [exact C|]. split; [exact T|].
  exact (getEntry_resolves_along_the_path
           (fun _ => Fixtures.listingBackend ["a"; "b"])
           Fixtures.codeUnitCompare Fixtures.hostRegExp hostRegExp_deletes
           (Fixtures.oneConnector "s3" "") "s3a://a/x" None C T).
Defined.
